(** * Directory scanning and line input of the squashfs image builder

    A shallow embedding of
    - [lib/io/src/unix/istream.c]  (the file backed input stream),
    - [lib/io/src/get_line.c]      (the line reader),
    - [bin/gensquashfs/src/fstree_from_dir.c] (both directory walkers),
    with the properties the design document states about them. *)

From Stdlib Require Import ZArith List String Ascii Bool Lia Arith.
From Stdlib Require Import Init.Byte.
Import ListNotations.

Set Implicit Arguments.

(** ** The file backed stream: [file_precache] *)

Module Precache.

(** What one call of [read(2)] on the descriptor does.  The kernel may
    serve fewer bytes than requested, may be interrupted by a signal
    before it transferred anything, or may fail. *)
Inductive read_ev :=
| Serve (most : nat)   (* transfer at most [S most] bytes *)
| Eintr                (* -1, errno = EINTR *)
| Eio.                 (* -1, any other errno *)

(** [file_istream_t] together with the fields of [istream_t] that
    [file_precache] touches.  [strm_buffer] is the distance
    [strm->buffer - file->buffer]. *)
Record file_istream := mk_file {
  buffer      : list byte;     (* sqfs_u8 buffer[BUFSZ] *)
  strm_buffer : nat;
  buffer_used : nat;
  eof         : bool;
  fd_rest     : list byte;     (* bytes of the file not yet read *)
  fd_script   : list read_ev;  (* behaviour of the coming read calls *)
  diag        : list string    (* perror output *)
}.

Section WithBufsz.

(** [BUFSZ] comes from [internal.h]. *)
Variable BUFSZ : nat.

(** The four assertions at the head of [file_precache]. *)
Definition precache_asserts (f : file_istream) : Prop :=
  List.length (buffer f) = BUFSZ /\
  strm_buffer f <= BUFSZ /\
  buffer_used f <= BUFSZ /\
  strm_buffer f <= BUFSZ - buffer_used f.

(** [memmove(dst = b, src = b + off, n)] inside one array. *)
Definition memmove_front (b : list byte) (off n : nat) : list byte :=
  firstn n (skipn off b) ++ skipn n b.

(** Storing [bs] at [b + at]. *)
Definition store_at (b : list byte) (pos : nat) (bs : list byte) : list byte :=
  firstn pos b ++ bs ++ skipn (pos + List.length bs) b.

(** How many bytes a [read] of [count] bytes may transfer at most. *)
Definition served (most count : nat) : nat := Nat.min (S most) count.

(** [read(fd, buf, count)]: the result is [inl bytes] (zero bytes only at
    the end of the file) or [inr is_eintr]. *)
Definition sys_read (f : file_istream) (count : nat)
  : (list byte + bool) * file_istream :=
  let next := match fd_script f with
              | [] => Serve count
              | ev :: _ => ev
              end in
  let f' := mk_file (buffer f) (strm_buffer f) (buffer_used f) (eof f)
                    (fd_rest f) (tl (fd_script f)) (diag f) in
  match next with
  | Serve most =>
      let k := served most count in
      (inl (firstn k (fd_rest f)),
       mk_file (buffer f) (strm_buffer f) (buffer_used f) (eof f)
               (skipn k (fd_rest f)) (tl (fd_script f)) (diag f))
  | Eintr => (inr true, f')
  | Eio => (inr false, f')
  end.

Definition set_eof (f : file_istream) : file_istream :=
  mk_file (buffer f) (strm_buffer f) (buffer_used f) true
          (fd_rest f) (fd_script f) (diag f).

Definition append_read (f : file_istream) (bs : list byte) : file_istream :=
  mk_file (store_at (buffer f) (buffer_used f) bs) (strm_buffer f)
          (buffer_used f + List.length bs) (eof f)
          (fd_rest f) (fd_script f) (diag f).

Definition perror (f : file_istream) (msg : string) : file_istream :=
  mk_file (buffer f) (strm_buffer f) (buffer_used f) (eof f)
          (fd_rest f) (fd_script f) (diag f ++ [msg]).

(** The [while (!strm->eof && strm->buffer_used < BUFSZ)] loop.  [None]
    means the iteration budget ran out. *)
Fixpoint precache_loop (fuel : nat) (f : file_istream)
  : option (Z * file_istream) :=
  if eof f || negb (buffer_used f <? BUFSZ) then Some (0%Z, f)
  else
    match fuel with
    | O => None
    | S fuel' =>
        let '(r, f1) := sys_read f (BUFSZ - buffer_used f) in
        match r with
        | inl bs =>
            let f2 := match bs with [] => set_eof f1 | _ => f1 end in
            precache_loop fuel' (append_read f2 bs)
        | inr true => precache_loop fuel' f1
        | inr false => Some ((-1)%Z, perror f1 "file->path")
        end
    end.

Definition file_precache (fuel : nat) (f : file_istream)
  : option (Z * file_istream) :=
  let b := if 0 <? buffer_used f
           then memmove_front (buffer f) (strm_buffer f) (buffer_used f)
           else buffer f in
  precache_loop fuel
    (mk_file b 0 (buffer_used f) (eof f) (fd_rest f) (fd_script f) (diag f)).

(** The bytes a consumer sees: [buffer_used] bytes from [strm->buffer]. *)
Definition window (f : file_istream) : list byte :=
  firstn (buffer_used f) (skipn (strm_buffer f) (buffer f)).

(** Iterations the loop needs at most: one per scripted event, one for
    the data and one to see the end of the file. *)
Definition reads_needed (g : file_istream) : nat :=
  List.length (fd_script g) + match fd_rest g with [] => 1 | _ => 2 end.

(** What a successful run of the loop guarantees about the stream. *)
Definition loop_post (g f' : file_istream) : Prop :=
  List.length (buffer f') = BUFSZ /\
  strm_buffer f' = 0 /\
  buffer_used g <= buffer_used f' <= BUFSZ /\
  firstn (buffer_used g) (buffer f') = firstn (buffer_used g) (buffer g) /\
  firstn (buffer_used f') (buffer f') ++ fd_rest f'
    = firstn (buffer_used g) (buffer g) ++ fd_rest g /\
  (eof f' = true \/ buffer_used f' = BUFSZ).

End WithBufsz.

End Precache.

(** ** The file backed stream: opening and destroying it *)

Module FileStream.
Import Precache.

(** The process as [istream_open_file], [istream_open_stdin] and
    [file_destroy] see it: the outcome of the coming allocations ([calloc]
    and [strdup]), the number of heap blocks alive, the descriptors that
    are open, and the lines [perror] wrote. *)
Record proc := mk_proc {
  allocs : list bool;
  heap   : nat;
  fds    : list Z;
  err    : list string
}.

(** [file_istream_t]: the path and the descriptor beside the stream. *)
Record file_obj := mk_obj {
  path : string;
  fd   : Z;
  strm : file_istream
}.

Definition STDIN_FILENO : Z := 0.

(** [calloc] or [strdup]: does it succeed? *)
Definition alloc (p : proc) : bool * proc :=
  match allocs p with
  | false :: rest => (false, mk_proc rest (heap p) (fds p) (err p))
  | _ => (true, mk_proc (tl (allocs p)) (S (heap p)) (fds p) (err p))
  end.

(** [free] of a block that was allocated. *)
Definition free (p : proc) : proc :=
  mk_proc (allocs p) (pred (heap p)) (fds p) (err p).

Definition perror (p : proc) (msg : string) : proc :=
  mk_proc (allocs p) (heap p) (fds p) (err p ++ [msg]).

Definition opened (p : proc) (d : Z) : proc :=
  mk_proc (allocs p) (heap p) (d :: fds p) (err p).

Fixpoint remove_fd (l : list Z) (d : Z) : list Z :=
  match l with
  | [] => []
  | x :: r => if (x =? d)%Z then r else x :: remove_fd r d
  end.

(** [close(d)] *)
Definition close (p : proc) (d : Z) : proc :=
  mk_proc (allocs p) (heap p) (remove_fd (fds p) d) (err p).

Section WithBufsz.
Variable BUFSZ : nat.

(** [open(path, O_RDONLY)]: [None] when the call fails, else the
    descriptor with the bytes of the file and the behaviour of the reads
    to come. *)
Variable sys_open : string -> option (Z * list byte * list read_ev).

(** The object [calloc] returned, after the assignments that follow a
    successful [open]. *)
Definition fresh (pth : string) (d : Z) (bytes : list byte)
           (script : list read_ev) : file_obj :=
  mk_obj pth d (mk_file (repeat x00 BUFSZ) 0 0 false bytes script []).

Definition istream_open_file (pth : string) (p : proc)
  : option file_obj * proc :=
  match alloc p with
  | (false, p) => (None, perror p pth)
  | (true, p) =>
      match alloc p with
      | (false, p) => (None, free (perror p pth))
      | (true, p) =>
          match sys_open pth with
          | None => (None, free (free (perror p pth)))
          | Some (d, bytes, script) =>
              (Some (fresh pth d bytes script), opened p d)
          end
      end
  end.

(** [istream_open_stdin]; [bytes] and [script] are what descriptor 0 will
    deliver. *)
Definition istream_open_stdin (bytes : list byte) (script : list read_ev)
           (p : proc) : option file_obj * proc :=
  match alloc p with
  | (false, p) => (None, perror p "creating file wrapper for stdin")
  | (true, p) =>
      match alloc p with
      | (false, p) => (None, free (perror p "creating file wrapper for stdin"))
      | (true, p) => (Some (fresh "stdin" STDIN_FILENO bytes script), p)
      end
  end.

End WithBufsz.

Definition file_get_filename (f : file_obj) : string := path f.

Definition file_destroy (f : file_obj) (p : proc) : proc :=
  let p := if negb (fd f =? STDIN_FILENO)%Z then close p (fd f) else p in
  free (free p).

(** A script of reads without the interrupted ones. *)
Definition drop_eintr (sc : list read_ev) : list read_ev :=
  filter (fun ev => match ev with Eintr => false | _ => true end) sc.

Definition with_script (f : file_istream) (sc : list read_ev) : file_istream :=
  mk_file (buffer f) (strm_buffer f) (buffer_used f) (eof f) (fd_rest f) sc
          (diag f).

End FileStream.

(** ** The line reader: [istream_get_line] *)

Module GetLine.

(** Outcome of [istream_get_buffered_data]: a negative value, a positive
    value (end of input), or 0 with the window [ptr[0 .. avail)]. *)
Inductive buffered :=
| BufErr
| BufEof
| BufData (ptr : list byte).

(** The two operations of [istream_t] the line reader calls; they are
    declared in [internal.h] and are kept abstract here.
    [advance_buffer s n] returns [false] when the C function returns a
    non-zero value. *)
Class IStream (S : Type) := {
  istream_get_buffered_data : S -> buffered * S;
  istream_advance_buffer : S -> nat -> bool * S
}.

(** A stream makes progress when every window it hands out is non-empty
    and advancing by [n] bytes uses up [n] units of a finite supply. *)
Class IStreamProgress (S : Type) `{IStream S} := {
  remaining : S -> nat;
  get_data_nonempty : forall s ptr s',
      istream_get_buffered_data s = (BufData ptr, s') ->
      ptr <> [] /\ remaining s' <= remaining s;
  advance_uses : forall s n s',
      istream_advance_buffer s n = (true, s') ->
      remaining s' + n <= remaining s
}.
Arguments IStreamProgress S {_}.

(** [isspace] in the C locale. *)
Definition isspace (c : byte) : bool :=
  match c with
  | x20 | x09 | x0a | x0b | x0c | x0d => true
  | _ => false
  end.

Fixpoint strlen (b : list byte) : nat :=
  match b with
  | [] => 0
  | c :: r => if Byte.eqb c x00 then 0 else S (strlen r)
  end.

(** [b[i] = v]; the buffers of this file always hold index [i]. *)
Definition store (b : list byte) (i : nat) (v : byte) : list byte :=
  if i <? List.length b then firstn i b ++ v :: skipn (S i) b else b.

(** [memcpy(b + pos, src, length src)]. *)
Definition memcpy_at (b : list byte) (pos : nat) (src : list byte) : list byte :=
  firstn pos b ++ src ++ skipn (pos + List.length src) b.

(** [memmove(b, b + off, n)]. *)
Definition memmove_front (b : list byte) (off n : nat) : list byte :=
  firstn n (skipn off b) ++ skipn n b.

(** [while (isspace(buffer[i])) ++i;] *)
Fixpoint skip_space (b : list byte) : nat :=
  match b with
  | [] => 0
  | c :: r => if isspace c then S (skip_space r) else 0
  end.

Definition ltrim (b : list byte) : list byte :=
  let i := skip_space b in
  if 0 <? i then memmove_front b i (strlen (skipn i b) + 1) else b.

(** [while (i > 0 && isspace(buffer[i - 1])) --i;] *)
Fixpoint rtrim_index (b : list byte) (i : nat) : nat :=
  match i with
  | O => O
  | S j => if isspace (nth j b x00) then rtrim_index b j else i
  end.

Definition rtrim (b : list byte) : list byte :=
  store b (rtrim_index b (strlen b)) x00.

(** The first [i] with [ptr[i] == '\n'], or [avail]. *)
Fixpoint find_newline (ptr : list byte) : nat :=
  match ptr with
  | [] => 0
  | c :: r => if Byte.eqb c x0a then 0 else S (find_newline r)
  end.

(** The text of a C string: the bytes before its first NUL. *)
Fixpoint c_str (b : list byte) : list byte :=
  match b with
  | [] => []
  | c :: r => if Byte.eqb c x00 then [] else c :: c_str r
  end.

(** The process state [istream_get_line] runs in: the stream, the number
    of stream operations that failed, the allocator (the outcome of the coming [realloc] calls, then the
    outcomes it has given so far), the number of live line buffers and
    the text written to [stderr]. *)
Record env (S : Type) := mk_env {
  strm      : S;
  io_errors : nat;
  allocs    : list bool;
  alloc_log : list bool;
  live      : nat;
  diag      : list string
}.

Section WithStream.

Context {S : Type} `{IStream S}.

(** The flag bits of [istream.h]. *)
Variables ISTREAM_LINE_LTRIM ISTREAM_LINE_RTRIM ISTREAM_LINE_SKIP_EMPTY : Z.

Definition has_flag (flags mask : Z) : bool := negb (Z.land flags mask =? 0)%Z.

Definition trim (b : list byte) (flags : Z) : nat * list byte :=
  let b1 := if has_flag flags ISTREAM_LINE_LTRIM then ltrim b else b in
  let b2 := if has_flag flags ISTREAM_LINE_RTRIM then rtrim b1 else b1 in
  (strlen b2, b2).

Definition with_strm (e : env S) (s : S) : env S :=
  mk_env s (io_errors e) (allocs e) (alloc_log e) (live e) (diag e).

(** [realloc(line, size)], the empty list standing for [NULL].  Bytes
    beyond the old block are not initialised; [xff] stands for them. *)
Definition realloc (e : env S) (line : list byte) (size : nat)
  : option (list byte) * env S :=
  let ok := match allocs e with [] => true | o :: _ => o end in
  let e' := mk_env (strm e) (io_errors e) (tl (allocs e)) (alloc_log e ++ [ok])
              (if ok then match line with [] => Datatypes.S (live e) | _ => live e end
               else live e)
              (diag e) in
  if ok
  then (Some (firstn size line ++ repeat xff (size - List.length line)), e')
  else (None, e').

(** [free(line)]; [free(NULL)] does nothing. *)
Definition free (e : env S) (line : list byte) : env S :=
  match line with
  | [] => e
  | _ => mk_env (strm e) (io_errors e) (allocs e) (alloc_log e) (pred (live e)) (diag e)
  end.

(** A stream operation reported failure. *)
Definition io_failed (e : env S) (s : S) : env S :=
  mk_env s (Datatypes.S (io_errors e)) (allocs e) (alloc_log e) (live e) (diag e).

Definition fprintf (e : env S) (msg : string) : env S :=
  mk_env (strm e) (io_errors e) (allocs e) (alloc_log e) (live e) (diag e ++ [msg]).

(** Result of a call: the return value, [*out] and [*line_num]. *)
Definition outcome : Type := Z * option (list byte) * nat * env S.

Definition fail_free (e : env S) (line : list byte) (line_num : nat) : outcome :=
  ((-1)%Z, None, line_num, free e line).

Definition fail_errno (e : env S) (line : list byte) (line_num : nat) : outcome :=
  fail_free (fprintf e "filename: line_num: strerror(errno).") line line_num.

Definition out_eof (e : env S) (line : list byte) (line_num : nat) : outcome :=
  (1%Z, None, line_num, free e line).

(** The code after the loop: shrink the block to fit, keep the old block
    when that fails. *)
Definition finish (e : env S) (line : list byte) (line_len line_num : nat)
  : outcome :=
  let '(new, e1) := realloc e line (line_len + 1) in
  (0%Z, Some (match new with Some b => b | None => line end), line_num, e1).

(** [if (line_len > 0 && line[line_len - 1] == '\r') line[--line_len] = '\0';] *)
Definition strip_cr (line_len : nat) (line : list byte) : nat * list byte :=
  if (0 <? line_len) && Byte.eqb (nth (line_len - 1) line x00) x0d
  then (line_len - 1, store line (line_len - 1) x00)
  else (line_len, line).

(** [SIZE_MAX] of [stdint.h], the largest value of a [size_t]. *)
Variable SIZE_MAX : nat.

(** [*line_num += 1] on a [size_t]: after [SIZE_MAX] comes 0. *)
Definition next_line_num (line_num : nat) : nat :=
  if line_num =? SIZE_MAX then 0 else Datatypes.S line_num.

(** The [for (;;)] loop; [None] when the iteration budget runs out. *)
Fixpoint get_line_loop (fuel : nat) (flags : Z) (e : env S)
         (line : list byte) (line_len line_num : nat) : option outcome :=
  match fuel with
  | O => None
  | Datatypes.S fuel' =>
      let '(ret, s1) := istream_get_buffered_data (strm e) in
      match ret with
      | BufErr => Some (fail_free (io_failed e s1) line line_num)
      | BufEof =>
          let e := with_strm e s1 in
          if line_len =? 0 then Some (out_eof e line line_num)
          else
            let '(line_len, line) := trim line flags in
            if (0 <? line_len) || negb (has_flag flags ISTREAM_LINE_SKIP_EMPTY)
            then Some (finish e line line_len line_num)
            else Some (out_eof e line line_num)
      | BufData ptr =>
          let e := with_strm e s1 in
          let avail := List.length ptr in
          let i := find_newline ptr in
          let have_line := i <? avail in
          let count := i in
          let i := if have_line then Datatypes.S i else i in
          match realloc e line (line_len + count + 1) with
          | (None, e) => Some (fail_errno e line line_num)
          | (Some line, e) =>
              let line := memcpy_at line line_len (firstn count ptr) in
              let line_len := line_len + count in
              let line := store line line_len x00 in
              match istream_advance_buffer (strm e) i with
              | (false, s2) => Some (fail_free (io_failed e s2) line line_num)
              | (true, s2) =>
                  let e := with_strm e s2 in
                  if have_line then
                    let '(line_len, line) := strip_cr line_len line in
                    let '(line_len, line) := trim line flags in
                    if (0 <? line_len)
                       || negb (has_flag flags ISTREAM_LINE_SKIP_EMPTY)
                    then Some (finish e line line_len line_num)
                    else get_line_loop fuel' flags (free e line) []
                                       line_len (next_line_num line_num)
                  else get_line_loop fuel' flags e line line_len line_num
              end
          end
      end
  end.

Definition istream_get_line (fuel : nat) (e : env S) (line_num : nat)
           (flags : Z) : option outcome :=
  get_line_loop fuel flags e [] 0 line_num.

End WithStream.

(** The least [SIZE_MAX] the C standard allows, for the examples. *)
Definition SIZE_MAX_16 : nat := 2 ^ 16 - 1.

(** A line buffer is in order when it holds a terminator and no newline
    before it. *)
Definition line_ok (b : list byte) : Prop :=
  In x00 b /\ ~ In x0a (c_str b).

(** The line under construction: [NULL] with length 0, or a block that
    holds [line_len] bytes without a newline and then a terminator. *)
Definition line_inv (line : list byte) (line_len : nat) : Prop :=
  (line = [] /\ line_len = 0) \/
  (line_len < List.length line /\ nth line_len line x00 = x00 /\
   ~ In x0a (firstn line_len line)).

(** The line under construction holds the text [acc]: [NULL] with no
    text, or a block with the text and then a terminator. *)
Definition holds (buf : list byte) (len : nat) (acc : list byte) : Prop :=
  (buf = [] /\ len = 0 /\ acc = []) \/
  (len < List.length buf /\ firstn len buf = acc /\ nth len buf x00 = x00).

(** The same process with another allocator: [a] is the outcome of the
    coming [realloc] calls. *)
Definition with_allocs (S : Type) (e : env S) (a : list bool) : env S :=
  mk_env (strm e) (io_errors e) a (alloc_log e) (live e) (diag e).


(** A stream for examples: the current window and the windows still to
    come, [None] being a read error. *)
Record chunks := mk_chunks {
  win  : list byte;
  more : list (option (byte * list byte))
}.

Definition chunks_get (s : chunks) : buffered * chunks :=
  match win s with
  | [] => match more s with
          | [] => (BufEof, s)
          | None :: r => (BufErr, mk_chunks [] r)
          | Some (c, cs) :: r => (BufData (c :: cs), mk_chunks (c :: cs) r)
          end
  | w => (BufData w, s)
  end.

Definition chunks_advance (s : chunks) (n : nat) : bool * chunks :=
  if n <=? List.length (win s)
  then (true, mk_chunks (skipn n (win s)) (more s))
  else (false, s).

Definition chunks_size (s : chunks) : nat :=
  List.length (win s)
  + list_sum (map (fun c => match c with
                            | Some (_, cs) => Datatypes.S (List.length cs)
                            | None => 0
                            end) (more s)).

#[global] Instance chunks_stream : IStream chunks :=
  {| istream_get_buffered_data := chunks_get;
     istream_advance_buffer := chunks_advance |}.

(** A stream that behaves as a sequence of bytes, [content s] being what
    is still to be read: no operation fails, a window is a non-empty
    piece of the front of the content, and advancing within the window
    takes that many bytes off. *)
Class IStreamBytes (S : Type) `{IStream S} := {
  content : S -> list byte;
  get_data_content : forall s,
      match istream_get_buffered_data s with
      | (BufErr, _) => False
      | (BufEof, s') => content s = [] /\ content s' = []
      | (BufData ptr, s') =>
          ptr <> [] /\ content s' = content s /\
          (exists rest, content s = ptr ++ rest) /\
          forall n, n <= List.length ptr ->
                    exists s2, istream_advance_buffer s' n = (true, s2) /\
                               content s2 = skipn n (content s)
      end
}.
Arguments IStreamBytes S {_}.

(** A stream for examples that hands out a byte sequence in windows of at
    most [S width] bytes. *)
Record sliced := mk_sliced {
  data  : list byte;
  width : nat
}.

Definition sliced_get (s : sliced) : buffered * sliced :=
  match data s with
  | [] => (BufEof, s)
  | _ => (BufData (firstn (Datatypes.S (width s)) (data s)), s)
  end.

Definition sliced_advance (s : sliced) (n : nat) : bool * sliced :=
  if n <=? List.length (firstn (Datatypes.S (width s)) (data s))
  then (true, mk_sliced (skipn n (data s)) (width s))
  else (false, s).

#[global] Instance sliced_stream : IStream sliced :=
  {| istream_get_buffered_data := sliced_get;
     istream_advance_buffer := sliced_advance |}.

End GetLine.

(** ** The tree node model *)

Module Fstree.

Local Open Scope Z_scope.

(** File type bits of [st_mode] ([<sys/stat.h>]; octal 0170000, 0140000,
    0120000, 0100000, 0060000, 0040000, 0020000, 0010000). *)
Definition S_IFMT   : Z := 0xF000.
Definition S_IFSOCK : Z := 0xC000.
Definition S_IFLNK  : Z := 0xA000.
Definition S_IFREG  : Z := 0x8000.
Definition S_IFBLK  : Z := 0x6000.
Definition S_IFDIR  : Z := 0x4000.
Definition S_IFCHR  : Z := 0x2000.
Definition S_IFIFO  : Z := 0x1000.

Definition file_type (mode : Z) : Z := Z.land mode S_IFMT.
Definition S_ISDIR (mode : Z) : bool := file_type mode =? S_IFDIR.
Definition S_ISLNK (mode : Z) : bool := file_type mode =? S_IFLNK.
Definition S_ISREG (mode : Z) : bool := file_type mode =? S_IFREG.

(** The [DIR_SCAN_*] bits.  Their values are set in [fstree.h]; the
    walkers only ever test a flag word against one of them. *)
Record dir_scan_masks := mk_masks {
  DIR_SCAN_KEEP_TIME      : Z;
  DIR_SCAN_ONE_FILESYSTEM : Z;
  DIR_SCAN_NO_SOCK        : Z;
  DIR_SCAN_NO_SLINK       : Z;
  DIR_SCAN_NO_FILE        : Z;
  DIR_SCAN_NO_BLK         : Z;
  DIR_SCAN_NO_DIR         : Z;
  DIR_SCAN_NO_CHR         : Z;
  DIR_SCAN_NO_FIFO        : Z;
  DIR_SCAN_NO_RECURSION   : Z
}.

(** An assignment of distinct bits, for the examples. *)
Definition example_masks : dir_scan_masks :=
  mk_masks 0x1 0x2 0x4 0x8 0x10 0x20 0x40 0x80 0x100 0x200.

(** [flags & mask] as a condition. *)
Definition has_flag (flags mask : Z) : bool := negb (Z.land flags mask =? 0).

(** [tree_node_t].  [addr] is the address of the allocation, which is
    what the C code compares when it compares node pointers; the sibling
    list hanging off [data.dir.children] through [next] is [children]. *)
#[warnings="-register-all"]
Inductive tree_node := Node {
  addr     : nat;
  name     : string;
  mode     : Z;
  uid      : Z;
  gid      : Z;
  mod_time : Z;
  target   : option (list byte);
  children : list tree_node
}.

Definition set_children (n : tree_node) (l : list tree_node) : tree_node :=
  Node (addr n) (name n) (mode n) (uid n) (gid n) (mod_time n) (target n) l.

Definition set_mod_time (n : tree_node) (t : Z) : tree_node :=
  Node (addr n) (name n) (mode n) (uid n) (gid n) t (target n) (children n).

(** [fstree_t]: the walkers read [defaults.mtime] only. *)
Record fstree := mk_fstree { defaults_mtime : Z }.

(** [struct stat], the fields the walker reads. *)
Record stat := mk_stat {
  st_mode  : Z;
  st_dev   : Z;
  st_uid   : Z;
  st_gid   : Z;
  st_size  : Z;
  st_mtime : Z
}.

Definition set_st_mtime (sb : stat) (t : Z) : stat :=
  mk_stat (st_mode sb) (st_dev sb) (st_uid sb) (st_gid sb) (st_size sb) t.

(** The clamp of a time stamp to the 32 bit field [mod_time]. *)
Definition clamp_mtime (t : Z) : Z :=
  if t <? 0 then 0
  else if 0x0FFFFFFFF <? t then 0xFFFFFFFF
  else t.

(** Modelled from the spec: [fstree_insert_sorted] is not part of the
    shown sources.  "insert a node into a parent's child list preserving
    sort order": the node goes in front of the first sibling whose name is
    not smaller than its own. *)
Fixpoint insert_sorted (l : list tree_node) (n : tree_node) : list tree_node :=
  match l with
  | [] => [n]
  | it :: rest =>
      if String.ltb (name it) (name n) then it :: insert_sorted rest n
      else n :: l
  end.

Definition fstree_insert_sorted (root n : tree_node) : tree_node :=
  set_children root (insert_sorted (children root) n).

(** Modelled from the spec: [fstree_mknode] is not part of the shown
    sources.  "allocate a node from a name and metadata descriptor": the
    node carries "name, type+permission bits, owner/group ids, timestamp,
    and (for symlinks) the captured target text", the time stamp clamped as
    section 4.4 says for both backends; with a parent it is linked into the
    parent's sorted child list at once ("for the POSIX walker the node is
    already linked when the callback runs").  [a] is the address the
    allocator returned. *)
Definition mknode_at (a : nat) (nm : string) (extra : option (list byte))
           (sb : stat) : tree_node :=
  Node a nm (st_mode sb) (st_uid sb) (st_gid sb) (clamp_mtime (st_mtime sb))
       (if S_ISLNK (st_mode sb) then extra else None) [].

(** Modelled from the spec: [fstree_get_node_by_path] is not part of the
    shown sources.  "find child of this directory node by exact name". *)
Definition get_node_by_name (root : tree_node) (nm : string)
  : option tree_node :=
  find (fun c => String.eqb (name c) nm) (children root).

(** Writing through a node pointer: the sibling at address [a] becomes
    [n']. *)
Fixpoint update_child (l : list tree_node) (a : nat) (n' : tree_node)
  : list tree_node :=
  match l with
  | [] => []
  | c :: rest => if (addr c =? a)%nat then n' :: rest
                 else c :: update_child rest a n'
  end.

End Fstree.

(** ** What both walkers share: the process state and the callback *)

Module Scan.
Import Fstree.

Inductive errno_t := EOVERFLOW | ENOMEM | E_os.

(** A line on [stderr]: [perror(what)] with the value of [errno] at the
    time, or a [fprintf]. *)
Inductive diag :=
| Perror (what : string) (e : errno_t)
| Fprintf (what : string).

(** The process state a scan runs in.  [user] is the context handed to
    the callback, [next_addr] the allocator's next address, [allocs] the
    outcome of the coming allocations ([calloc], and the one inside
    [fstree_mknode]), [open_fds] the number of descriptors and directory
    handles that are open, [bufs] the number of symlink target buffers
    that are allocated, [freed] the nodes given to [free]. *)
Record world (U : Type) := mk_world {
  user      : U;
  next_addr : nat;
  allocs    : list bool;
  open_fds  : nat;
  bufs      : nat;
  freed     : list nat;
  errno     : errno_t;
  stderr    : list diag
}.

(** [scan_node_callback]: called with the user context, the tree and the
    node; its result is the tri-state return value. *)
Definition scan_node_callback (U : Type) : Type :=
  U -> fstree -> tree_node -> Z * U.

Section World.
Context {U : Type}.
Implicit Type w : world U.

Definition set_user w (u : U) : world U :=
  mk_world u (next_addr w) (allocs w) (open_fds w) (bufs w) (freed w)
           (errno w) (stderr w).

Definition set_errno w (e : errno_t) : world U :=
  mk_world (user w) (next_addr w) (allocs w) (open_fds w) (bufs w) (freed w)
           e (stderr w).

Definition perror w (what : string) : world U :=
  mk_world (user w) (next_addr w) (allocs w) (open_fds w) (bufs w) (freed w)
           (errno w) (stderr w ++ [Perror what (errno w)]).

Definition fprintf w (what : string) : world U :=
  mk_world (user w) (next_addr w) (allocs w) (open_fds w) (bufs w) (freed w)
           (errno w) (stderr w ++ [Fprintf what]).

(** One descriptor or directory handle more, or less. *)
Definition fd_opened w : world U :=
  mk_world (user w) (next_addr w) (allocs w) (S (open_fds w)) (bufs w)
           (freed w) (errno w) (stderr w).

Definition fd_closed w : world U :=
  mk_world (user w) (next_addr w) (allocs w) (pred (open_fds w)) (bufs w)
           (freed w) (errno w) (stderr w).

(** An allocation: [Some a] with a fresh address, or [None] with
    [errno = ENOMEM]. *)
Definition alloc w : option nat * world U :=
  match allocs w with
  | false :: rest =>
      (None, mk_world (user w) (next_addr w) rest (open_fds w) (bufs w)
                      (freed w) ENOMEM (stderr w))
  | _ =>
      (Some (next_addr w),
       mk_world (user w) (S (next_addr w)) (tl (allocs w)) (open_fds w)
                (bufs w) (freed w) (errno w) (stderr w))
  end.

(** [free(n)] of a tree node. *)
Definition free_node w (n : tree_node) : world U :=
  mk_world (user w) (next_addr w) (allocs w) (open_fds w) (bufs w)
           (addr n :: freed w) (errno w) (stderr w).

Definition buf_allocated w : world U :=
  mk_world (user w) (next_addr w) (allocs w) (open_fds w) (S (bufs w))
           (freed w) (errno w) (stderr w).

Definition buf_freed w : world U :=
  mk_world (user w) (next_addr w) (allocs w) (open_fds w) (pred (bufs w))
           (freed w) (errno w) (stderr w).

(** [free(extra)]; [free(NULL)] does nothing. *)
Definition free_extra w (extra : option (list byte)) : world U :=
  match extra with
  | None => w
  | Some _ => buf_freed w
  end.

(** [cb == NULL ? 0 : cb(user, fs, n)] *)
Definition call_cb (cb : option (scan_node_callback U)) (fs : fstree)
           (n : tree_node) w : Z * world U :=
  match cb with
  | None => (0%Z, w)
  | Some f => let '(ret, u) := f (user w) fs n in (ret, set_user w u)
  end.

End World.

End Scan.

(** ** The POSIX walker *)

Module Posix.
Import Fstree Scan.

(** The directory hierarchy as the system calls of the walker show it.
    An entry of a directory has the name [readdir] returns, what
    [fstatat(AT_SYMLINK_NOFOLLOW)] reports ([None]: the call fails), what
    [readlinkat] finds ([None]: the call fails) and the directory that
    [openat(O_DIRECTORY)] opens ([None]: the call fails).  A directory has
    the outcome of [fdopendir], what [fstat] on its descriptor reports,
    the entries [readdir] enumerates, and whether [readdir] ends with an
    error instead of the end of the directory. *)
Inductive fsent :=
| FsEnt (d_name : string) (lstat : option stat)
        (readlink : option (list byte)) (sub : option fsdir)
with fsdir :=
| FsDir (fdopendir_fails : bool) (dir_stat : option stat)
        (entries : list fsent) (readdir_fails : bool).

Definition d_name (e : fsent) : string := let 'FsEnt n _ _ _ := e in n.
Definition lstat (e : fsent) : option stat := let 'FsEnt _ s _ _ := e in s.
Definition readlink (e : fsent) : option (list byte) :=
  let 'FsEnt _ _ l _ := e in l.
Definition sub (e : fsent) : option fsdir := let 'FsEnt _ _ _ d := e in d.
Definition dir_stat (d : fsdir) : option stat := let 'FsDir _ s _ _ := d in s.
Definition entries (d : fsdir) : list fsent := let 'FsDir _ _ l _ := d in l.

(** [openat(fd, name, O_DIRECTORY | ...)] for the name of an entry; an
    empty path name is [ENOENT]. *)
Definition openat (d : fsdir) (nm : string) : option fsdir :=
  if String.eqb nm "" then None
  else match find (fun e => String.eqb (d_name e) nm) (entries d) with
       | Some e => sub e
       | None => None
       end.

(** [it = root->data.dir.children; while (it != NULL && it->next != n)
    it = it->next; if (it != NULL) it->next = n->next;] *)
Fixpoint unlink_after (l : list tree_node) (a : nat) : list tree_node :=
  match l with
  | it :: tl =>
      match tl with
      | nx :: rest => if addr nx =? a then it :: rest
                      else it :: unlink_after tl a
      | [] => l
      end
  | [] => l
  end.

Section Walker.
Context {U : Type}.

(** The scan bits, and the sizes of [off_t] and [size_t] in bytes. *)
Variable M : dir_scan_masks.
Variables sizeof_off_t sizeof_size_t : Z.

Definition SIZE_MAX : Z := 2 ^ (8 * sizeof_size_t) - 1.

(** The conversion [(size_t)x]. *)
Definition to_size_t (x : Z) : Z := x mod 2 ^ (8 * sizeof_size_t).

(** Modelled from the spec: the macro [SZ_ADD_OV] is not part of the shown
    sources.  "a checked-arithmetic primitive": it tells whether the sum
    overflows [size_t] and stores the sum reduced to [size_t]. *)
Definition SZ_ADD_OV (a b : Z) : bool * Z := (SIZE_MAX <? a + b, to_size_t (a + b))%Z.

Definition discard_node (root n : tree_node) (w : world U)
  : tree_node * world U :=
  let l := children root in
  let l' := match l with
            | c :: rest => if addr c =? addr n then rest
                           else unlink_after l (addr n)
            | [] => l
            end in
  (set_children root l', free_node w n).

(** The [switch (sb.st_mode & S_IFMT)]: is the entry left out for its
    type? *)
Definition skip_by_type (flags : Z) (md : Z) : bool :=
  let t := file_type md in
  if (t =? S_IFSOCK)%Z then has_flag flags (DIR_SCAN_NO_SOCK M)
  else if (t =? S_IFLNK)%Z then has_flag flags (DIR_SCAN_NO_SLINK M)
  else if (t =? S_IFREG)%Z then has_flag flags (DIR_SCAN_NO_FILE M)
  else if (t =? S_IFBLK)%Z then has_flag flags (DIR_SCAN_NO_BLK M)
  else if (t =? S_IFCHR)%Z then has_flag flags (DIR_SCAN_NO_CHR M)
  else if (t =? S_IFIFO)%Z then has_flag flags (DIR_SCAN_NO_FIFO M)
  else false.

(** [readlinkat(dir_fd, name, buf, bufsiz)] into the zeroed block [buf],
    then [buf[idx] = 0]. *)
Definition fill_link (size bufsiz idx : Z) (tgt : list byte) : list byte :=
  let got := firstn (Z.to_nat bufsiz) tgt in
  let buf := got ++ repeat x00 (Z.to_nat size - List.length got) in
  GetLine.store buf (Z.to_nat idx) x00.

(** The [if (S_ISLNK(sb.st_mode))] block: the buffer [extra], or the state
    at the label [fail_rdlink] with the buffer that is still to be
    freed. *)
Definition read_link (sb : stat) (lnk : option (list byte)) (w : world U)
  : (option (list byte) * world U) + (option (list byte) * world U) :=
  if S_ISLNK (st_mode sb) then
    if (sizeof_size_t <? sizeof_off_t)%Z && (SIZE_MAX <? st_size sb)%Z
    then inr (None, set_errno w EOVERFLOW)
    else
      let '(ov, size) := SZ_ADD_OV (to_size_t (st_size sb)) 1 in
      if ov then inr (None, set_errno w EOVERFLOW)
      else
        match alloc w with
        | (None, w) => inr (None, w)
        | (Some _, w) =>
            let w := buf_allocated w in
            match lnk with
            | None => inr (Some (repeat x00 (Z.to_nat size)), set_errno w E_os)
            | Some tgt =>
                inl (Some (fill_link size (to_size_t (st_size sb))
                                     (st_size sb) tgt), w)
            end
        end
  else inl (None, w).

Variable fs : fstree.
Variable cb : option (scan_node_callback U).
Variable flags : Z.

(** The labels [fail_rdlink] and [fail]. *)
Definition fail (root : tree_node) (w : world U) (extra : option (list byte))
  : Z * tree_node * world U :=
  ((-1)%Z, root, free_extra (fd_closed w) extra).

Definition fail_rdlink (root : tree_node) (w : world U)
           (extra : option (list byte)) : Z * tree_node * world U :=
  fail root (perror w "readlink") extra.

(** [if (!(flags & DIR_SCAN_KEEP_TIME)) sb.st_mtime = fs->defaults.mtime;] *)
Definition default_time (sb : stat) : stat :=
  if negb (has_flag flags (DIR_SCAN_KEEP_TIME M))
  then set_st_mtime sb (defaults_mtime fs)
  else sb.

(** The node of an entry: none and the entry is passed over, the
    allocation fails, or the node with the tree it is linked into and the
    value [ret]. *)
Inductive node_result :=
| NodeSkip
| NodeFail (w : world U)
| NodeOk (n : tree_node) (root : tree_node) (ret : Z) (w : world U).

Definition node_for (nm : string) (sb : stat) (extra : option (list byte))
           (root : tree_node) (w : world U) : node_result :=
  if S_ISDIR (st_mode sb) && has_flag flags (DIR_SCAN_NO_DIR M) then
    match get_node_by_name root nm with
    | None => NodeSkip
    | Some n => NodeOk n root 0%Z w
    end
  else
    match alloc w with
    | (None, w) => NodeFail w
    | (Some a, w) =>
        let n := mknode_at a nm (option_map GetLine.c_str extra) sb in
        let root := fstree_insert_sorted root n in
        let '(ret, w) := call_cb cb fs n w in
        NodeOk n root ret w
    end.

(** The outcome of a walker: the return value, the destination node as
    the call leaves it, and the process state. *)
Definition result : Type := Z * tree_node * world U.

(** One turn of the [for (;;)] loop for the entry [readdir] returned.
    [recurse] stands for the recursive call of [populate_dir] and
    [continue] for the remaining turns of the loop. *)
Definition scan_entry (devstart : Z)
           (recurse : fsdir -> tree_node -> world U -> result)
           (continue : tree_node -> world U -> result)
           (e : fsent) (root : tree_node) (w : world U) : result :=
  let 'FsEnt nm st lnk subdir := e in
  if String.eqb nm ".." || String.eqb nm "." then continue root w
  else
    match st with
    | None => fail root (perror (set_errno w E_os) nm) None
    | Some sb =>
        if skip_by_type flags (st_mode sb) then continue root w
        else if has_flag flags (DIR_SCAN_ONE_FILESYSTEM M)
                && negb (st_dev sb =? devstart)%Z
        then continue root w
        else
          match read_link sb lnk w with
          | inr (extra, w) => fail_rdlink root w extra
          | inl (extra, w) =>
              let sb := default_time sb in
              match node_for nm sb extra root w with
              | NodeSkip => continue root w
              | NodeFail w => fail root (perror w "creating tree node") extra
              | NodeOk n root ret w =>
                  let w := free_extra w extra in
                  if (ret <? 0)%Z then fail root w None
                  else if (0 <? ret)%Z then
                    let '(root, w) := discard_node root n w in
                    continue root w
                  else if S_ISDIR (mode n)
                          && negb (has_flag flags (DIR_SCAN_NO_RECURSION M))
                  then
                    match subdir with
                    | None =>
                        fail root (perror (set_errno w E_os) (name n)) None
                    | Some d' =>
                        let '(r, n', w) := recurse d' n (fd_opened w) in
                        let root :=
                          set_children root
                            (update_child (children root) (addr n) n') in
                        if (r =? 0)%Z then continue root w
                        else fail root w None
                    end
                  else continue root w
              end
          end
    end.

(** The [for (;;)] loop over what [readdir] returns, up to [closedir]. *)
Fixpoint scan_entries (devstart : Z)
         (recurse : fsdir -> tree_node -> world U -> result)
         (readdir_fails : bool) (ents : list fsent)
         (root : tree_node) (w : world U) {struct ents} : result :=
  match ents with
  | [] =>
      if readdir_fails
      then fail root (perror (set_errno w E_os) "readdir") None
      else (0%Z, root, fd_closed w)
  | e :: rest =>
      scan_entry devstart recurse
                 (scan_entries devstart recurse readdir_fails rest) e root w
  end.

Fixpoint populate_dir (d : fsdir) (root : tree_node) (devstart : Z)
         (w : world U) {struct d} : result :=
  match d with
  | FsDir fdopendir_fails _ ents readdir_fails =>
      if fdopendir_fails
      then ((-1)%Z, root, fd_closed (perror (set_errno w E_os) "fdopendir"))
      else scan_entries devstart
                        (fun d' n w => populate_dir d' n devstart w)
                        readdir_fails ents root w
  end.

(** [open(path, O_DIRECTORY | O_RDONLY | O_CLOEXEC)]: the directory a path
    names, if the call succeeds. *)
Variable os_open : string -> option fsdir.

Definition fstree_from_subdir (root : tree_node) (path : string)
           (subdir : option string) (w : world U)
  : result :=
  if negb (S_ISDIR (mode root)) then
    ((-1)%Z, root,
     fprintf w "scanning path/subdir into root: target is not a directory")
  else
    match os_open path with
    | None => ((-1)%Z, root, perror (set_errno w E_os) path)
    | Some d =>
        let w := fd_opened w in
        let opened :=
          match subdir with
          | None => inl (d, w)
          | Some sd =>
              match openat d sd with
              | None => inr (fd_closed (fprintf (set_errno w E_os)
                                                "path/subdir: strerror(errno)"))
              | Some d' => inl (d', fd_closed (fd_opened w))
              end
          end in
        match opened with
        | inr w => ((-1)%Z, root, w)
        | inl (d, w) =>
            match dir_stat d with
            | None =>
                ((-1)%Z, root,
                 fd_closed (fprintf (set_errno w E_os)
                                    "path/subdir: strerror(errno)"))
            | Some sb => populate_dir d root (st_dev sb) w
            end
        end
    end.

Definition fstree_from_dir (root : tree_node) (path : string) (w : world U)
  : result :=
  fstree_from_subdir root path None w.

End Walker.

End Posix.

(** ** The portable walker *)

Module Portable.
Import Fstree Scan.

(** [dir_entry_t]: the fields the walker reads. *)
Record dir_entry := mk_entry {
  ent_name  : string;
  ent_mode  : Z;
  ent_mtime : Z
}.

(** What [dir_iterator_create] and the iterator's [next] show of a
    directory: its entries, and whether the iteration ends with an error
    instead of the end of the directory. *)
Definition listing : Type := list dir_entry * bool.

Section Walker.
Context {U : Type}.
Variable M : dir_scan_masks.
Variable fs : fstree.
Variable cb : option (scan_node_callback U).
Variable flags : Z.

(** [dir_iterator_create(path)]; [None] is [NULL]. *)
Variable dir_iterator_create : string -> option listing.

Definition result : Type := Z * tree_node * world U.

(** The node after [calloc] and the two assignments that precede the
    callback. *)
Definition fresh_node (a : nat) (entry : dir_entry) : tree_node :=
  Node a (ent_name entry) (ent_mode entry) 0 0 0 None [].

Definition add_node (root : tree_node) (entry : dir_entry) (w : world U)
  : result :=
  if String.eqb (ent_name entry) "." || String.eqb (ent_name entry) ".."
  then (0%Z, root, w)
  else if (if S_ISDIR (ent_mode entry)
           then has_flag flags (DIR_SCAN_NO_DIR M)
           else has_flag flags (DIR_SCAN_NO_FILE M))
  then (0%Z, root, w)
  else
    match alloc w with
    | (None, w) =>
        ((-1)%Z, root, fprintf w "creating tree node: out-of-memory")
    | (Some a, w) =>
        let n := fresh_node a entry in
        let '(ret, w) := call_cb cb fs n w in
        if negb (ret =? 0)%Z
        then ((if ret <? 0 then ret else 0)%Z, root, free_node w n)
        else
          let n :=
            set_mod_time n
              (if has_flag flags (DIR_SCAN_KEEP_TIME M)
               then (if ent_mtime entry <? 0 then 0
                     else if 0x0FFFFFFFF <? ent_mtime entry then 0xFFFFFFFF
                     else ent_mtime entry)%Z
               else defaults_mtime fs) in
          (0%Z, fstree_insert_sorted root n, w)
    end.

(** The loop of [scan_dir] over the entries the iterator yields. *)
Fixpoint scan_loop (path : string) (ents : list dir_entry) (it_fails : bool)
         (root : tree_node) (w : world U) : result :=
  match ents with
  | [] =>
      if it_fails
      then ((-1)%Z, root,
            fd_closed (perror (set_errno w E_os) path))
      else (0%Z, root, fd_closed w)
  | ent :: rest =>
      let '(ret, root, w) := add_node root ent w in
      if negb (ret =? 0)%Z then ((-1)%Z, root, fd_closed w)
      else scan_loop path rest it_fails root w
  end.

Definition scan_dir (root : tree_node) (path : string) (w : world U)
  : result :=
  match dir_iterator_create path with
  | None => ((-1)%Z, root, w)
  | Some (ents, it_fails) => scan_loop path ents it_fails root (fd_opened w)
  end.

(** [for (n = root->data.dir.children; n != NULL; n = n->next)]: the
    directories among the children are scanned in turn; [rec] stands for
    the call of [fstree_from_subdir] on a child, [None] for a call that
    runs out of budget. *)
Fixpoint scan_children (rec : tree_node -> world U -> option result)
         (l : list tree_node) (w : world U)
  : option (Z * list tree_node * world U) :=
  match l with
  | [] => Some (0%Z, [], w)
  | n :: rest =>
      if negb (S_ISDIR (mode n)) then
        match scan_children rec rest w with
        | Some (r, rest', w) => Some (r, n :: rest', w)
        | None => None
        end
      else
        match rec n w with
        | None => None
        | Some (r, n', w) =>
            if negb (r =? 0)%Z then Some ((-1)%Z, n' :: rest, w)
            else
              match scan_children rec rest w with
              | Some (r, rest', w) => Some (r, n' :: rest', w)
              | None => None
              end
        end
  end.

(** The body of [fstree_from_dir], and of [fstree_from_subdir] once the
    path is known. *)
Definition scan_tree (rec : tree_node -> string -> option string -> world U
                            -> option result)
           (root : tree_node) (path : string) (w : world U)
  : option result :=
  let '(r, root, w) := scan_dir root path w in
  if negb (r =? 0)%Z then Some ((-1)%Z, root, w)
  else if has_flag flags (DIR_SCAN_NO_RECURSION M) then Some (0%Z, root, w)
  else
    match scan_children (fun n w => rec n path (Some (name n)) w)
                        (children root) w with
    | None => None
    | Some (r, l, w) => Some (r, set_children root l, w)
    end.

(** [fstree_from_subdir]; the two functions call each other, [fuel]
    bounds the depth of the calls. *)
Fixpoint fstree_from_subdir (fuel : nat) (root : tree_node) (path : string)
         (subdir : option string) (w : world U) : option result :=
  match fuel with
  | O => None
  | S fuel' =>
      let slen := match subdir with
                  | None => 0
                  | Some sd => String.length sd
                  end in
      if slen =? 0 then scan_tree (fstree_from_subdir fuel') root path w
      else
        match alloc w with
        | (None, w) =>
            Some ((-1)%Z, root, fprintf w "path/subdir: allocation failure.")
        | (Some _, w) =>
            let w := buf_allocated w in
            let temp := (path ++ "/" ++ match subdir with
                                        | Some sd => sd
                                        | None => ""
                                        end)%string in
            match scan_tree (fstree_from_subdir fuel') root temp w with
            | None => None
            | Some (r, root, w) =>
                Some (r, root, buf_freed w)
            end
        end
  end.

Definition fstree_from_dir (fuel : nat) (root : tree_node) (path : string)
           (w : world U) : option result :=
  scan_tree (fstree_from_subdir fuel) root path w.

End Walker.

End Portable.

(** ** Relations between the states of a scan *)

Module PosixSpec.
Import Fstree Scan Posix.

Section Relations.
Context {U : Type}.

(** [trace u]: the values the callback has returned so far, the latest
    first, as far as the user context [u] keeps them: a callback either
    records each value it returns or records nothing at all. *)
Variable trace : U -> list Z.

Definition traced (cb : option (scan_node_callback U)) : Prop :=
  forall f, cb = Some f ->
            (forall u fs n, trace (snd (f u fs n)) = fst (f u fs n) :: trace u)
            \/ (forall u fs n, trace (snd (f u fs n)) = trace u).

(** The state moves on while a directory is being read: the same handles
    and buffers, nothing on [stderr], the callback never said "abort". *)
Definition advances (w w' : world U) : Prop :=
  open_fds w' = open_fds w /\ bufs w' = bufs w /\ stderr w' = stderr w /\
  next_addr w <= next_addr w' /\
  exists l, trace (user w') = l ++ trace (user w) /\ Forall (fun v => 0 <= v)%Z l.

(** [populate_dir] returns: 0 or -1, its directory handle closed, every
    symlink buffer released; after 0 nothing was written to [stderr] and
    the callback never returned a negative value. *)
Definition returned (w : world U) (r : Z * tree_node * world U) : Prop :=
  let '(ret, _, w') := r in
  (ret = 0 \/ ret = -1)%Z /\
  S (open_fds w') = open_fds w /\ bufs w' = bufs w /\
  next_addr w <= next_addr w' /\
  (exists m, stderr w' = stderr w ++ m) /\
  exists l, trace (user w') = l ++ trace (user w) /\
            (ret = 0%Z -> stderr w' = stderr w /\ Forall (fun v => 0 <= v)%Z l).

(** The weaker relation that also holds on the way to a failure, [k]
    symlink buffers more being allocated. *)
Definition moved (k : nat) (w w' : world U) : Prop :=
  open_fds w' = open_fds w /\ bufs w' = bufs w + k /\
  next_addr w <= next_addr w' /\
  (exists m, stderr w' = stderr w ++ m) /\
  exists l, trace (user w') = l ++ trace (user w).

End Relations.

(** The sibling list without its first node at address [a]. *)
Fixpoint remove_addr (l : list tree_node) (a : nat) : list tree_node :=
  match l with
  | [] => []
  | c :: rest => if addr c =? a then rest else c :: remove_addr rest a
  end.

(** Every sibling was allocated before the address [k]. *)
Definition below (k : nat) (l : list tree_node) : Prop :=
  Forall (fun c => addr c < k) l.

(** [lstat] shows the entry on a device other than [dev]. *)
Definition foreign (dev : Z) (e : fsent) : bool :=
  match lstat e with
  | Some sb => negb (st_dev sb =? dev)%Z
  | None => false
  end.

(** The entries of a directory without those on another device, [rec]
    applied to the directories below. *)
Fixpoint prune_entries (rec : fsdir -> fsdir) (dev : Z) (ents : list fsent)
  : list fsent :=
  match ents with
  | [] => []
  | e :: rest =>
      if foreign dev e then prune_entries rec dev rest
      else (let 'FsEnt nm st lnk subdir := e in
            FsEnt nm st lnk (option_map rec subdir))
           :: prune_entries rec dev rest
  end.

(** The hierarchy without what is on another device than [dev], at every
    depth. *)
Fixpoint prune (dev : Z) (d : fsdir) {struct d} : fsdir :=
  match d with
  | FsDir ff st ents rf =>
      FsDir ff st (prune_entries (fun d' => prune dev d') dev ents) rf
  end.

(** Every entry of the hierarchy, at every depth. *)
Fixpoint all_entries_of (rec : fsdir -> list fsent) (ents : list fsent)
  : list fsent :=
  match ents with
  | [] => []
  | e :: rest =>
      e :: match sub e with Some d' => rec d' | None => [] end
        ++ all_entries_of rec rest
  end.

Fixpoint all_entries (d : fsdir) {struct d} : list fsent :=
  match d with
  | FsDir _ _ ents _ => all_entries_of (fun d' => all_entries d') ents
  end.

(** The entries that pass [keep], [rec] applied to the directories
    below. *)
Fixpoint filter_entries (keep : fsent -> bool) (rec : fsdir -> fsdir)
         (ents : list fsent) : list fsent :=
  match ents with
  | [] => []
  | e :: rest =>
      if keep e
      then (let 'FsEnt nm st lnk subdir := e in
            FsEnt nm st lnk (option_map rec subdir))
           :: filter_entries keep rec rest
      else filter_entries keep rec rest
  end.

(** The hierarchy with the entries that pass [keep] only, at every
    depth. *)
Fixpoint filter_tree (keep : fsent -> bool) (d : fsdir) {struct d} : fsdir :=
  match d with
  | FsDir ff st ents rf =>
      FsDir ff st (filter_entries keep (fun d' => filter_tree keep d') ents) rf
  end.

(** An entry the loop passes over before it looks at anything else: one
    of the two pseudo entries, or an entry of a type that the flags leave
    out. *)
Definition passed_over (M : dir_scan_masks) (flags : Z) (e : fsent) : bool :=
  (String.eqb (d_name e) ".." || String.eqb (d_name e) ".")
  || match lstat e with
     | Some sb => skip_by_type M flags (st_mode sb)
     | None => false
     end.

(** The directory without what is below its entries. *)
Definition shallow (d : fsdir) : fsdir :=
  match d with
  | FsDir ff st ents rf =>
      FsDir ff st
            (map (fun e => let 'FsEnt nm st lnk _ := e in FsEnt nm st lnk None)
                 ents) rf
  end.

(** A callback that keeps what it returned next to its own context. *)
Definition logging (U : Type) (f : scan_node_callback U)
  : scan_node_callback (U * list Z) :=
  fun u fs n => let '(r, u') := f (fst u) fs n in (r, (u', r :: snd u)).

(** The allocator moved on, and what was freed since was allocated
    since. *)
Definition grows (U : Type) (w w' : world U) : Prop :=
  next_addr w <= next_addr w' /\
  exists l, freed w' = l ++ freed w /\ Forall (fun a => next_addr w <= a) l.

(** The destination node is the same node, only nodes of the scan were
    freed, and the children that were linked before are linked still. *)
Definition safe (U : Type) (root : tree_node) (w : world U)
           (res : Z * tree_node * world U) : Prop :=
  let '(_, root', w') := res in
  addr root' = addr root /\ grows w w' /\
  (below (next_addr w) (children root) ->
   incl (map addr (children root)) (map addr (children root')) /\
   below (next_addr w') (children root')).

End PosixSpec.

(** ** What the portable walker keeps *)

Module PortableSpec.
Import Fstree Scan.


(** An entry [add_node] returns for at once: one of the two pseudo
    entries, a directory under [DIR_SCAN_NO_DIR], or anything else under
    [DIR_SCAN_NO_FILE]. *)
Definition left_out (M : dir_scan_masks) (flags : Z)
           (entry : Portable.dir_entry) : bool :=
  (String.eqb (Portable.ent_name entry) "."
   || String.eqb (Portable.ent_name entry) "..")
  || (if S_ISDIR (Portable.ent_mode entry)
      then has_flag flags (DIR_SCAN_NO_DIR M)
      else has_flag flags (DIR_SCAN_NO_FILE M)).

(** The directories as the iterator shows them, without the entries that
    are left out. *)
Definition without_left_out (M : dir_scan_masks) (flags : Z)
           (os : string -> option Portable.listing)
  : string -> option Portable.listing :=
  fun p =>
    match os p with
    | Some (ents, it_fails) =>
        Some (filter (fun e => negb (left_out M flags e)) ents, it_fails)
    | None => None
    end.

End PortableSpec.

(** ** Sample inputs for the examples *)

Module Sample.
Import Fstree Scan Posix.

(** A callback that answers [r] for the node called [nm] and accepts
    every other node. *)
Definition answer (nm : string) (r : Z) : scan_node_callback unit :=
  fun u _ n => (if String.eqb (name n) nm then r else 0%Z, u).

Definition file_stat : stat := mk_stat 0x81A4 1 1000 1000 0 100.
Definition dir_stat : stat := mk_stat 0x41ED 1 0 0 0 100.

(** A regular file and a directory of the hierarchy on disk. *)
Definition file (nm : string) : fsent := FsEnt nm (Some file_stat) None None.
Definition folder (nm : string) (ents : list fsent) : fsent :=
  FsEnt nm (Some dir_stat) None (Some (FsDir false (Some dir_stat) ents false)).
Definition top (ents : list fsent) : fsdir :=
  FsDir false (Some dir_stat) ents false.

(** Nodes of a tree: a directory, a regular file. *)
Definition dir_node (a : nat) (nm : string) (l : list tree_node) : tree_node :=
  Node a nm 0x41ED 0 0 0 None l.
Definition file_node (a : nat) (nm : string) : tree_node :=
  Node a nm 0x81A4 0 0 0 None [].

(** A process with one descriptor open, whose allocator is at [k]. *)
Definition process (k : nat) : world unit :=
  mk_world tt k [] 1 0 [] E_os [].

(** A system in which only the path [root] names a directory. *)
Definition only_root (d : fsdir) (path : string) : option fsdir :=
  if String.eqb path "root" then Some d else None.

(** The names in a tree, in the order of the sibling lists. *)
Fixpoint names (n : tree_node) : list string :=
  name n :: flat_map names (children n).

End Sample.

(** ** What the two walkers are compared on *)

Module Agree.
Import Fstree Scan Posix.

(** What is compared of a tree: names, modes and the order of the
    children. *)
#[warnings="-register-all"]
Inductive shape := Shape (sname : string) (smode : Z) (kids : list shape).

Definition sname (s : shape) : string := let 'Shape n _ _ := s in n.
Definition smode (s : shape) : Z := let 'Shape _ m _ := s in m.
Definition kids (s : shape) : list shape := let 'Shape _ _ k := s in k.

Fixpoint shape_of (n : tree_node) : shape :=
  Shape (name n) (mode n) (map shape_of (children n)).

(** The directory entry record the iterator of the portable walker yields
    for an entry of the hierarchy. *)
Definition entry_of (e : fsent) : Portable.dir_entry :=
  match lstat e with
  | Some sb => Portable.mk_entry (d_name e) (st_mode sb) (st_mtime sb)
  | None => Portable.mk_entry (d_name e) 0 0
  end.

(** An entry of a directory without faults that holds regular files and
    directories only. *)
Definition plain_entry (e : fsent) : Prop :=
  d_name e <> ""%string /\
  exists sb, lstat e = Some sb /\
             (S_ISREG (st_mode sb) = true \/
              S_ISDIR (st_mode sb) = true /\ sub e <> None).

Section Represents.
Variable os : string -> option Portable.listing.

Fixpoint represents_entries (rec : string -> fsdir -> Prop) (path : string)
         (ents : list fsent) : Prop :=
  match ents with
  | [] => True
  | e :: rest =>
      plain_entry e /\
      match sub e with
      | Some d' => rec (path ++ "/" ++ d_name e)%string d'
      | None => True
      end /\
      represents_entries rec path rest
  end.

(** [path] names the directory [d] for the portable walker: the iterator
    yields the entries of [d], whose names are distinct, and the same
    holds below. *)
Fixpoint represents (path : string) (d : fsdir) {struct d} : Prop :=
  match d with
  | FsDir ff st ents rf =>
      ff = false /\ rf = false /\
      os path = Some (map entry_of ents, false) /\
      NoDup (map d_name ents) /\
      represents_entries (fun p d' => represents p d') path ents
  end.

End Represents.

(** The depth of a hierarchy. *)
Fixpoint depth_entries (rec : fsdir -> nat) (ents : list fsent) : nat :=
  match ents with
  | [] => 0
  | e :: rest =>
      Nat.max (match sub e with Some d' => S (rec d') | None => 0 end)
              (depth_entries rec rest)
  end.

Fixpoint depth (d : fsdir) {struct d} : nat :=
  match d with
  | FsDir _ _ ents _ => depth_entries (fun d' => depth d') ents
  end.

(** [insert_sorted] on shapes. *)
Fixpoint insert_shape (l : list shape) (s : shape) : list shape :=
  match l with
  | [] => [s]
  | it :: rest =>
      if String.ltb (sname it) (sname s) then it :: insert_shape rest s
      else s :: l
  end.

Section Expected.
Variable M : dir_scan_masks.
Variable flags : Z.

(** [verdict nm md]: what the callback returns for a node of that name
    and mode. *)
Variable verdict : string -> Z -> Z.

(** Does an entry of that name and mode get a node that stays? *)
Definition accepts (nm : string) (md : Z) : bool :=
  negb (String.eqb nm "." || String.eqb nm "..")
  && negb (if S_ISDIR md then has_flag flags (DIR_SCAN_NO_DIR M)
           else has_flag flags (DIR_SCAN_NO_FILE M))
  && (verdict nm md =? 0)%Z.

Definition descends (md : Z) : bool :=
  S_ISDIR md && negb (has_flag flags (DIR_SCAN_NO_RECURSION M)).

(** What one entry adds to the children [acc]. *)
Definition expected_entry (rec : fsdir -> list shape) (e : fsent)
           (acc : list shape) : list shape :=
  match lstat e with
  | Some sb =>
      if accepts (d_name e) (st_mode sb)
      then insert_shape acc
             (Shape (d_name e) (st_mode sb)
                    (if descends (st_mode sb)
                     then match sub e with
                          | Some d' => rec d'
                          | None => []
                          end
                     else []))
      else acc
  | None => acc
  end.

Fixpoint expected_entries (rec : fsdir -> list shape) (ents : list fsent)
         (acc : list shape) : list shape :=
  match ents with
  | [] => acc
  | e :: rest => expected_entries rec rest (expected_entry rec e acc)
  end.

(** The directory below the entry called [nm]. *)
Definition find_sub (ents : list fsent) (nm : string) : option fsdir :=
  match find (fun e => String.eqb (d_name e) nm) ents with
  | Some e => sub e
  | None => None
  end.

(** A node that has just been linked, after the walker has been through
    the directory of that name. *)
Definition fill (rec : fsdir -> list shape) (ents : list fsent) (s : shape)
  : shape :=
  if descends (smode s)
  then Shape (sname s) (smode s)
             (match find_sub ents (sname s) with
              | Some d' => rec d'
              | None => []
              end)
  else s.

(** The children a scan of the hierarchy [d] into an empty directory node
    is to produce. *)
Fixpoint expected (d : fsdir) {struct d} : list shape :=
  match d with
  | FsDir _ _ ents _ => expected_entries (fun d' => expected d') ents []
  end.

End Expected.

(** A scan of the POSIX walker went through: it returned 0 and left the
    destination node with the children [after], every one allocated
    before the allocator's next address, no directory node among them when
    [nodir] is set. *)
Definition posix_scanned (U : Type) (nodir : bool) (after : list shape)
           (root : tree_node) (w : world U)
           (r : Z * tree_node * world U) : Prop :=
  exists root' w',
    r = (0%Z, root', w') /\
    addr root' = addr root /\ name root' = name root /\
    mode root' = mode root /\
    map shape_of (children root') = after /\
    allocs w' = [] /\ next_addr w <= next_addr w' /\
    PosixSpec.below (next_addr w') (children root') /\
    (nodir = true ->
     Forall (fun c => S_ISDIR (mode c) = false) (children root')).

(** A scan of the portable walker went through. *)
Definition portable_scanned (U : Type) (after : list shape)
           (root : tree_node) (r : option (Z * tree_node * world U)) : Prop :=
  exists root' w',
    r = Some (0%Z, root', w') /\
    name root' = name root /\ mode root' = mode root /\
    map shape_of (children root') = after /\
    allocs w' = [].

(** What the POSIX walker does with a directory that [os] represents:
    scanned into a node that has children already, it returns 0 and leaves
    the expected children. *)
Definition posix_agrees (U : Type) (M : dir_scan_masks)
           (sizeof_off_t sizeof_size_t : Z) (fs : fstree)
           (cb : option (scan_node_callback U)) (flags : Z)
           (verdict : string -> Z -> Z)
           (os : string -> option Portable.listing) (d : fsdir) : Prop :=
  forall path root devstart (w : world U),
    represents os path d ->
    allocs w = [] -> PosixSpec.below (next_addr w) (children root) ->
    (has_flag flags (DIR_SCAN_NO_DIR M) = true ->
     Forall (fun c => S_ISDIR (mode c) = false) (children root)) ->
    posix_scanned (has_flag flags (DIR_SCAN_NO_DIR M))
      (expected_entries M flags verdict (expected M flags verdict)
                        (entries d) (map shape_of (children root)))
      root w
      (populate_dir M sizeof_off_t sizeof_size_t fs cb flags
                    d root devstart w).

(** What the portable walker does with it: scanned into a node without
    children, within a budget of calls that covers the depth, it returns 0
    and leaves the expected children. *)
Definition portable_agrees (U : Type) (M : dir_scan_masks) (fs : fstree)
           (cb : option (scan_node_callback U)) (flags : Z)
           (verdict : string -> Z -> Z)
           (os : string -> option Portable.listing) (d : fsdir) : Prop :=
  forall fuel path root (w : world U),
    depth d <= fuel -> represents os path d ->
    children root = [] -> allocs w = [] ->
    portable_scanned (expected M flags verdict d) root
      (Portable.scan_tree M fs cb flags os
         (Portable.fstree_from_subdir M fs cb flags os fuel) root path w).

(** A hierarchy of two levels for the examples, and what the directory
    iterator shows of it below the path [root]. *)
Definition two_levels : fsdir :=
  Sample.top [Sample.file "a"; Sample.folder "x" [Sample.file "q"]].

Definition two_levels_listing (path : string) : option Portable.listing :=
  if String.eqb path "root"
  then Some (map entry_of [Sample.file "a";
                           Sample.folder "x" [Sample.file "q"]], false)
  else if String.eqb path "root/x"
  then Some (map entry_of [Sample.file "q"], false)
  else None.

End Agree.

(** ** Induction over a directory hierarchy *)

Section FsInduction.
Import Posix.
Variable P : fsdir -> Prop.
Hypothesis Hdir :
  forall ff st ents rf,
    Forall (fun e => match sub e with Some d' => P d' | None => True end) ents ->
    P (FsDir ff st ents rf).

Fixpoint fsdir_induction (d : fsdir) : P d :=
  match d with
  | FsDir ff st ents rf =>
      Hdir ff st rf
        ((fix go (l : list fsent)
            : Forall (fun e => match sub e with
                               | Some d' => P d'
                               | None => True
                               end) l :=
            match l with
            | [] => Forall_nil _
            | e :: r =>
                Forall_cons e
                  (match e as e0
                         return match sub e0 with
                                | Some d' => P d'
                                | None => True
                                end with
                   | FsEnt _ _ _ (Some d0) => fsdir_induction d0
                   | FsEnt _ _ _ None => I
                   end)
                  (go r)
            end) ents)
  end.

End FsInduction.

(** * Properties *)

(** ** [file_precache] *)

Section PrecacheFacts.
Import Precache.
Variable BUFSZ : nat.

Lemma store_at_length (b bs : list byte) (pos : nat) :
  pos + List.length bs <= List.length b ->
  List.length (store_at b pos bs) = List.length b.
Proof.
  intros H. unfold store_at.
  rewrite !length_app, length_firstn, length_skipn. lia.
Qed.

Lemma store_at_prefix (b bs : list byte) (pos n : nat) :
  n <= pos -> pos <= List.length b ->
  firstn n (store_at b pos bs) = firstn n b.
Proof.
  intros Hn Hp. unfold store_at.
  rewrite firstn_app, length_firstn.
  replace (n - Nat.min pos (List.length b)) with 0 by lia.
  rewrite firstn_firstn. simpl. rewrite app_nil_r.
  f_equal. lia.
Qed.

Lemma sys_read_count (f : file_istream) (count : nat) bs f1 :
  sys_read f count = (inl bs, f1) ->
  List.length bs <= count /\ buffer f1 = buffer f /\
  strm_buffer f1 = strm_buffer f /\ buffer_used f1 = buffer_used f /\
  eof f1 = eof f /\
  (bs = [] -> 0 < count -> fd_rest f = []).
Proof.
  unfold sys_read.
  assert (Hk : forall k l, firstn (A:=byte) k l = [] -> 0 < k -> l = []).
  { intros k l Hn Hk. destruct k; [lia|]. destruct l; [reflexivity|].
    simpl in Hn. discriminate. }
  assert (Hs : forall m c, served m c <= c /\ (0 < c -> 0 < served m c))
    by (intros; unfold served; lia).
  destruct (fd_script f) as [|[most| |] sc]; cbv beta iota zeta; intros E;
    try discriminate E; injection E as <- <-;
    cbn [buffer strm_buffer buffer_used eof].
  - split; [rewrite length_firstn; pose proof (Hs count count); lia|].
    do 4 (split; [reflexivity|]).
    intros Hn Hc. apply (Hk _ _ Hn). now apply Hs.
  - split; [rewrite length_firstn; pose proof (Hs most count); lia|].
    do 4 (split; [reflexivity|]).
    intros Hn Hc. apply (Hk _ _ Hn). now apply Hs.
Qed.

Lemma sys_read_err (f : file_istream) (count : nat) e f1 :
  sys_read f count = (inr e, f1) ->
  buffer f1 = buffer f /\ strm_buffer f1 = strm_buffer f /\
  buffer_used f1 = buffer_used f /\ eof f1 = eof f /\
  fd_script f = (if e then Eintr else Eio) :: fd_script f1.
Proof.
  unfold sys_read.
  destruct (fd_script f) as [|[most| |] sc]; simpl; intros E;
    inversion E; subst; clear E; simpl; repeat split; reflexivity.
Qed.

Lemma precache_loop_stop (fuel : nat) (g : file_istream) :
  eof g = true \/ BUFSZ <= buffer_used g ->
  precache_loop BUFSZ fuel g = Some (0%Z, g).
Proof.
  intros H. destruct fuel; simpl;
    (destruct (eof g); simpl; [reflexivity|];
     destruct H as [H|H]; [discriminate|];
     destruct (Nat.ltb_spec (buffer_used g) BUFSZ); [lia|reflexivity]).
Qed.

Lemma precache_loop_total (fuel : nat) :
  forall g, reads_needed g <= fuel ->
            exists r, precache_loop BUFSZ fuel g = Some r.
Proof.
  induction fuel as [|fuel IH]; intros g Hm.
  - unfold reads_needed in Hm. destruct (fd_rest g); lia.
  - cbn [precache_loop].
    destruct (eof g || negb (buffer_used g <? BUFSZ)) eqn:Hstop;
      [eexists; reflexivity|].
    apply orb_false_elim in Hstop. destruct Hstop as [Heof Hlt].
    apply negb_false_iff, Nat.ltb_lt in Hlt.
    unfold sys_read, reads_needed in *.
    destruct (fd_script g) as [|[most| |] sc] eqn:Hsc; cbn [tl List.length] in *.
    + (* nothing scripted: the request is served in full *)
      set (k := served (BUFSZ - buffer_used g) (BUFSZ - buffer_used g)).
      assert (Hk : k = BUFSZ - buffer_used g) by (unfold k, served; lia).
      clearbody k.
      destruct (fd_rest g) as [|b rest] eqn:Hrest.
      * rewrite firstn_nil. eexists. apply precache_loop_stop.
        left. reflexivity.
      * destruct (firstn k (b :: rest)) as [|b0 bs0] eqn:Hf.
        { exfalso. destruct k; [lia|]. simpl in Hf. discriminate. }
        destruct (Nat.le_gt_cases k (List.length (b :: rest))) as [Hle|Hgt].
        { eexists. apply precache_loop_stop. right. cbn.
          assert (List.length (b0 :: bs0) = k)
            by (rewrite <- Hf, length_firstn; lia).
          cbn in H. lia. }
        { apply (IH _). unfold reads_needed. cbn.
          rewrite skipn_all2 by lia. lia. }
    + set (k := served most (BUFSZ - buffer_used g)). clearbody k.
      destruct (firstn k (fd_rest g)) as [|b0 bs0] eqn:Hf.
      * eexists. apply precache_loop_stop. left. reflexivity.
      * apply (IH _). unfold reads_needed. cbn.
        destruct (fd_rest g) as [|b1 r1];
          [rewrite firstn_nil in Hf; discriminate|].
        destruct (skipn k (b1 :: r1)); lia.
    + apply (IH _). unfold reads_needed. cbn. lia.
    + eexists; reflexivity.
Qed.

Lemma store_at_window (b bs : list byte) (pos : nat) :
  pos <= List.length b ->
  firstn (pos + List.length bs) (store_at b pos bs) = firstn pos b ++ bs.
Proof.
  intros Hp. unfold store_at.
  rewrite firstn_app, length_firstn.
  rewrite (firstn_all2 (n := pos + List.length bs) (firstn pos b))
    by (rewrite length_firstn; lia).
  f_equal.
  replace (pos + List.length bs - Nat.min pos (List.length b))
    with (List.length bs + 0) by lia.
  rewrite firstn_app_2. simpl. now rewrite app_nil_r.
Qed.

Lemma loop_post_refl (g : file_istream) :
  List.length (buffer g) = BUFSZ -> strm_buffer g = 0 ->
  buffer_used g <= BUFSZ ->
  eof g = true \/ BUFSZ <= buffer_used g -> loop_post BUFSZ g g.
Proof.
  intros Hl Hb Hu Hs. unfold loop_post.
  repeat split; try assumption; try reflexivity; try lia.
  destruct Hs; [now left|right; lia].
Qed.

Lemma loop_post_step (g g1 f' : file_istream) (bs : list byte) :
  List.length (buffer g) = BUFSZ -> buffer_used g + List.length bs <= BUFSZ ->
  buffer g1 = store_at (buffer g) (buffer_used g) bs ->
  buffer_used g1 = buffer_used g + List.length bs ->
  fd_rest g = bs ++ fd_rest g1 ->
  loop_post BUFSZ g1 f' -> loop_post BUFSZ g f'.
Proof.
  intros Hl Hu Hb Hu1 Hr (P1 & P2 & P3 & P4 & P5 & P6). unfold loop_post.
  repeat split; try assumption; try lia.
  - rewrite <- (store_at_prefix (buffer g) bs (pos := buffer_used g)) by lia.
    rewrite <- Hb.
    replace (buffer_used g) with (Nat.min (buffer_used g) (buffer_used g1))
      at 1 2 by lia.
    rewrite <- !firstn_firstn. now rewrite P4.
  - rewrite P5, Hu1, Hb, store_at_window by lia.
    now rewrite Hr, app_assoc.
Qed.

Lemma precache_loop_inv (fuel : nat) :
  forall g r f',
    List.length (buffer g) = BUFSZ -> strm_buffer g = 0 ->
    buffer_used g <= BUFSZ ->
    precache_loop BUFSZ fuel g = Some (r, f') ->
    (r = (-1)%Z /\ In Eio (fd_script g)) \/
    (r = 0%Z /\ loop_post BUFSZ g f').
Proof.
  induction fuel as [|fuel IH]; intros g r f' Hl Hb Hu; cbn [precache_loop];
    destruct (eof g || negb (buffer_used g <? BUFSZ)) eqn:Hstop.
  1,3: intros E; injection E as <- <-; right; split; [reflexivity|];
    apply loop_post_refl; try assumption;
    apply orb_true_iff in Hstop; destruct Hstop as [H|H];
    [now left | right; apply negb_true_iff, Nat.ltb_ge in H; lia].
  - discriminate.
  - apply orb_false_elim in Hstop. destruct Hstop as [Heof Hlt].
    apply negb_false_iff, Nat.ltb_lt in Hlt.
    assert (Hserve : forall k, k <= BUFSZ - buffer_used g ->
      forall g1,
        buffer g1 = buffer g -> strm_buffer g1 = 0 ->
        buffer_used g1 = buffer_used g -> fd_rest g1 = skipn k (fd_rest g) ->
        (forall x, In x (fd_script g1) -> In x (fd_script g)) ->
        (eof g1 = true \/ firstn k (fd_rest g) <> []) ->
        precache_loop BUFSZ fuel (append_read g1 (firstn k (fd_rest g)))
          = Some (r, f') ->
        (r = (-1)%Z /\ In Eio (fd_script g)) \/
        (r = 0%Z /\ loop_post BUFSZ g f')).
    { intros k Hk g1 B1 B2 B3 B4 B5 B6 E.
      assert (Hlen : List.length (firstn k (fd_rest g)) <= k)
        by (rewrite length_firstn; lia).
      apply IH in E; cbn [append_read buffer strm_buffer buffer_used];
        [ | rewrite B1, B3, store_at_length; lia | assumption | lia ].
      destruct E as [[-> Hin]|[-> Hp]]; [left; split; auto|].
      right; split; [reflexivity|].
      eapply (loop_post_step g (firstn k (fd_rest g)));
        [exact Hl| | | | |exact Hp];
        cbn [append_read buffer buffer_used fd_rest].
      - lia.
      - now rewrite B1, B3.
      - now rewrite B3.
      - now rewrite B4, firstn_skipn. }
    unfold sys_read.
    destruct (fd_script g) as [|[most| |] sc] eqn:Hsc; cbv beta iota zeta.
    + set (k := served (BUFSZ - buffer_used g) (BUFSZ - buffer_used g)).
      assert (Hk : k <= BUFSZ - buffer_used g) by (unfold k, served; lia).
      clearbody k.
      destruct (firstn k (fd_rest g)) eqn:Hf; rewrite <- Hf;
        apply (Hserve k Hk); cbn; auto;
        right; rewrite Hf; discriminate.
    + set (k := served most (BUFSZ - buffer_used g)).
      assert (Hk : k <= BUFSZ - buffer_used g) by (unfold k, served; lia).
      clearbody k.
      destruct (firstn k (fd_rest g)) eqn:Hf; rewrite <- Hf;
        apply (Hserve k Hk); cbn; auto;
        right; rewrite Hf; discriminate.
    + intros E. apply IH in E; cbn; try assumption.
      destruct E as [[-> Hin]|[-> Hp]]; [left; split; [reflexivity|]|].
      * cbn in Hin. now right.
      * right. split; [reflexivity|]. exact Hp.
    + intros E; injection E as <- <-. left. split; [reflexivity|now left].
Qed.

Lemma memmove_front_length (b : list byte) (off n : nat) :
  off <= List.length b - n -> n <= List.length b ->
  List.length (memmove_front b off n) = List.length b.
Proof.
  intros H1 H2. unfold memmove_front.
  rewrite length_app, length_firstn, !length_skipn. lia.
Qed.

Lemma memmove_front_window (b : list byte) (off n : nat) :
  off <= List.length b - n -> n <= List.length b ->
  firstn n (memmove_front b off n) = firstn n (skipn off b).
Proof.
  intros H1 H2. unfold memmove_front.
  rewrite firstn_app, length_firstn, length_skipn.
  replace (n - Nat.min n (List.length b - off)) with 0 by lia.
  rewrite firstn_firstn, Nat.min_id. simpl. apply app_nil_r.
Qed.

End PrecacheFacts.

Section PrecacheMore.
Import Precache FileStream.
Variable BUFSZ : nat.

Lemma memmove_front_zero (b : list byte) (n : nat) :
  Precache.memmove_front b 0 n = b.
Proof. unfold Precache.memmove_front. cbn [skipn]. apply firstn_skipn. Qed.

(** What the loop keeps on every return. *)
Lemma precache_loop_keeps (fuel : nat) :
  forall g r f',
    List.length (buffer g) = BUFSZ -> strm_buffer g = 0 ->
    buffer_used g <= BUFSZ ->
    precache_loop BUFSZ fuel g = Some (r, f') ->
    List.length (buffer f') = BUFSZ /\ strm_buffer f' = 0 /\
    buffer_used g <= buffer_used f' <= BUFSZ /\
    firstn (buffer_used f') (buffer f') ++ fd_rest f'
    = firstn (buffer_used g) (buffer g) ++ fd_rest g /\
    ((r = 0%Z /\ Precache.diag f' = Precache.diag g) \/
     (r = (-1)%Z /\ Precache.diag f' = Precache.diag g ++ ["file->path"%string]
      /\ eof f' = false)).
Proof.
  induction fuel as [|fuel IH]; intros g r f' Hl Hb Hu; cbn [precache_loop];
    destruct (eof g || negb (buffer_used g <? BUFSZ)) eqn:Hstop.
  1,3: intros E; injection E as <- <-; repeat split; try assumption; try lia;
       now left.
  - discriminate.
  - apply orb_false_elim in Hstop. destruct Hstop as [Heof Hlt].
    apply negb_false_iff, Nat.ltb_lt in Hlt.
    destruct (sys_read g (BUFSZ - buffer_used g)) as [[bs|[|]] g1] eqn:Hread.
    + destruct (sys_read_count _ _ Hread) as (Hc & B1 & B2 & B3 & B4 & B5).
      assert (Hrest : fd_rest g = bs ++ fd_rest g1 /\
                      Precache.diag g1 = Precache.diag g).
      { unfold sys_read in Hread.
        destruct (fd_script g) as [|[most| |] sc]; cbv beta iota zeta in Hread;
          try discriminate Hread; injection Hread as <- <-; cbn;
          split; try reflexivity; symmetry; apply firstn_skipn. }
      destruct Hrest as [Hrest Hd].
      intros E.
      assert (E' : precache_loop BUFSZ fuel
                     (append_read (match bs with [] => set_eof g1 | _ => g1 end)
                                  bs) = Some (r, f'))
        by (destruct bs; exact E).
      clear E.
      set (g2 := append_read (match bs with [] => set_eof g1 | _ => g1 end)
                             bs) in *.
      assert (Hu1 : buffer_used g2 = buffer_used g + List.length bs)
        by (unfold g2; destruct bs; cbn; lia).
      assert (Hb1 : buffer g2 = store_at (buffer g) (buffer_used g) bs)
        by (unfold g2; destruct bs; cbn; now rewrite B1, B3).
      assert (Hr1 : fd_rest g2 = fd_rest g1)
        by (unfold g2; destruct bs; reflexivity).
      assert (Hd1 : Precache.diag g2 = Precache.diag g)
        by (unfold g2; destruct bs; exact Hd).
      assert (Hs1 : strm_buffer g2 = 0)
        by (unfold g2; destruct bs; cbn; congruence).
      clearbody g2.
      apply IH in E';
        [|rewrite Hb1, store_at_length; lia|exact Hs1|lia].
      destruct E' as (P1 & P2 & P3 & P4 & P5).
      rewrite Hu1, Hb1, Hr1 in P4. rewrite Hu1 in P3. rewrite Hd1 in P5.
      split; [exact P1|]. split; [exact P2|]. split; [lia|].
      split; [|exact P5].
      rewrite P4, store_at_window by lia.
      now rewrite Hrest, app_assoc.
    + destruct (sys_read_err _ _ Hread) as (B1 & B2 & B3 & B4 & B5).
      assert (Hrest : fd_rest g1 = fd_rest g /\
                      Precache.diag g1 = Precache.diag g).
      { unfold sys_read in Hread.
        destruct (fd_script g) as [|[most| |] sc]; cbv beta iota zeta in Hread;
          try discriminate Hread; injection Hread as <-; now cbn. }
      destruct Hrest as [Hr Hd].
      intros E. apply IH in E; [|congruence|congruence|lia].
      rewrite B1, B3, Hr, Hd in E. exact E.
    + destruct (sys_read_err _ _ Hread) as (B1 & B2 & B3 & B4 & B5).
      assert (Hrest : fd_rest g1 = fd_rest g /\
                      Precache.diag g1 = Precache.diag g).
      { unfold sys_read in Hread.
        destruct (fd_script g) as [|[most| |] sc]; cbv beta iota zeta in Hread;
          try discriminate Hread; injection Hread as <-; now cbn. }
      destruct Hrest as [Hr Hd].
      intros E. injection E as <- <-. cbn.
      rewrite B1, B2, B3, B4, Hr, Hd.
      repeat split; try assumption; try lia. right. now repeat split.
Qed.


Lemma precache_start (f : file_istream) :
  precache_asserts BUFSZ f ->
  let b := if 0 <? buffer_used f
           then Precache.memmove_front (buffer f) (strm_buffer f)
                                       (buffer_used f)
           else buffer f in
  List.length b = BUFSZ /\ firstn (buffer_used f) b = window f.
Proof.
  intros (Hl & Ho & Hu & Hou) b. split.
  - unfold b. destruct (0 <? buffer_used f); [|exact Hl].
    rewrite memmove_front_length; lia.
  - unfold b, window.
    destruct (Nat.ltb_spec 0 (buffer_used f)) as [Hp|Hz].
    + apply memmove_front_window; lia.
    + replace (buffer_used f) with 0 by lia. reflexivity.
Qed.

Lemma precache_loop_script (fuel : nat) :
  forall g r f',
    precache_loop BUFSZ fuel g = Some (r, f') ->
    exists fuel2,
      precache_loop BUFSZ fuel2 (with_script g (drop_eintr (fd_script g)))
      = Some (r, with_script f' (drop_eintr (fd_script f'))).
Proof.
  induction fuel as [|fuel IH]; intros g r f'; cbn [precache_loop];
    destruct (eof g || negb (buffer_used g <? BUFSZ)) eqn:Hstop.
  1,3: intros E; injection E as <- <-; exists 0; cbn [precache_loop];
       change (eof (with_script g (drop_eintr (fd_script g)))) with (eof g);
       change (buffer_used (with_script g (drop_eintr (fd_script g))))
         with (buffer_used g);
       now rewrite Hstop.
  - discriminate.
  - destruct g as [b sb bu ef rest sc dg].
    change (eof (mk_file b sb bu ef rest sc dg)) with ef in Hstop.
    change (buffer_used (mk_file b sb bu ef rest sc dg)) with bu in *.
    change (fd_script (mk_file b sb bu ef rest sc dg)) with sc.
    assert (Hgo : forall fuel2 sc2,
      precache_loop BUFSZ (Datatypes.S fuel2)
                    (with_script (mk_file b sb bu ef rest sc dg) sc2)
      = let '(r0, f1) := sys_read (mk_file b sb bu ef rest sc2 dg) (BUFSZ - bu) in
        match r0 with
        | inl bs =>
            precache_loop BUFSZ fuel2
              (append_read (match bs with [] => set_eof f1 | _ => f1 end) bs)
        | inr true => precache_loop BUFSZ fuel2 f1
        | inr false => Some ((-1)%Z, Precache.perror f1 "file->path")
        end).
    { intros fuel2 sc2.
      change (with_script (mk_file b sb bu ef rest sc dg) sc2)
        with (mk_file b sb bu ef rest sc2 dg).
      cbn [precache_loop eof buffer_used]. now rewrite Hstop. }
    unfold sys_read in *.
    destruct sc as [|[most| |] sc]; cbv beta iota zeta;
      cbn [fd_script tl buffer strm_buffer buffer_used eof fd_rest
           Precache.diag].
    + intros E. apply IH in E. destruct E as [fuel2 E].
      exists (Datatypes.S fuel2). rewrite Hgo. cbn [drop_eintr filter].
      cbn [fd_script tl buffer strm_buffer buffer_used eof fd_rest
           Precache.diag].
      rewrite <- E. f_equal.
      destruct (firstn _ rest); reflexivity.
    + intros E. apply IH in E. destruct E as [fuel2 E].
      exists (Datatypes.S fuel2). rewrite Hgo. cbn [drop_eintr filter].
      cbn [fd_script tl buffer strm_buffer buffer_used eof fd_rest
           Precache.diag].
      rewrite <- E. f_equal.
      destruct (firstn _ rest); reflexivity.
    + intros E. apply IH in E. destruct E as [fuel2 E]. exists fuel2.
      exact E.
    + intros E. injection E as <- <-. exists 1. rewrite Hgo.
      reflexivity.
Qed.

End PrecacheMore.

Section PrecacheEof.
Import Precache FileStream.
Variable BUFSZ : nat.

(** [eof] is set by a read of zero bytes only, and such a read is the
    last one: the file is at its end and the buffer is not full. *)
Lemma precache_loop_eof (fuel : nat) :
  forall g r f',
    precache_loop BUFSZ fuel g = Some (r, f') ->
    (eof g = true -> r = 0%Z /\ f' = g) /\
    (eof g = false -> eof f' = true ->
     r = 0%Z /\ fd_rest f' = [] /\ buffer_used f' < BUFSZ).
Proof.
  induction fuel as [|fuel IH]; intros g r f'; cbn [precache_loop];
    destruct (eof g || negb (buffer_used g <? BUFSZ)) eqn:Hstop.
  1,3: intros E; injection E as <- <-;
       (split; [intros _; now split|intros H1 H2; congruence]).
  - discriminate.
  - apply orb_false_elim in Hstop. destruct Hstop as [Heof Hlt].
    apply negb_false_iff, Nat.ltb_lt in Hlt.
    intros H. split; [congruence|intros _].
    assert (Hserve : forall most f1,
               f1 = mk_file (buffer g) (strm_buffer g) (buffer_used g) (eof g)
                      (skipn (served most (BUFSZ - buffer_used g)) (fd_rest g))
                      (tl (fd_script g)) (diag g) ->
               precache_loop BUFSZ fuel
                 (append_read
                    match firstn (served most (BUFSZ - buffer_used g))
                                 (fd_rest g) with
                    | [] => set_eof f1
                    | _ :: _ => f1
                    end
                    (firstn (served most (BUFSZ - buffer_used g)) (fd_rest g)))
               = Some (r, f') ->
               eof f' = true ->
               r = 0%Z /\ fd_rest f' = [] /\ buffer_used f' < BUFSZ).
    { intros most f1 -> E Hf.
      assert (Hk : 0 < served most (BUFSZ - buffer_used g))
        by (unfold served; lia).
      destruct (fd_rest g) as [|c rest] eqn:Hrest.
      - rewrite firstn_nil in E. apply IH in E. destruct E as [E _].
        destruct (E eq_refl) as [-> ->]. cbn.
        rewrite skipn_nil. repeat split. lia.
      - destruct (served most (BUFSZ - buffer_used g)) as [|k]; [lia|].
        cbn [firstn] in E. apply IH in E. destruct E as [_ E].
        apply E; [cbn; exact Heof|exact Hf]. }
    unfold sys_read in H.
    destruct (fd_script g) as [|[most| |] sc] eqn:Hsc; cbn [tl] in *.
    + exact (Hserve (BUFSZ - buffer_used g) _ eq_refl H).
    + exact (Hserve most _ eq_refl H).
    + intros Hf. apply IH in H. destruct H as [_ E].
      apply E; [cbn; exact Heof|exact Hf].
    + intros Hf. injection H as <- <-. cbn in Hf. congruence.
Qed.

(** What a run of the loop that returns 0 leaves, the stream not being at
    its end before: the window is filled from the file up to [BUFSZ]
    bytes, and [eof] is set when the file ends before that. *)
Lemma precache_loop_window (fuel : nat) (g f' : file_istream) :
  List.length (buffer g) = BUFSZ -> strm_buffer g = 0 ->
  buffer_used g <= BUFSZ -> eof g = false ->
  precache_loop BUFSZ fuel g = Some (0%Z, f') ->
  firstn (buffer_used f') (buffer f')
  = firstn BUFSZ (firstn (buffer_used g) (buffer g) ++ fd_rest g) /\
  fd_rest f' = skipn (BUFSZ - buffer_used g) (fd_rest g) /\
  eof f' = (buffer_used g + List.length (fd_rest g) <? BUFSZ).
Proof.
  intros Hl Hb Hu Heof E.
  destruct (precache_loop_eof _ _ E) as [_ He]. specialize (He Heof).
  apply (@precache_loop_inv BUFSZ) in E; try assumption.
  destruct E as [[Hr _]|[_ (P1 & P2 & P3 & P4 & P5 & P6)]]; [discriminate|].
  set (W := firstn (buffer_used f') (buffer f')) in *.
  set (W0 := firstn (buffer_used g) (buffer g)) in *.
  assert (HW : List.length W = buffer_used f')
    by (unfold W; rewrite length_firstn; lia).
  assert (HW0 : List.length W0 = buffer_used g)
    by (unfold W0; rewrite length_firstn; lia).
  assert (Hlen : buffer_used f' + List.length (fd_rest f')
                 = buffer_used g + List.length (fd_rest g)).
  { rewrite <- HW, <- HW0, <- !length_app. now rewrite P5. }
  destruct (eof f') eqn:Hf.
  - destruct (He eq_refl) as (_ & Hrest & Hlt).
    rewrite Hrest, app_nil_r in P5. rewrite Hrest in Hlen. cbn in Hlen.
    split; [|split].
    + rewrite <- P5. symmetry. apply firstn_all2. lia.
    + rewrite Hrest. symmetry. apply skipn_all2. lia.
    + symmetry. apply Nat.ltb_lt. lia.
  - destruct P6 as [P6|P6]; [discriminate|].
    split; [|split].
    + rewrite <- P5, firstn_app, HW, P6, Nat.sub_diag. cbn [firstn].
      rewrite app_nil_r. symmetry. apply firstn_all2. lia.
    + transitivity (skipn BUFSZ (W ++ fd_rest f')).
      * rewrite skipn_app, HW, P6, Nat.sub_diag. cbn [skipn].
        rewrite skipn_all2 by lia. reflexivity.
      * rewrite P5, skipn_app, HW0. rewrite skipn_all2 by lia. reflexivity.
    + symmetry. apply Nat.ltb_ge. lia.
Qed.

End PrecacheEof.

(** C10.  A call of [file_precache] that meets the assertions at its head
    returns; when it returns 0 the unconsumed bytes are at the front of the
    backing buffer with [strm->buffer] reset to it, no byte of the file is
    lost, [buffer_used] is within [BUFSZ], and either [eof] is set or the
    buffer is full.  On a stream that was at its end nothing is read.
    Otherwise the window is filled from the file up to [BUFSZ] bytes, and
    [eof] is set exactly when the file ends before the buffer is full, by
    the read that returned no byte.  A read that fails with [EINTR] is
    tried again: -1 is returned only after a read failed for another
    reason, and with the interrupted reads taken out of what the kernel
    does the call returns the same value and leaves the same stream. *)
Theorem file_precache_success (BUFSZ : nat) (f : Precache.file_istream) :
  Precache.precache_asserts BUFSZ f ->
  (exists r f',
      Precache.file_precache BUFSZ (Precache.reads_needed f) f = Some (r, f')) /\
  (forall fuel r f',
      Precache.file_precache BUFSZ fuel f = Some (r, f') ->
      (r = (-1)%Z /\ In Precache.Eio (Precache.fd_script f)) \/
      (r = 0%Z /\
       Precache.strm_buffer f' = 0 /\
       List.length (Precache.buffer f') = BUFSZ /\
       firstn (Precache.buffer_used f) (Precache.buffer f') = Precache.window f /\
       Precache.buffer_used f <= Precache.buffer_used f' <= BUFSZ /\
       (Precache.window f' ++ Precache.fd_rest f'
        = Precache.window f ++ Precache.fd_rest f)%list /\
       (Precache.eof f' = true \/ Precache.buffer_used f' = BUFSZ) /\
       (Precache.eof f = true ->
        Precache.window f' = Precache.window f /\
        Precache.fd_rest f' = Precache.fd_rest f /\
        Precache.fd_script f' = Precache.fd_script f /\
        Precache.eof f' = true) /\
       (Precache.eof f = false ->
        Precache.window f'
        = firstn BUFSZ (Precache.window f ++ Precache.fd_rest f) /\
        Precache.fd_rest f'
        = skipn (BUFSZ - Precache.buffer_used f) (Precache.fd_rest f) /\
        Precache.eof f'
        = (Precache.buffer_used f + List.length (Precache.fd_rest f)
           <? BUFSZ)))) /\
  (forall fuel r f',
      Precache.file_precache BUFSZ fuel f = Some (r, f') ->
      exists fuel2,
        Precache.file_precache BUFSZ fuel2
          (FileStream.with_script
             f (FileStream.drop_eintr (Precache.fd_script f)))
        = Some (r, FileStream.with_script
                     f' (FileStream.drop_eintr (Precache.fd_script f')))).
Proof.
  intros Ha. destruct (@precache_start BUFSZ f Ha) as [Hbl Hbw].
  destruct Ha as (Hl & Ho & Hu & Hou).
  set (b := if 0 <? Precache.buffer_used f
            then Precache.memmove_front (Precache.buffer f)
                   (Precache.strm_buffer f) (Precache.buffer_used f)
            else Precache.buffer f) in *.
  split; [|split].
  - destruct (precache_loop_total BUFSZ (fuel := Precache.reads_needed f)
                (Precache.mk_file b 0 (Precache.buffer_used f) (Precache.eof f)
                   (Precache.fd_rest f) (Precache.fd_script f) (Precache.diag f)))
      as [[r f'] E]; [apply Nat.le_refl|].
    exists r, f'. exact E.
  - intros fuel r f' E. unfold Precache.file_precache in E. fold b in E.
    pose proof E as E1.
    apply precache_loop_inv in E1; cbn; try assumption; try reflexivity.
    destruct E1 as [[-> Hin]|[-> (P1 & P2 & P3 & P4 & P5 & P6)]];
      [left; split; [reflexivity|exact Hin]|].
    cbn in P3, P4, P5. right.
    assert (Hw : Precache.window f'
                 = firstn (Precache.buffer_used f') (Precache.buffer f'))
      by (unfold Precache.window; now rewrite P2).
    split; [reflexivity|]. split; [exact P2|]. split; [exact P1|].
    split; [now rewrite P4|]. split; [exact P3|].
    split; [now rewrite Hw, P5, Hbw|]. split; [exact P6|]. split.
    + intros Heof. destruct (precache_loop_eof _ _ _ E) as [H1 _].
      destruct (H1 Heof) as [_ ->]. cbn. unfold Precache.window at 1. cbn.
      repeat split; assumption.
    + intros Heof.
      destruct (@precache_loop_window BUFSZ fuel
                  (Precache.mk_file b 0 (Precache.buffer_used f)
                     (Precache.eof f) (Precache.fd_rest f)
                     (Precache.fd_script f) (Precache.diag f))
                  f' Hbl eq_refl Hu Heof E)
        as (W1 & W2 & W3).
      cbn in W1, W2, W3. rewrite Hbw in W1. rewrite Hw.
      repeat split; assumption.
  - intros fuel r f' E. unfold Precache.file_precache in E |- *.
    apply (@precache_loop_script BUFSZ) in E. destruct E as [fuel2 E].
    exists fuel2. exact E.
Qed.

(** A stream of capacity 4 holding one unconsumed byte at offset 2, whose
    next read is interrupted once. *)
Lemma file_precache_success_witness :
  let f := Precache.mk_file [x00; x00; x61; x00] 2 1 false
             [x62; x63; x64; x65] [Precache.Eintr; Precache.Serve 0] [] in
  Precache.precache_asserts 4 f /\
  exists r f', Precache.file_precache 4 (Precache.reads_needed f) f
               = Some (r, f').
Proof.
  intros f.
  assert (H : Precache.precache_asserts 4 f)
    by (cbv; repeat split; repeat constructor).
  split; [exact H|].
  exact (proj1 (file_precache_success H)).
Defined.

(** The run of that stream: the interrupted read is tried again, a read
    of one byte and a read of the two bytes still missing follow. *)
Example file_precache_retry_run :
  Precache.file_precache 4 4
    (Precache.mk_file [x00; x00; x61; x00] 2 1 false
       [x62; x63; x64; x65] [Precache.Eintr; Precache.Serve 0] [])
  = Some (0%Z, Precache.mk_file [x61; x62; x63; x64] 0 4 false [x65] [] []).
Proof. reflexivity. Qed.

(** ** [istream_get_line] *)

Section CStrings.
Import GetLine.

Lemma byte_eqb_eq (a b : byte) : Byte.eqb a b = true <-> a = b.
Proof.
  split; [apply Byte.byte_dec_bl | apply Byte.byte_dec_lb].
Qed.

Lemma byte_eqb_neq (a b : byte) : Byte.eqb a b = false <-> a <> b.
Proof.
  rewrite <- byte_eqb_eq. destruct (Byte.eqb a b); intuition congruence.
Qed.

Lemma strlen_le (b : list byte) : strlen b <= List.length b.
Proof.
  induction b as [|c r IH]; simpl; [lia|].
  destruct (Byte.eqb c x00); simpl; lia.
Qed.

Lemma strlen_nth (b : list byte) : nth (strlen b) b x00 = x00.
Proof.
  induction b as [|c r IH]; simpl; [reflexivity|].
  destruct (Byte.eqb c x00) eqn:E; [now apply byte_eqb_eq in E|exact IH].
Qed.

Lemma strlen_lt_iff (b : list byte) : strlen b < List.length b <-> In x00 b.
Proof.
  induction b as [|c r IH]; simpl; [split; [lia|tauto]|].
  destruct (Byte.eqb c x00) eqn:E.
  - apply byte_eqb_eq in E. split; [auto|lia].
  - apply byte_eqb_neq in E. rewrite <- Nat.succ_lt_mono, IH.
    split; [auto|intros [?|?]; [congruence|assumption]].
Qed.

Lemma strlen_bound (b : list byte) (k : nat) :
  k < List.length b -> nth k b x00 = x00 -> strlen b <= k.
Proof.
  revert k. induction b as [|c r IH]; intros k Hk Hn; simpl in *; [lia|].
  destruct (Byte.eqb c x00) eqn:E; [lia|].
  destruct k as [|k]; [apply byte_eqb_neq in E; congruence|].
  apply le_n_S, IH; [lia|assumption].
Qed.

Lemma c_str_firstn (b : list byte) : c_str b = firstn (strlen b) b.
Proof.
  induction b as [|c r IH]; simpl; [reflexivity|].
  destruct (Byte.eqb c x00); simpl; congruence.
Qed.

Lemma c_str_app_nul (p q : list byte) :
  ~ In x00 p -> c_str (p ++ x00 :: q) = p.
Proof.
  induction p as [|c r IH]; simpl; intros Hn; [reflexivity|].
  destruct (Byte.eqb c x00) eqn:E.
  - apply byte_eqb_eq in E. tauto.
  - f_equal. apply IH. tauto.
Qed.

Lemma firstn_strlen_no_nul (b : list byte) (j : nat) :
  j <= strlen b -> ~ In x00 (firstn j b).
Proof.
  revert j. induction b as [|c r IH]; intros j Hj; simpl in *.
  - rewrite firstn_nil. tauto.
  - destruct j as [|j]; simpl; [tauto|].
    destruct (Byte.eqb c x00) eqn:E; [lia|].
    apply byte_eqb_neq in E. intros [?|?]; [congruence|].
    apply (IH j); [lia|assumption].
Qed.

Lemma in_firstn (A : Type) (l : list A) (i : nat) (x : A) :
  In x (firstn i l) -> In x l.
Proof.
  intros Hin. rewrite <- (firstn_skipn i l). apply in_or_app. now left.
Qed.

Lemma firstn_incl (A : Type) (l : list A) (i j : nat) (x : A) :
  i <= j -> In x (firstn i l) -> In x (firstn j l).
Proof.
  intros Hij Hin.
  replace i with (Nat.min i j) in Hin by lia.
  rewrite <- firstn_firstn in Hin.
  eapply in_firstn; eassumption.
Qed.

Lemma rtrim_index_le (b : list byte) (i : nat) : rtrim_index b i <= i.
Proof.
  induction i as [|i IH]; simpl; [lia|].
  destruct (isspace (nth i b x00)); lia.
Qed.

Lemma store_eq (b : list byte) (i : nat) (v : byte) :
  i < List.length b -> store b i v = firstn i b ++ v :: skipn (S i) b.
Proof.
  intros Hi. unfold store.
  destruct (Nat.ltb_spec i (List.length b)); [reflexivity|lia].
Qed.

Lemma store_length (b : list byte) (i : nat) (v : byte) :
  List.length (store b i v) = List.length b.
Proof.
  unfold store. destruct (Nat.ltb_spec i (List.length b)); [|reflexivity].
  rewrite length_app, length_firstn. cbn [List.length].
  rewrite length_skipn. lia.
Qed.

Lemma store_nul_c_str (b : list byte) (j : nat) :
  j <= strlen b -> j < List.length b ->
  In x00 (store b j x00) /\ c_str (store b j x00) = firstn j b.
Proof.
  intros Hj Hl. rewrite store_eq by assumption. split.
  - apply in_or_app. right. now left.
  - apply c_str_app_nul. now apply firstn_strlen_no_nul.
Qed.

Lemma rtrim_ok (b : list byte) :
  In x00 b ->
  In x00 (rtrim b) /\ forall x, In x (c_str (rtrim b)) -> In x (c_str b).
Proof.
  intros Hb. apply strlen_lt_iff in Hb. unfold rtrim.
  pose proof (rtrim_index_le b (strlen b)) as Hle.
  destruct (store_nul_c_str b (j := rtrim_index b (strlen b))) as [H1 H2];
    [assumption|lia|].
  split; [exact H1|].
  intros x Hx. rewrite H2 in Hx. rewrite c_str_firstn.
  eapply firstn_incl; eassumption.
Qed.

Lemma skip_space_c_str (b : list byte) (x : byte) :
  In x (c_str (skipn (skip_space b) b)) -> In x (c_str b).
Proof.
  induction b as [|c r IH]; simpl; [tauto|].
  destruct (isspace c) eqn:Hs; simpl.
  - destruct (Byte.eqb c x00) eqn:E;
      [apply byte_eqb_eq in E; subst c; discriminate|].
    intros H. right. now apply IH.
  - tauto.
Qed.

Lemma skip_space_nul (b : list byte) :
  In x00 b -> In x00 (skipn (skip_space b) b).
Proof.
  induction b as [|c r IH]; simpl; [tauto|].
  destruct (isspace c) eqn:Hs; simpl; [|tauto].
  intros [->|H]; [discriminate|now apply IH].
Qed.

Lemma c_str_cut (t rest : list byte) :
  In x00 t ->
  In x00 (firstn (strlen t + 1) t ++ rest) /\
  c_str (firstn (strlen t + 1) t ++ rest) = c_str t.
Proof.
  induction t as [|c r IH]; simpl; [tauto|].
  destruct (Byte.eqb c x00) eqn:E; simpl; rewrite E.
  - intros _. apply byte_eqb_eq in E. subst c. split; [now left|reflexivity].
  - apply byte_eqb_neq in E. intros [?|H]; [congruence|].
    destruct (IH H) as [H1 H2]. split; [now right|now f_equal].
Qed.

Lemma ltrim_ok (b : list byte) :
  In x00 b ->
  In x00 (ltrim b) /\ forall x, In x (c_str (ltrim b)) -> In x (c_str b).
Proof.
  intros Hb. unfold ltrim.
  destruct (0 <? skip_space b); [|split; [assumption|auto]].
  unfold memmove_front.
  destruct (c_str_cut (skipn (skip_space b) b)
              (skipn (strlen (skipn (skip_space b) b) + 1) b)
              (skip_space_nul b Hb)) as [H1 H2].
  split; [exact H1|].
  intros x Hx. rewrite H2 in Hx. now apply skip_space_c_str.
Qed.


Lemma c_str_app_in (p q : list byte) :
  In x00 p -> c_str (p ++ q) = c_str p.
Proof.
  induction p as [|c r IH]; simpl; [tauto|].
  destruct (Byte.eqb c x00) eqn:E; [reflexivity|].
  apply byte_eqb_neq in E. intros [?|H]; [congruence|].
  f_equal. now apply IH.
Qed.

Lemma c_str_firstn_gt (b : list byte) (j : nat) :
  strlen b < j -> In x00 b ->
  In x00 (firstn j b) /\ c_str (firstn j b) = c_str b.
Proof.
  revert j. induction b as [|c r IH]; intros j Hj Hb; simpl in *; [tauto|].
  destruct j as [|j]; [lia|]. simpl.
  destruct (Byte.eqb c x00) eqn:E.
  - apply byte_eqb_eq in E. subst c. split; [now left|reflexivity].
  - apply byte_eqb_neq in E. destruct Hb as [?|Hb]; [congruence|].
    destruct (IH j) as [H1 H2]; [lia|assumption|].
    split; [now right|now f_equal].
Qed.

Lemma store_nul_ok (b : list byte) (j : nat) :
  line_ok b -> j < List.length b -> line_ok (store b j x00).
Proof.
  intros [Hb Hn] Hj.
  destruct (Nat.le_gt_cases j (strlen b)) as [Hle|Hgt].
  - destruct (store_nul_c_str b Hle Hj) as [H1 H2]. split; [exact H1|].
    rewrite H2. intros Hx. apply Hn. rewrite c_str_firstn.
    eapply firstn_incl; eassumption.
  - destruct (c_str_firstn_gt b Hgt Hb) as [H1 H2].
    rewrite store_eq by assumption. split.
    + apply in_or_app. now left.
    + now rewrite c_str_app_in, H2.
Qed.

Lemma line_inv_ok (line : list byte) (line_len : nat) :
  line_len < List.length line -> nth line_len line x00 = x00 ->
  ~ In x0a (firstn line_len line) -> line_ok line.
Proof.
  intros Hl Hz Hn. split.
  - rewrite <- Hz. now apply nth_In.
  - rewrite c_str_firstn. intros Hx. apply Hn.
    eapply firstn_incl; [|exact Hx]. now apply strlen_bound.
Qed.

Lemma strip_cr_ok (line : list byte) (line_len : nat) :
  line_len < List.length line -> line_ok line ->
  line_ok (snd (strip_cr line_len line)).
Proof.
  intros Hl Hok. unfold strip_cr.
  destruct ((0 <? line_len) && Byte.eqb (nth (line_len - 1) line x00) x0d);
    cbn [snd]; [|exact Hok].
  apply store_nul_ok; [exact Hok|lia].
Qed.



End CStrings.

Section GetLineFacts.
Import GetLine.
Context {S : Type} `{IStream S}.
Variables LT RT SE : Z.
Variable SZ : nat.

Lemma find_newline_le (ptr : list byte) : find_newline ptr <= List.length ptr.
Proof.
  induction ptr as [|c r IH]; simpl; [lia|].
  destruct (Byte.eqb c x0a); simpl; lia.
Qed.

Lemma find_newline_none (ptr : list byte) :
  ~ In x0a (firstn (find_newline ptr) ptr).
Proof.
  induction ptr as [|c r IH]; simpl; [tauto|].
  destruct (Byte.eqb c x0a) eqn:E; simpl; [tauto|].
  apply byte_eqb_neq in E. intros [?|?]; [congruence|tauto].
Qed.

Lemma grow_inv (line ptr : list byte) (line_len count : nat) :
  line_inv line line_len -> count <= List.length ptr ->
  ~ In x0a (firstn count ptr) ->
  let size := line_len + count + 1 in
  let b := store (memcpy_at (firstn size line
                             ++ repeat xff (size - List.length line))
                            line_len (firstn count ptr))
                 (line_len + count) x00 in
  line_inv b (line_len + count) /\ b <> [].
Proof.
  intros Hinv Hc Hnl size b.
  set (r := firstn size line ++ repeat xff (size - List.length line)).
  assert (Hr : List.length r = size)
    by (unfold r; rewrite length_app, length_firstn, repeat_length; lia).
  assert (Hsrc : List.length (firstn count ptr) = count)
    by (rewrite length_firstn; lia).
  assert (Hpre : firstn line_len r = firstn line_len line).
  { destruct Hinv as [[-> ->]|(Hl & _ & _)]; [reflexivity|].
    unfold r. rewrite firstn_app, firstn_firstn, length_firstn.
    replace (line_len - Nat.min size (List.length line)) with 0
      by (unfold size; lia).
    replace (Nat.min line_len size) with line_len by (unfold size; lia).
    simpl. apply app_nil_r. }
  set (m := memcpy_at r line_len (firstn count ptr)).
  assert (Hm : List.length m = size).
  { unfold m, memcpy_at.
    rewrite !length_app, length_firstn, length_skipn, Hsrc, Hr.
    unfold size. lia. }
  assert (Hmf : firstn (line_len + count) m
                = firstn line_len line ++ firstn count ptr).
  { unfold m, memcpy_at. rewrite Hsrc, <- Hpre.
    rewrite app_assoc, firstn_app.
    assert (Hlen : List.length (firstn line_len r ++ firstn count ptr)
                   = line_len + count).
    { rewrite length_app, length_firstn, Hsrc, Hr. unfold size. lia. }
    rewrite Hlen, Nat.sub_diag, firstn_0, app_nil_r.
    apply firstn_all2. lia. }
  assert (Hb : b = firstn (line_len + count) m
                   ++ x00 :: skipn (Datatypes.S (line_len + count)) m).
  { unfold b. fold r. fold m. apply store_eq. rewrite Hm. unfold size. lia. }
  assert (Hfl : List.length (firstn (line_len + count) m) = line_len + count).
  { rewrite Hmf, length_app, Hsrc.
    destruct Hinv as [[-> ->]|(Hl & _ & _)]; [reflexivity|].
    rewrite length_firstn. lia. }
  split; [|rewrite Hb; intros E; apply app_eq_nil in E; destruct E; discriminate].
  right. repeat split.
  - unfold b. fold r. fold m. rewrite store_length, Hm. unfold size. lia.
  - rewrite Hb. rewrite app_nth2 by lia. rewrite Hfl, Nat.sub_diag. reflexivity.
  - rewrite Hb, firstn_app, Hfl, Nat.sub_diag, firstn_0, app_nil_r.
    rewrite firstn_all2 by lia. rewrite Hmf.
    intros Hx. apply in_app_or in Hx. destruct Hx as [Hx|Hx]; [|tauto].
    destruct Hinv as [[-> ->]|(_ & _ & Hn)]; [simpl in Hx; tauto|tauto].
Qed.











Lemma find_newline_app (content rest : list byte) :
  ~ In x0a content ->
  find_newline (content ++ x0a :: rest) = List.length content.
Proof.
  induction content as [|c r IH]; simpl; intros Hn; [reflexivity|].
  destruct (Byte.eqb c x0a) eqn:E.
  - apply byte_eqb_eq in E. tauto.
  - f_equal. apply IH. tauto.
Qed.



End GetLineFacts.

#[global] Instance chunks_progress : GetLine.IStreamProgress GetLine.chunks.
Proof.
  refine {| GetLine.remaining := GetLine.chunks_size |}.
  - intros [w m] ptr s'. cbn. unfold GetLine.chunks_get. cbn.
    destruct w as [|c w].
    + destruct m as [|[[c cs]|] r]; intros E; try discriminate E.
      injection E as <- <-. split; [discriminate|].
      unfold GetLine.chunks_size. cbn. lia.
    + intros E. injection E as <- <-. split; [discriminate|].
      unfold GetLine.chunks_size. cbn. lia.
  - intros [w m] n s'. cbn. unfold GetLine.chunks_advance. cbn.
    destruct (Nat.leb_spec n (List.length w)); intros E; [|discriminate E].
    injection E as <-. unfold GetLine.chunks_size. cbn.
    rewrite length_skipn. lia.
Defined.

Section LastRealloc.
Import GetLine.
Context {S : Type} {HS : IStream S}.
Variables LT RT SE : Z.
Variable SZ : nat.

Lemma realloc_with_allocs (e : env S) (line : list byte) (size : nat)
      (ok : bool) (a : list bool) :
  realloc (with_allocs e (ok :: a)) line size
  = (if ok
     then Some (firstn size line ++ repeat xff (size - List.length line))
     else None,
     with_allocs
       (mk_env (strm e) (io_errors e) (tl (allocs e)) (alloc_log e ++ [ok])
               (if ok then match line with
                           | [] => Datatypes.S (live e)
                           | _ => live e
                           end
                else live e) (diag e)) a).
Proof. unfold realloc, with_allocs. cbn. now destruct ok. Qed.




End LastRealloc.




(** ** Time stamps *)

Section TimeStamps.
Import Fstree Scan.
Local Open Scope Z_scope.

Lemma clamp_mtime_cases (t : Z) :
  (t < 0 -> clamp_mtime t = 0) /\
  (0xFFFFFFFF < t -> clamp_mtime t = 0xFFFFFFFF) /\
  (0 <= t <= 0xFFFFFFFF -> clamp_mtime t = t).
Proof.
  unfold clamp_mtime.
  destruct (Z.ltb_spec t 0); destruct (Z.ltb_spec 0x0FFFFFFFF t);
    repeat split; intros; try lia.
Qed.

End TimeStamps.

(** C4.  The time stamp both walkers store in a node they create.  With
    [DIR_SCAN_KEEP_TIME] it is the time stamp of the entry, replaced by 0
    when negative and by [0xFFFFFFFF] when above it; without the flag it is
    [defaults.mtime] of the tree, a 32 bit unsigned value.  The portable
    [add_node] links a node with that time stamp for every entry that is
    not left out, once the allocation succeeded and the callback accepted
    the node, and it links nothing else.  The POSIX [populate_dir] makes
    the node of every entry it does not pass over from the [stat] record
    with that time stamp, and the turn of its loop goes on with that node
    in the tree: to the next entry, or into the directory the node stands
    for. *)
Theorem stored_timestamp (U : Type) (M : Fstree.dir_scan_masks)
        (sizeof_off_t sizeof_size_t : Z)
        (fs : Fstree.fstree) (cb : option (Scan.scan_node_callback U))
        (flags : Z) :
  (0 <= Fstree.defaults_mtime fs <= 0xFFFFFFFF)%Z ->
  let keep := Fstree.has_flag flags (Fstree.DIR_SCAN_KEEP_TIME M) in
  let stored (t : Z) : Z :=
    if keep
    then (if t <? 0 then 0 else if 0xFFFFFFFF <? t then 0xFFFFFFFF else t)%Z
    else Fstree.defaults_mtime fs in
  (* the portable walker links the node with the time stamp *)
  (forall root entry w a w1 w2,
      PortableSpec.left_out M flags entry = false ->
      Scan.alloc w = (Some a, w1) ->
      Scan.call_cb cb fs (Portable.fresh_node a entry) w1 = (0%Z, w2) ->
      exists n,
        Portable.add_node M fs cb flags root entry w
        = (0%Z, Fstree.fstree_insert_sorted root n, w2) /\
        Fstree.addr n = a /\
        Fstree.name n = Portable.ent_name entry /\
        Fstree.mode n = Portable.ent_mode entry /\
        Fstree.mod_time n = stored (Portable.ent_mtime entry)) /\
  (* and it links nothing else *)
  (forall root entry w ret root' w',
      Portable.add_node M fs cb flags root entry w = (ret, root', w') ->
      root' = root \/
      exists n, ret = 0%Z /\
                root' = Fstree.fstree_insert_sorted root n /\
                Fstree.name n = Portable.ent_name entry /\
                Fstree.mod_time n = stored (Portable.ent_mtime entry)) /\
  (* the node the POSIX walker makes *)
  (forall nm sb extra root w a w1,
      Fstree.S_ISDIR (Fstree.st_mode sb)
      && Fstree.has_flag flags (Fstree.DIR_SCAN_NO_DIR M) = false ->
      Scan.alloc w = (Some a, w1) ->
      exists n ret w2,
        Posix.node_for M fs cb flags nm (Posix.default_time M fs flags sb)
                       extra root w
        = Posix.NodeOk n (Fstree.fstree_insert_sorted root n) ret w2 /\
        Scan.call_cb cb fs n w1 = (ret, w2) /\
        Fstree.addr n = a /\
        Fstree.name n = nm /\
        Fstree.mode n = Fstree.st_mode sb /\
        Fstree.mod_time n = stored (Fstree.st_mtime sb)) /\
  (* the turn of the loop of [populate_dir] for an entry that is accepted *)
  (forall devstart recurse continue nm sb lnk subdir root w extra w1 a w2 w3,
      String.eqb nm ".." || String.eqb nm "." = false ->
      Posix.skip_by_type M flags (Fstree.st_mode sb) = false ->
      Fstree.has_flag flags (Fstree.DIR_SCAN_ONE_FILESYSTEM M)
      && negb (Fstree.st_dev sb =? devstart)%Z = false ->
      Posix.read_link sizeof_off_t sizeof_size_t sb lnk w = inl (extra, w1) ->
      Fstree.S_ISDIR (Fstree.st_mode sb)
      && Fstree.has_flag flags (Fstree.DIR_SCAN_NO_DIR M) = false ->
      Scan.alloc w1 = (Some a, w2) ->
      let n := Fstree.mknode_at a nm (option_map GetLine.c_str extra)
                                (Posix.default_time M fs flags sb) in
      Scan.call_cb cb fs n w2 = (0%Z, w3) ->
      let root2 := Fstree.fstree_insert_sorted root n in
      let w4 := Scan.free_extra w3 extra in
      Fstree.mod_time n = stored (Fstree.st_mtime sb) /\
      Posix.scan_entry M sizeof_off_t sizeof_size_t fs cb flags devstart
                       recurse continue (Posix.FsEnt nm (Some sb) lnk subdir)
                       root w
      = if Fstree.S_ISDIR (Fstree.st_mode sb)
           && negb (Fstree.has_flag flags (Fstree.DIR_SCAN_NO_RECURSION M))
        then match subdir with
             | None =>
                 Posix.fail root2
                   (Scan.perror (Scan.set_errno w4 Scan.E_os) nm) None
             | Some d' =>
                 let '(r, n', w5) := recurse d' n (Scan.fd_opened w4) in
                 let root3 :=
                   Fstree.set_children root2
                     (Fstree.update_child (Fstree.children root2) a n') in
                 if (r =? 0)%Z then continue root3 w5
                 else Posix.fail root3 w5 None
             end
        else continue root2 w4).
Proof.
  intros Hdef keep stored.
  assert (Hposix : forall sb,
             Fstree.clamp_mtime
               (Fstree.st_mtime (Posix.default_time M fs flags sb))
             = stored (Fstree.st_mtime sb)).
  { intros sb. unfold Posix.default_time, stored. fold keep.
    destruct keep; cbn [negb]; [reflexivity|].
    cbn [Fstree.set_st_mtime Fstree.st_mtime].
    apply clamp_mtime_cases. exact Hdef. }
  assert (Hmode : forall sb,
             Fstree.st_mode (Posix.default_time M fs flags sb)
             = Fstree.st_mode sb).
  { intros sb. unfold Posix.default_time.
    destruct (negb _); reflexivity. }
  split; [|split; [|split]].
  - intros root entry w a w1 w2 Hout Hal Hcb.
    unfold PortableSpec.left_out in Hout. apply orb_false_elim in Hout.
    destruct Hout as [Hdots Hty].
    unfold Portable.add_node. rewrite Hdots, Hty, Hal, Hcb. cbn [Z.eqb negb].
    eexists. split; [reflexivity|]. repeat split.
  - intros root entry w ret root' w'. unfold Portable.add_node.
    destruct (_ || _); [intros E; injection E as _ <- _; now left|].
    destruct (if Fstree.S_ISDIR _ then _ else _);
      [intros E; injection E as _ <- _; now left|].
    destruct (Scan.alloc w) as [[a|] w1];
      [|intros E; injection E as _ <- _; now left].
    destruct (Scan.call_cb cb fs _ w1) as [ret1 w2].
    destruct (negb (ret1 =? 0)%Z).
    + intros E; injection E as _ <- _. now left.
    + intros E; injection E as <- <- _. right.
      eexists. split; [reflexivity|]. split; [reflexivity|].
      split; reflexivity.
  - intros nm sb extra root w a w1 Hnd Hal.
    unfold Posix.node_for. rewrite Hmode, Hnd, Hal.
    destruct (Scan.call_cb cb fs _ w1) as [ret w2] eqn:Hcb.
    eexists _, ret, w2. split; [reflexivity|]. split; [exact Hcb|].
    split; [reflexivity|]. split; [reflexivity|].
    split; [cbn; apply Hmode|]. cbn [Fstree.mknode_at Fstree.mod_time].
    apply Hposix.
  - intros devstart recurse continue nm sb lnk subdir root w extra w1 a w2 w3
           Hdots Hskip Hdev Hlnk Hnd Hal n Hcb root2 w4.
    split; [cbn [n Fstree.mknode_at Fstree.mod_time]; apply Hposix|].
    unfold Posix.scan_entry. rewrite Hdots, Hskip, Hdev, Hlnk.
    unfold Posix.node_for. rewrite Hmode, Hnd, Hal. fold n. rewrite Hcb.
    cbn [Z.ltb Z.compare]. fold root2 w4.
    replace (Fstree.mode n) with (Fstree.st_mode sb)
      by (symmetry; cbn; apply Hmode).
    reflexivity.
Qed.

(** The three time stamps of the design document, with the flag and
    without it, as the portable walker stores them. *)
Example stored_timestamp_examples :
  let fs := Fstree.mk_fstree 5 in
  let root := Fstree.Node 0 "" 0x41ed 0 0 0 None [] in
  let w := Scan.mk_world tt 1 [] 0 0 [] Scan.E_os [] in
  let stamp flags t :=
    map Fstree.mod_time
        (Fstree.children
           (snd (fst (Portable.add_node Fstree.example_masks fs None flags root
                        (Portable.mk_entry "f" 0x81a4 t) w)))) in
  stamp 1%Z (-5)%Z = [0%Z] /\
  stamp 1%Z (2 ^ 40)%Z = [0xFFFFFFFF%Z] /\
  stamp 1%Z 100%Z = [100%Z] /\
  stamp 0%Z 100%Z = [5%Z].
Proof. repeat split; reflexivity. Qed.

(** The file [f] with the time stamp -5 in the portable walker and with
    the time stamp [2 ^ 40] in the POSIX walker, the time being kept. *)
Lemma stored_timestamp_witness :
  let fs := Fstree.mk_fstree 5 in
  let root := Fstree.Node 0 "" 0x41ed 0 0 0 None [] in
  let w := Scan.mk_world tt 1 [] 0 0 [] Scan.E_os [] in
  let sb := Fstree.mk_stat 0x81a4 1 1000 1000 0 (2 ^ 40) in
  (0 <= Fstree.defaults_mtime fs <= 0xFFFFFFFF)%Z /\
  (exists n,
      Portable.add_node Fstree.example_masks fs None 1%Z root
                        (Portable.mk_entry "f" 0x81a4 (-5)) w
      = (0%Z, Fstree.fstree_insert_sorted root n, snd (Scan.alloc w)) /\
      Fstree.name n = "f"%string /\ Fstree.mod_time n = 0%Z) /\
  (exists n ret w2,
      Posix.node_for Fstree.example_masks fs None 1%Z "f"
                     (Posix.default_time Fstree.example_masks fs 1%Z sb)
                     None root w
      = Posix.NodeOk n (Fstree.fstree_insert_sorted root n) ret w2 /\
      Fstree.name n = "f"%string /\ Fstree.mod_time n = 0xFFFFFFFF%Z).
Proof.
  intros fs root w sb.
  assert (Hd : (0 <= Fstree.defaults_mtime fs <= 0xFFFFFFFF)%Z)
    by (cbv; split; discriminate).
  split; [exact Hd|].
  destruct (@stored_timestamp unit Fstree.example_masks 8 8 fs None 1%Z Hd)
    as (H1 & _ & H3 & _).
  split.
  - destruct (H1 root (Portable.mk_entry "f" 0x81a4 (-5)) w 1
                 (snd (Scan.alloc w)) (snd (Scan.alloc w))
                 eq_refl eq_refl eq_refl)
      as (n & E & _ & Hn & _ & Ht).
    exists n. split; [exact E|]. split; [exact Hn|exact Ht].
  - destruct (H3 "f"%string sb None root w 1 (snd (Scan.alloc w))
                 eq_refl eq_refl)
      as (n & ret & w2 & E & _ & _ & Hn & _ & Ht).
    exists n, ret, w2. split; [exact E|]. split; [exact Hn|exact Ht].
Defined.

(** ** What every scan of the POSIX walker keeps *)

Section PosixInvariant.
Import Fstree Scan Posix PosixSpec.
Context {U : Type}.
Variable M : dir_scan_masks.
Variables sizeof_off_t sizeof_size_t : Z.
Variable fs : fstree.
Variable cb : option (scan_node_callback U).
Variable flags : Z.
Variable trace : U -> list Z.
Hypothesis Htraced : traced trace cb.

Local Abbreviation advances := (advances trace).
Local Abbreviation returned := (returned trace).
Local Abbreviation moved := (moved trace).

Lemma advances_refl (w : world U) : advances w w.
Proof.
  unfold PosixSpec.advances. repeat split; try reflexivity.
  exists []. split; [reflexivity|constructor].
Qed.

Lemma advances_trans (w1 w2 w3 : world U) :
  advances w1 w2 -> advances w2 w3 -> advances w1 w3.
Proof.
  intros (A1 & A2 & A3 & A4 & l1 & A5 & A6) (B1 & B2 & B3 & B4 & l2 & B5 & B6).
  unfold PosixSpec.advances. repeat split; try congruence; try lia.
  exists (l2 ++ l1). split; [rewrite B5, A5; now rewrite app_assoc|].
  apply Forall_app. now split.
Qed.

Lemma advances_moved (w1 w2 : world U) : advances w1 w2 -> moved 0 w1 w2.
Proof.
  intros (A1 & A2 & A3 & A4 & l1 & A5 & A6).
  unfold PosixSpec.moved.
  split; [exact A1|]. split; [lia|]. split; [exact A4|].
  split; [exists []; now rewrite app_nil_r|now exists l1].
Qed.

Lemma moved_trans (j k : nat) (w1 w2 w3 : world U) :
  moved j w1 w2 -> moved k w2 w3 -> moved (j + k) w1 w3.
Proof.
  intros (A1 & A2 & A4 & [m1 A3] & l1 & A5) (B1 & B2 & B4 & [m2 B3] & l2 & B5).
  unfold PosixSpec.moved.
  split; [congruence|]. split; [lia|]. split; [lia|]. split.
  - exists (m1 ++ m2). rewrite B3, A3. now rewrite app_assoc.
  - exists (l2 ++ l1). rewrite B5, A5. now rewrite app_assoc.
Qed.

Lemma returned_after (w w1 : world U) (r : Z * tree_node * world U) :
  advances w w1 -> returned w1 r -> returned w r.
Proof.
  destruct r as [[ret root'] w'].
  intros (A1 & A2 & A3 & A4 & l1 & A5 & A6)
         (R1 & R2 & R3 & R4 & [m R7] & l2 & R5 & R6).
  unfold PosixSpec.returned.
  split; [exact R1|]. split; [congruence|]. split; [congruence|].
  split; [lia|]. split; [exists m; congruence|].
  exists (l2 ++ l1). split; [rewrite R5, A5; now rewrite app_assoc|].
  intros Hz. destruct (R6 Hz) as [S1 S2]. split; [congruence|].
  apply Forall_app. now split.
Qed.

(** Leaving through the label [fail]. *)
Lemma returned_fail (k : nat) (w w1 : world U) (root : tree_node)
      (extra : option (list byte)) :
  1 <= open_fds w -> moved k w w1 ->
  k = match extra with Some _ => 1 | None => 0 end ->
  returned w (fail root w1 extra).
Proof.
  intros Hfd (A1 & A2 & A4 & [m A3] & l1 & A5) Hk.
  unfold fail, PosixSpec.returned.
  split; [now right|].
  destruct extra; cbn; subst k;
    (split; [lia|]; split; [lia|]; split; [lia|];
     split; [exists m; exact A3|];
     exists l1; split; [exact A5|discriminate]).
Qed.

Lemma moved_perror (k : nat) (w w1 : world U) (what : string) :
  moved k w w1 -> moved k w (perror w1 what).
Proof.
  intros (A1 & A2 & A4 & [m A3] & A5). unfold PosixSpec.moved. cbn.
  split; [exact A1|]. split; [exact A2|]. split; [exact A4|].
  split; [|exact A5].
  exists (m ++ [Perror what (errno w1)]). rewrite A3. now rewrite app_assoc.
Qed.

Lemma moved_set_errno (k : nat) (w w1 : world U) (e : errno_t) :
  moved k w w1 -> moved k w (set_errno w1 e).
Proof. intros H; exact H. Qed.

Lemma moved_quiet (k : nat) (w w1 : world U) (l : list Z) :
  open_fds w1 = open_fds w -> bufs w1 = bufs w + k ->
  next_addr w <= next_addr w1 -> stderr w1 = stderr w ->
  trace (user w1) = l ++ trace (user w) -> moved k w w1.
Proof.
  intros H1 H2 H3 H4 H5. unfold PosixSpec.moved.
  split; [exact H1|]. split; [exact H2|]. split; [exact H3|].
  split; [exists []; now rewrite app_nil_r|now exists l].
Qed.

Lemma moved_refl (w : world U) : moved 0 w w.
Proof. apply advances_moved, advances_refl. Qed.

Lemma alloc_some (w w1 : world U) (a : nat) :
  alloc w = (Some a, w1) ->
  a = next_addr w /\ next_addr w1 = S (next_addr w) /\ advances w w1 /\
  user w1 = user w /\ freed w1 = freed w.
Proof.
  unfold alloc. destruct (allocs w) as [|[|] rest]; intros E;
    try discriminate E; injection E as <- <-; cbn;
    (split; [reflexivity|]; split; [reflexivity|];
     split; [|split; reflexivity];
     unfold PosixSpec.advances; cbn;
     do 3 (split; [reflexivity|]); split; [lia|];
     exists []; split; [reflexivity|constructor]).
Qed.

Lemma alloc_none (w w1 : world U) :
  alloc w = (None, w1) ->
  moved 0 w w1 /\ stderr w1 = stderr w /\ errno w1 = ENOMEM /\
  next_addr w1 = next_addr w /\ user w1 = user w /\ freed w1 = freed w.
Proof.
  unfold alloc. destruct (allocs w) as [|[|] rest]; intros E;
    try discriminate E; injection E as <-; cbn.
  split; [|repeat split; reflexivity].
  apply (@moved_quiet 0 _ _ []); cbn; try reflexivity; lia.
Qed.

Lemma call_cb_moved (n : tree_node) (w w1 : world U) (ret : Z) :
  call_cb cb fs n w = (ret, w1) ->
  open_fds w1 = open_fds w /\ bufs w1 = bufs w /\ stderr w1 = stderr w /\
  next_addr w1 = next_addr w /\ freed w1 = freed w /\
  exists l, trace (user w1) = l ++ trace (user w) /\
            ((0 <= ret)%Z -> Forall (fun v => 0 <= v)%Z l).
Proof.
  unfold call_cb. destruct cb as [f|] eqn:Hcb.
  - destruct (f (user w) fs n) as [r u] eqn:Hf. intros E; injection E as <- <-.
    cbn. do 5 (split; [reflexivity|]).
    destruct (Htraced eq_refl) as [Ht|Ht]; specialize (Ht (user w) fs n);
      rewrite Hf in Ht; cbn in Ht.
    + exists [r]. split; [exact Ht|]. intros Hr. repeat constructor. exact Hr.
    + exists []. split; [exact Ht|]. constructor.
  - intros E; injection E as <- <-. do 5 (split; [reflexivity|]).
    exists []. split; [reflexivity|constructor].
Qed.

Lemma read_link_ok (sb : stat) (lnk : option (list byte)) (w w1 : world U) extra :
  read_link sizeof_off_t sizeof_size_t sb lnk w = inl (extra, w1) ->
  open_fds w1 = open_fds w /\ stderr w1 = stderr w /\ user w1 = user w /\
  next_addr w <= next_addr w1 /\ freed w1 = freed w /\
  bufs w1 = bufs w + match extra with Some _ => 1 | None => 0 end.
Proof.
  unfold read_link.
  destruct (S_ISLNK (st_mode sb)).
  2:{ intros E; injection E as <- <-. repeat split; lia. }
  destruct (_ && _); [discriminate|].
  destruct (SZ_ADD_OV _ _ _) as [ov size]. destruct ov; [discriminate|].
  destruct (alloc w) as [[a|] w2] eqn:Ha; [|discriminate].
  destruct (alloc_some _ Ha) as (_ & Hn & (A1 & A2 & A3 & A4 & _) & Hu & Hf).
  destruct lnk; [|discriminate].
  intros E; injection E as <- <-. cbn. repeat split; try congruence; try lia.
Qed.

Lemma read_link_failed (sb : stat) (lnk : option (list byte)) (w w1 : world U)
      extra :
  read_link sizeof_off_t sizeof_size_t sb lnk w = inr (extra, w1) ->
  moved (match extra with Some _ => 1 | None => 0 end) w w1.
Proof.
  unfold read_link.
  destruct (S_ISLNK (st_mode sb)); [|discriminate].
  destruct (_ && _).
  { intros E; injection E as <- <-. exact (advances_moved (advances_refl w)). }
  destruct (SZ_ADD_OV _ _ _) as [ov size]. destruct ov.
  { intros E; injection E as <- <-. exact (advances_moved (advances_refl w)). }
  destruct (alloc w) as [[a|] w2] eqn:Ha.
  - destruct (alloc_some _ Ha) as (_ & Hn & (A1 & A2 & A3 & A4 & l & A5 & _) & Hu & _).
    destruct lnk; [discriminate|].
    intros E; injection E as <- <-.
    apply (@moved_quiet 1 _ _ l); cbn; try congruence; lia.
  - intros E; injection E as <- <-. now apply alloc_none.
Qed.

Lemma isdir_not_lnk (md : Z) : S_ISDIR md = true -> S_ISLNK md = false.
Proof.
  unfold S_ISDIR, S_ISLNK. intros H. apply Z.eqb_eq in H. rewrite H.
  reflexivity.
Qed.

Lemma read_link_not_lnk (sb : stat) (lnk : option (list byte)) (w : world U) :
  S_ISLNK (st_mode sb) = false ->
  read_link sizeof_off_t sizeof_size_t sb lnk w = inl (None, w).
Proof. intros H. unfold read_link. now rewrite H. Qed.

Lemma default_time_mode (sb : stat) :
  st_mode (default_time M fs flags sb) = st_mode sb.
Proof. unfold default_time. now destruct (negb _). Qed.

Lemma node_for_cases (nm : string) (sb : stat) (extra : option (list byte))
      (root : tree_node) (w1 : world U) :
  match node_for M fs cb flags nm sb extra root w1 with
  | NodeSkip => S_ISDIR (st_mode sb) = true
  | NodeFail w2 => moved 0 w1 w2
  | NodeOk n root2 ret w2 =>
      open_fds w2 = open_fds w1 /\ bufs w2 = bufs w1 /\
      stderr w2 = stderr w1 /\ next_addr w1 <= next_addr w2 /\
      exists l, trace (user w2) = l ++ trace (user w1) /\
                ((0 <= ret)%Z -> Forall (fun v => 0 <= v)%Z l)
  end.
Proof.
  unfold node_for.
  destruct (S_ISDIR (st_mode sb)) eqn:Hd; cbn [andb].
  - destruct (has_flag flags (DIR_SCAN_NO_DIR M)).
    + destruct (get_node_by_name root nm); [|reflexivity].
      repeat split; try lia. exists []. split; [reflexivity|constructor].
    + destruct (alloc w1) as [[a|] w2] eqn:Ha.
      * destruct (alloc_some _ Ha) as (_ & Hn & (A1 & A2 & A3 & A4 & _) & Hu & _).
        destruct (call_cb cb fs _ w2) as [ret w3] eqn:Hc.
        destruct (call_cb_moved _ _ Hc) as (C1 & C2 & C3 & C4 & _ & l & C5 & C6).
        repeat split; try congruence; try lia.
        exists l. split; [congruence|exact C6].
      * now apply alloc_none.
  - destruct (alloc w1) as [[a|] w2] eqn:Ha.
    + destruct (alloc_some _ Ha) as (_ & Hn & (A1 & A2 & A3 & A4 & _) & Hu & _).
      destruct (call_cb cb fs _ w2) as [ret w3] eqn:Hc.
      destruct (call_cb_moved _ _ Hc) as (C1 & C2 & C3 & C4 & _ & l & C5 & C6).
      repeat split; try congruence; try lia.
      exists l. split; [congruence|exact C6].
    + now apply alloc_none.
Qed.

Lemma scan_entry_returned (devstart : Z)
      (recurse : fsdir -> tree_node -> world U -> Z * tree_node * world U)
      (continue : tree_node -> world U -> Z * tree_node * world U)
      (e : fsent) (root : tree_node) (w : world U) :
  1 <= open_fds w ->
  (forall root1 w1, advances w w1 -> returned w1 (continue root1 w1)) ->
  (forall d' n w1, sub e = Some d' -> 1 <= open_fds w1 ->
                   returned w1 (recurse d' n w1)) ->
  returned w (scan_entry M sizeof_off_t sizeof_size_t fs cb flags devstart
                         recurse continue e root w).
Proof.
  intros Hfd Hcont Hrec. destruct e as [nm st lnk subdir]. cbn [sub] in Hrec.
  assert (Hgo : forall root1 w1, advances w w1 ->
                                 returned w (continue root1 w1)).
  { intros root1 w1 Ha. apply (@returned_after w w1 _ Ha). now apply Hcont. }
  assert (Hskip : forall root1, returned w (continue root1 w)).
  { intros root1. apply Hgo, advances_refl. }
  unfold scan_entry.
  destruct (_ || _); [apply Hskip|].
  destruct st as [sb|].
  2:{ apply (@returned_fail 0 w _ root None Hfd); [|reflexivity].
      apply moved_perror, moved_set_errno, moved_refl. }
  destruct (skip_by_type M flags (st_mode sb)); [apply Hskip|].
  destruct (_ && _); [apply Hskip|].
  destruct (read_link _ _ sb lnk w) as [[extra w1]|[extra w1]] eqn:Hrl.
  2:{ apply read_link_failed in Hrl. unfold fail_rdlink.
      eapply (@returned_fail _ w _ root extra Hfd); [|reflexivity].
      apply moved_perror. exact Hrl. }
  destruct (read_link_ok _ _ _ Hrl) as (L1 & L2 & L3 & L4 & _ & L6).
  pose proof (node_for_cases nm (default_time M fs flags sb) extra root w1)
    as Hnode.
  destruct (node_for M fs cb flags nm _ extra root w1)
    as [|w2|n root2 ret w2].
  - (* no node of that name: the entry is passed over *)
    rewrite default_time_mode in Hnode.
    rewrite (@read_link_not_lnk sb lnk w
               (@isdir_not_lnk (st_mode sb) Hnode)) in Hrl.
    injection Hrl as <- <-. apply Hskip.
  - (* the allocation of the node failed *)
    eapply (@returned_fail _ w _ root extra Hfd); [|reflexivity].
    apply moved_perror.
    replace (match extra with Some _ => 1 | None => 0 end)
      with (match extra with Some _ => 1 | None => 0 end + 0) by lia.
    apply (@moved_trans _ _ w w1 w2); [|exact Hnode].
    apply (@moved_quiet _ _ _ []); try assumption. now rewrite L3.
  - destruct Hnode as (N1 & N2 & N3 & N4 & l & N5 & N6).
    set (w3 := free_extra w2 extra).
    assert (W3 : open_fds w3 = open_fds w /\ bufs w3 = bufs w /\
                 stderr w3 = stderr w /\ next_addr w <= next_addr w3 /\
                 trace (user w3) = l ++ trace (user w)).
    { unfold w3. destruct extra; cbn; repeat split; try congruence; lia. }
    destruct W3 as (F1 & F2 & F3 & F4 & F5).
    assert (Hmv : moved 0 w w3).
    { apply (@moved_quiet 0 _ _ l); try assumption. lia. }
    destruct (Z.ltb_spec ret 0) as [Hneg|Hnn].
    { (* the callback aborts *)
      apply (@returned_fail 0 w w3 root2 None Hfd Hmv). reflexivity. }
    assert (Hadv : advances w w3).
    { unfold PosixSpec.advances. repeat split; try assumption.
      exists l. split; [exact F5|now apply N6]. }
    destruct (Z.ltb_spec 0 ret) as [Hpos|Hzero].
    { (* the callback discards the node *)
      unfold discard_node. apply Hgo. exact Hadv. }
    destruct (_ && _); [|now apply Hgo].
    destruct subdir as [d'|].
    2:{ apply (@returned_fail 0 w (perror (set_errno w3 E_os) (name n))
                              root2 None Hfd); [|reflexivity].
        apply moved_perror, moved_set_errno. exact Hmv. }
    assert (Hfd3 : 1 <= open_fds (fd_opened w3)) by (cbn; lia).
    pose proof (Hrec d' n (fd_opened w3) eq_refl Hfd3) as Hr.
    destruct (recurse d' n (fd_opened w3)) as [[r n'] w5].
    destruct Hr as (R1 & R2 & R3 & R4 & [m5 R7] & l5 & R5 & R6).
    cbn in R2, R3, R4, R5, R7.
    destruct (Z.eqb_spec r 0) as [->|Hr0].
    + apply Hgo. destruct (R6 eq_refl) as [S1 S2].
      unfold PosixSpec.advances.
      split; [lia|]. split; [lia|]. split; [cbn in S1; congruence|].
      split; [lia|]. exists (l5 ++ l). split.
      * rewrite R5, F5. now rewrite app_assoc.
      * apply Forall_app. split; [exact S2|now apply N6].
    + apply (@returned_fail 0 w w5 root2 None Hfd); [|reflexivity].
      unfold PosixSpec.moved.
      split; [lia|]. split; [lia|]. split; [lia|]. split.
      * exists m5. congruence.
      * exists (l5 ++ l). rewrite R5, F5. now rewrite app_assoc.
Qed.

Lemma scan_entries_returned (devstart : Z)
      (recurse : fsdir -> tree_node -> world U -> Z * tree_node * world U)
      (readdir_fails : bool) (ents : list fsent) :
  Forall (fun e => forall d' n w1, sub e = Some d' -> 1 <= open_fds w1 ->
                                   returned w1 (recurse d' n w1)) ents ->
  forall root w,
    1 <= open_fds w ->
    returned w (scan_entries M sizeof_off_t sizeof_size_t fs cb flags devstart
                             recurse readdir_fails ents root w).
Proof.
  induction 1 as [|e rest He Hrest IH]; intros root w Hfd; cbn [scan_entries].
  - destruct readdir_fails.
    + apply (@returned_fail 0 w (perror (set_errno w E_os) "readdir")
                            root None Hfd); [|reflexivity].
      apply moved_perror, moved_set_errno, moved_refl.
    + unfold PosixSpec.returned. cbn.
      split; [now left|]. split; [lia|]. split; [reflexivity|].
      split; [lia|]. split; [exists []; now rewrite app_nil_r|].
      exists []. split; [reflexivity|].
      intros _. split; [reflexivity|constructor].
  - apply scan_entry_returned; [exact Hfd| |exact He].
    intros root1 w1 Ha. apply IH.
    destruct Ha as (A1 & _). lia.
Qed.

Lemma populate_dir_returned (d : fsdir) :
  forall root devstart w,
    1 <= open_fds w ->
    returned w (populate_dir M sizeof_off_t sizeof_size_t fs cb flags
                             d root devstart w).
Proof.
  induction d as [ff st ents rf IH] using fsdir_induction.
  intros root devstart w Hfd. cbn [populate_dir].
  destruct ff.
  - unfold PosixSpec.returned. cbn.
    split; [now right|]. split; [lia|]. split; [reflexivity|].
    split; [lia|]. split; [eexists; reflexivity|].
    exists []. split; [reflexivity|discriminate].
  - apply scan_entries_returned; [|exact Hfd].
    apply Forall_forall. intros e He d' n w1 Hsub Hfd1.
    rewrite Forall_forall in IH. specialize (IH e He). rewrite Hsub in IH.
    now apply IH.
Qed.

End PosixInvariant.

(** For any callback: the handle is closed, the buffers are released, and
    a scan that returns 0 has written nothing to [stderr]. *)
Lemma populate_dir_quiet (U : Type) (M : Fstree.dir_scan_masks)
      (sizeof_off_t sizeof_size_t : Z) (fs : Fstree.fstree)
      (cb : option (Scan.scan_node_callback U)) (flags : Z)
      (d : Posix.fsdir) (root : Fstree.tree_node) (devstart : Z)
      (w : Scan.world U) :
  1 <= Scan.open_fds w ->
  let '(ret, _, w') :=
    Posix.populate_dir M sizeof_off_t sizeof_size_t fs cb flags
                       d root devstart w in
  (ret = 0 \/ ret = -1)%Z /\
  S (Scan.open_fds w') = Scan.open_fds w /\ Scan.bufs w' = Scan.bufs w /\
  exists m, Scan.stderr w' = Scan.stderr w ++ m /\ (ret = 0%Z -> m = []).
Proof.
  intros Hfd.
  assert (Ht : PosixSpec.traced (fun _ : U => []) cb)
    by (intros f _; right; reflexivity).
  pose proof (@populate_dir_returned U M sizeof_off_t sizeof_size_t fs cb flags
                (fun _ => []) Ht d root devstart w Hfd) as H.
  destruct (Posix.populate_dir _ _ _ _ _ _ _ _ _ _) as [[ret root'] w'].
  destruct H as (R1 & R2 & R3 & _ & [m R7] & l & _ & R6).
  split; [exact R1|]. split; [exact R2|]. split; [exact R3|].
  exists m. split; [exact R7|].
  intros Hz. destruct (R6 Hz) as [Hs _]. rewrite Hs in R7.
  rewrite <- (app_nil_r (Scan.stderr w)) in R7 at 1.
  apply app_inv_head in R7. now symmetry.
Qed.

(** ** Symlink targets *)

Section SymlinkSize.
Import Fstree Scan Posix.
Context {U : Type}.
Variables sizeof_off_t sizeof_size_t : Z.
Hypothesis Hoff : (0 < sizeof_off_t)%Z.
Hypothesis Hsize : (0 < sizeof_size_t)%Z.
Local Open Scope Z_scope.

Local Abbreviation SIZE_MAX := (Posix.SIZE_MAX sizeof_size_t).

Lemma size_max_pos : 255 <= SIZE_MAX.
Proof.
  unfold Posix.SIZE_MAX.
  assert (2 ^ 8 <= 2 ^ (8 * sizeof_size_t)) by (apply Z.pow_le_mono_r; lia).
  change (2 ^ 8) with 256 in H. lia.
Qed.

Lemma to_size_t_small (x : Z) :
  0 <= x <= SIZE_MAX -> to_size_t sizeof_size_t x = x.
Proof.
  unfold to_size_t, Posix.SIZE_MAX. intros H. apply Z.mod_small. lia.
Qed.

Lemma off_max_below (x : Z) :
  sizeof_off_t <= sizeof_size_t -> x < 2 ^ (8 * sizeof_off_t - 1) ->
  x < SIZE_MAX.
Proof.
  intros Hle Hx. unfold Posix.SIZE_MAX.
  assert (H1 : 2 ^ (8 * sizeof_off_t - 1) <= 2 ^ (8 * sizeof_size_t - 1))
    by (apply Z.pow_le_mono_r; lia).
  assert (H2 : 2 ^ (8 * sizeof_size_t) = 2 * 2 ^ (8 * sizeof_size_t - 1)).
  { rewrite <- Z.pow_succ_r by lia. f_equal. lia. }
  assert (H3 : 2 ^ 7 <= 2 ^ (8 * sizeof_size_t - 1))
    by (apply Z.pow_le_mono_r; lia).
  change (2 ^ 7) with 128 in H3. lia.
Qed.

Lemma read_link_overflow (sb : stat) (lnk : option (list byte)) (w : world U) :
  S_ISLNK (st_mode sb) = true ->
  0 <= st_size sb < 2 ^ (8 * sizeof_off_t - 1) ->
  SIZE_MAX <= st_size sb ->
  read_link sizeof_off_t sizeof_size_t sb lnk w
  = inr (None, set_errno w EOVERFLOW).
Proof.
  intros Hl Hr Hov. unfold read_link. rewrite Hl.
  destruct (Z.ltb_spec sizeof_size_t sizeof_off_t) as [Hlt|Hge]; cbn [andb].
  - destruct (Z.ltb_spec SIZE_MAX (st_size sb)) as [Hgt|Hle]; [reflexivity|].
    assert (Heq : st_size sb = SIZE_MAX) by lia.
    unfold SZ_ADD_OV. rewrite to_size_t_small by (pose proof size_max_pos; lia).
    rewrite Heq.
    destruct (Z.ltb_spec SIZE_MAX (SIZE_MAX + 1)); [reflexivity|lia].
  - pose proof (@off_max_below (st_size sb) Hge (proj2 Hr)). lia.
Qed.

Lemma read_link_fits (sb : stat) (lnk : option (list byte)) (w w1 : world U)
      (a : nat) :
  S_ISLNK (st_mode sb) = true ->
  0 <= st_size sb < SIZE_MAX ->
  alloc w = (Some a, w1) ->
  read_link sizeof_off_t sizeof_size_t sb lnk w
  = match lnk with
    | Some tgt =>
        inl (Some (fill_link (st_size sb + 1) (st_size sb) (st_size sb) tgt),
             buf_allocated w1)
    | None =>
        inr (Some (repeat x00 (Z.to_nat (st_size sb + 1))),
             set_errno (buf_allocated w1) E_os)
    end.
Proof.
  intros Hl Hr Ha. unfold read_link. rewrite Hl.
  destruct (Z.ltb_spec SIZE_MAX (st_size sb)) as [Hgt|Hle]; [lia|].
  rewrite andb_false_r.
  unfold SZ_ADD_OV. rewrite to_size_t_small by lia.
  destruct (Z.ltb_spec SIZE_MAX (st_size sb + 1)); [lia|].
  rewrite to_size_t_small by lia. rewrite Ha. reflexivity.
Qed.

Lemma fill_link_spec (n : Z) (tgt : list byte) :
  0 <= n ->
  let buf := fill_link (n + 1) n n tgt in
  let k := Z.to_nat n in
  List.length buf = (k + 1)%nat /\
  nth k buf xff = x00 /\
  firstn k buf = firstn k tgt ++ repeat x00 (k - List.length tgt) /\
  (List.length tgt = k -> buf = tgt ++ [x00]).
Proof.
  intros Hn buf k. unfold buf, fill_link. fold k.
  replace (Z.to_nat (n + 1)) with (k + 1)%nat by (unfold k; lia).
  set (got := firstn k tgt).
  assert (Hg : (List.length got <= k)%nat) by apply firstn_le_length.
  set (zeros := repeat x00 (k + 1 - List.length got)).
  assert (Hz : zeros = repeat x00 (k - List.length got) ++ [x00]).
  { unfold zeros. replace (k + 1 - List.length got)%nat
      with ((k - List.length got) + 1)%nat by lia.
    now rewrite repeat_app. }
  assert (Hlen : List.length (got ++ zeros) = (k + 1)%nat).
  { rewrite length_app. unfold zeros. rewrite repeat_length. lia. }
  rewrite store_eq by lia.
  assert (Hpre : firstn k (got ++ zeros)
                 = got ++ repeat x00 (k - List.length got)).
  { rewrite Hz, app_assoc, firstn_app.
    assert (Hl2 : List.length (got ++ repeat x00 (k - List.length got)) = k)
      by (rewrite length_app, repeat_length; lia).
    rewrite Hl2, Nat.sub_diag, firstn_0, app_nil_r.
    apply firstn_all2. lia. }
  assert (Hsk : skipn (S k) (got ++ zeros) = [])
    by (apply skipn_all2; lia).
  rewrite Hpre, Hsk.
  assert (Hl3 : List.length (got ++ repeat x00 (k - List.length got)) = k)
    by (rewrite length_app, repeat_length; lia).
  assert (Hgl : List.length got = Nat.min k (List.length tgt))
    by (unfold got; apply length_firstn).
  repeat split.
  - rewrite length_app. cbn. lia.
  - rewrite app_nth2 by lia. rewrite Hl3, Nat.sub_diag. reflexivity.
  - rewrite firstn_app, Hl3, Nat.sub_diag, firstn_0, app_nil_r.
    rewrite firstn_all2 by lia.
    f_equal. f_equal. lia.
  - intros Ht. unfold got. rewrite <- Ht, firstn_all, Nat.sub_diag.
    cbn. now rewrite app_nil_r.
Qed.

End SymlinkSize.

(** C7.  A symlink entry that reaches the [if (S_ISLNK(sb.st_mode))] block.
    When [st_size + 1] does not fit [size_t] the turn of the loop ends at
    once with -1, [errno = EOVERFLOW] in the [perror("readlink")] line,
    whatever would follow.  Otherwise the buffer holds [st_size + 1] bytes,
    [readlinkat] is given room for [st_size] bytes, and the byte at
    [st_size] is the terminator.  Every scan that wrote to [stderr]
    returns -1. *)
Theorem symlink_target_buffer (U : Type) (M : Fstree.dir_scan_masks)
        (sizeof_off_t sizeof_size_t : Z) (fs : Fstree.fstree)
        (cb : option (Scan.scan_node_callback U)) (flags devstart : Z)
        (nm : string) (sb : Fstree.stat) (lnk : option (list byte))
        (subdir : option Posix.fsdir) :
  (0 < sizeof_off_t)%Z -> (0 < sizeof_size_t)%Z ->
  Fstree.S_ISLNK (Fstree.st_mode sb) = true ->
  (0 <= Fstree.st_size sb < 2 ^ (8 * sizeof_off_t - 1))%Z ->
  String.eqb nm ".." || String.eqb nm "." = false ->
  Posix.skip_by_type M flags (Fstree.st_mode sb) = false ->
  Fstree.has_flag flags (Fstree.DIR_SCAN_ONE_FILESYSTEM M)
  && negb (Fstree.st_dev sb =? devstart)%Z = false ->
  let k := Z.to_nat (Fstree.st_size sb) in
  ((Posix.SIZE_MAX sizeof_size_t <= Fstree.st_size sb)%Z ->
   forall recurse continue root (w : Scan.world U),
     Posix.scan_entry M sizeof_off_t sizeof_size_t fs cb flags devstart
                      recurse continue (Posix.FsEnt nm (Some sb) lnk subdir)
                      root w
     = ((-1)%Z, root,
        Scan.fd_closed
          (Scan.perror (Scan.set_errno w Scan.EOVERFLOW) "readlink"))) /\
  ((Fstree.st_size sb < Posix.SIZE_MAX sizeof_size_t)%Z ->
   forall (w w1 : Scan.world U) a tgt,
     Scan.alloc w = (Some a, w1) -> lnk = Some tgt ->
     exists buf,
       Posix.read_link sizeof_off_t sizeof_size_t sb lnk w
       = inl (Some buf, Scan.buf_allocated w1) /\
       List.length buf = k + 1 /\
       nth k buf xff = x00 /\
       firstn k buf = firstn k tgt ++ repeat x00 (k - List.length tgt) /\
       (List.length tgt = k -> buf = tgt ++ [x00])) /\
  (forall d root dev (w : Scan.world U),
      1 <= Scan.open_fds w ->
      let '(ret, _, w') :=
        Posix.populate_dir M sizeof_off_t sizeof_size_t fs cb flags
                           d root dev w in
      (ret = 0 \/ ret = -1)%Z /\
      exists m, Scan.stderr w' = Scan.stderr w ++ m /\ (ret = 0%Z -> m = [])).
Proof.
  intros Hoff Hsize Hlnk Hrange Hdots Htype Hdev k.
  split; [|split].
  - intros Hov recurse continue root w. unfold Posix.scan_entry.
    rewrite Hdots, Htype, Hdev.
    rewrite (@read_link_overflow U sizeof_off_t sizeof_size_t Hoff Hsize
                                 sb lnk w Hlnk Hrange Hov).
    reflexivity.
  - intros Hfit w w1 a tgt Ha ->.
    rewrite (@read_link_fits U sizeof_off_t sizeof_size_t
                             sb (Some tgt) w w1 a Hlnk
                             (conj (proj1 Hrange) Hfit) Ha).
    eexists. split; [reflexivity|].
    apply fill_link_spec. exact (proj1 Hrange).
  - intros d root dev w Hfd.
    pose proof (@populate_dir_quiet U M sizeof_off_t sizeof_size_t fs cb flags
                                    d root dev w Hfd) as H.
    destruct (Posix.populate_dir _ _ _ _ _ _ _ _ _ _) as [[ret root'] w'].
    destruct H as (R1 & _ & _ & R4). split; assumption.
Qed.

(** 32 bit [size_t], 64 bit [off_t] and a link whose size is [SIZE_MAX]. *)
Lemma symlink_target_buffer_witness :
  let sb := Fstree.mk_stat 0xA1FF 1 0 0 0xFFFFFFFF 0 in
  let w := Scan.mk_world tt 1 [] 1 0 [] Scan.E_os [] in
  let root := Fstree.Node 0 "" 0x41ed 0 0 0 None [] in
  Posix.scan_entry Fstree.example_masks 8 4 (Fstree.mk_fstree 0) None 0 1
                   (fun _ n w => (0%Z, n, w)) (fun r w => (0%Z, r, w))
                   (Posix.FsEnt "l" (Some sb) None None) root w
  = ((-1)%Z, root,
     Scan.mk_world tt 1 [] 0 0 [] Scan.EOVERFLOW
                   [Scan.Perror "readlink" Scan.EOVERFLOW]).
Proof.
  intros sb w root.
  refine (proj1 (@symlink_target_buffer unit Fstree.example_masks 8 4
                   (Fstree.mk_fstree 0) None 0 1 "l" sb None None
                   _ _ _ _ _ _ _) _ (fun _ n w => (0%Z, n, w))
                (fun r w => (0%Z, r, w)) root w);
    try reflexivity; try (split; [discriminate|reflexivity]).
Defined.

(** ** Discarding a node *)

Section Discard.
Import Fstree Scan Posix PosixSpec.

Lemma unlink_after_remove (c : tree_node) (rest : list tree_node) (a : nat) :
  unlink_after (c :: rest) a = c :: remove_addr rest a.
Proof.
  revert c. induction rest as [|nx rest IH]; intros c; [reflexivity|].
  cbn [unlink_after remove_addr].
  destruct (addr nx =? a); [reflexivity|]. f_equal. apply IH.
Qed.

Lemma discard_node_children {U : Type} (root n : tree_node) (w : world U) :
  discard_node root n w
  = (set_children root (remove_addr (children root) (addr n)), free_node w n).
Proof.
  unfold discard_node. f_equal. f_equal.
  destruct (children root) as [|c rest]; [reflexivity|].
  cbn [remove_addr]. destruct (addr c =? addr n); [reflexivity|].
  apply unlink_after_remove.
Qed.

Lemma remove_addr_middle (l1 l2 : list tree_node) (n : tree_node) :
  ~ In (addr n) (map addr l1) ->
  remove_addr (l1 ++ n :: l2) (addr n) = l1 ++ l2.
Proof.
  induction l1 as [|c l1 IH]; cbn; intros Hn.
  - now rewrite Nat.eqb_refl.
  - destruct (Nat.eqb_spec (addr c) (addr n)) as [E|_]; [tauto|].
    f_equal. apply IH. tauto.
Qed.

Lemma insert_sorted_split (l : list tree_node) (n : tree_node) :
  exists l1 l2, l = l1 ++ l2 /\ insert_sorted l n = l1 ++ n :: l2.
Proof.
  induction l as [|c l IH]; cbn.
  - exists [], []. split; reflexivity.
  - destruct (String.ltb (name c) (name n)).
    + destruct IH as (l1 & l2 & -> & ->). exists (c :: l1), l2.
      split; reflexivity.
    + exists [], (c :: l). split; reflexivity.
Qed.

Lemma below_fresh (k : nat) (l : list tree_node) (a : nat) :
  below k l -> k <= a -> ~ In a (map addr l).
Proof.
  intros Hb Hk Hin. apply in_map_iff in Hin. destruct Hin as (c & <- & Hc).
  unfold below in Hb. rewrite Forall_forall in Hb. specialize (Hb c Hc). lia.
Qed.

Lemma remove_inserted (l : list tree_node) (n : tree_node) :
  ~ In (addr n) (map addr l) ->
  remove_addr (insert_sorted l n) (addr n) = l.
Proof.
  intros Hn. destruct (insert_sorted_split l n) as (l1 & l2 & Hl & ->).
  rewrite remove_addr_middle; [now symmetry|].
  intros Hin. apply Hn. rewrite Hl, map_app. apply in_or_app. now left.
Qed.

Lemma set_children_same (root : tree_node) :
  set_children root (children root) = root.
Proof. now destruct root. Qed.

End Discard.

(** C6.  The callback returns a positive value for the node of an entry.
    With the sibling list made of nodes allocated earlier, the turn of the
    loop hands on the destination node exactly as it was before the entry
    (the new node unlinked, its siblings in their order), the node freed,
    to the remaining turns; the recursive call plays no part.  In general
    [discard_node] unlinks the first sibling at the address of [n] and
    frees [n]. *)
Theorem callback_discard (U : Type) (M : Fstree.dir_scan_masks)
        (sizeof_off_t sizeof_size_t : Z) (fs : Fstree.fstree)
        (cb : option (Scan.scan_node_callback U)) (flags devstart : Z)
        (nm : string) (sb : Fstree.stat) (lnk : option (list byte))
        (subdir : option Posix.fsdir)
        (root : Fstree.tree_node) (w w1 w2 : Scan.world U)
        (extra : option (list byte)) (n root2 : Fstree.tree_node) (ret : Z) :
  String.eqb nm ".." || String.eqb nm "." = false ->
  Posix.skip_by_type M flags (Fstree.st_mode sb) = false ->
  Fstree.has_flag flags (Fstree.DIR_SCAN_ONE_FILESYSTEM M)
  && negb (Fstree.st_dev sb =? devstart)%Z = false ->
  Posix.read_link sizeof_off_t sizeof_size_t sb lnk w = inl (extra, w1) ->
  Posix.node_for M fs cb flags nm (Posix.default_time M fs flags sb)
                 extra root w1 = Posix.NodeOk n root2 ret w2 ->
  (0 < ret)%Z ->
  PosixSpec.below (Scan.next_addr w) (Fstree.children root) ->
  (forall recurse continue,
      Posix.scan_entry M sizeof_off_t sizeof_size_t fs cb flags devstart
                       recurse continue (Posix.FsEnt nm (Some sb) lnk subdir)
                       root w
      = continue root (Scan.free_node (Scan.free_extra w2 extra) n)) /\
  Fstree.children root2 = Fstree.insert_sorted (Fstree.children root) n /\
  (forall (r : Fstree.tree_node) (m : Fstree.tree_node) (v : Scan.world U) l1 l2,
      Fstree.children r = l1 ++ m :: l2 ->
      ~ In (Fstree.addr m) (map Fstree.addr l1) ->
      Posix.discard_node r m v
      = (Fstree.set_children r (l1 ++ l2), Scan.free_node v m)).
Proof.
  intros Hdots Htype Hdev Hrl Hnode Hpos Hbelow.
  assert (Hnew : root2 = Fstree.fstree_insert_sorted root n /\
                 Scan.next_addr w <= Fstree.addr n).
  { unfold Posix.node_for in Hnode.
    match type of Hnode with
    | context [if ?c then _ else _] => destruct c
    end.
    - destruct (Fstree.get_node_by_name root nm); [|discriminate].
      injection Hnode as _ _ <- _. lia.
    - destruct (Scan.alloc w1) as [[a|] w1'] eqn:Ha; [|discriminate].
      destruct (Scan.call_cb cb fs _ w1') as [r w3].
      injection Hnode as <- <- <- <-. split; [reflexivity|].
      cbn [Fstree.mknode_at Fstree.addr].
      unfold Scan.alloc in Ha.
      pose proof (@read_link_ok U sizeof_off_t sizeof_size_t (fun _ => [])
                                sb lnk w w1 extra Hrl) as (_ & _ & _ & Hle & _).
      destruct (Scan.allocs w1) as [|[|] rest]; try discriminate Ha;
        injection Ha as <- _; exact Hle. }
  destruct Hnew as [-> Hfresh].
  split; [|split].
  - intros recurse continue. unfold Posix.scan_entry.
    rewrite Hdots, Htype, Hdev, Hrl, Hnode.
    destruct (Z.ltb_spec ret 0); [lia|].
    destruct (Z.ltb_spec 0 ret); [|lia].
    rewrite discard_node_children.
    cbn [Fstree.fstree_insert_sorted Fstree.set_children Fstree.children].
    rewrite remove_inserted by (eapply below_fresh; eassumption).
    f_equal. now destruct root.
  - reflexivity.
  - intros r m v l1 l2 Hr Hm. rewrite discard_node_children, Hr.
    now rewrite remove_addr_middle.
Qed.

(** The entry [b] arrives in a directory node that holds [a], and the
    callback discards it. *)
Lemma callback_discard_witness :
  let root := Sample.dir_node 0 "" [Sample.file_node 1 "a"] in
  PosixSpec.below 2 (Fstree.children root) /\
  Posix.scan_entry Fstree.example_masks 8 8 (Fstree.mk_fstree 5)
                   (Some (Sample.answer "b" 1)) 0 1
                   (fun _ n w => (0%Z, n, w)) (fun r w => (0%Z, r, w))
                   (Sample.file "b") root (Sample.process 2)
  = (0%Z, root, Scan.mk_world tt 3 [] 1 0 [2] Scan.E_os []).
Proof.
  intros root.
  assert (Hb : PosixSpec.below 2 (Fstree.children root))
    by (repeat constructor).
  split; [exact Hb|].
  exact (proj1 (@callback_discard unit Fstree.example_masks 8 8
                  (Fstree.mk_fstree 5) (Some (Sample.answer "b" 1)) 0 1
                  "b" Sample.file_stat None None root
                  (Sample.process 2) (Sample.process 2)
                  (Scan.mk_world tt 3 [] 1 0 [] Scan.E_os [])
                  None
                  (Fstree.Node 2 "b" 0x81A4 1000 1000 5 None [])
                  (Sample.dir_node 0 ""
                     [Sample.file_node 1 "a";
                      Fstree.Node 2 "b" 0x81A4 1000 1000 5 None []])
                  1 eq_refl eq_refl eq_refl eq_refl eq_refl eq_refl Hb)
               (fun _ n w => (0%Z, n, w)) (fun r w => (0%Z, r, w))).
Defined.

(** Entries [a], [b], [c] and a callback that discards [b]: the children
    are [a] and [c] in that order, and [b] was freed. *)
Example callback_discard_abc :
  let '(ret, root, w) :=
    Posix.populate_dir Fstree.example_masks 8 8 (Fstree.mk_fstree 5)
                       (Some (Sample.answer "b" 1)) 0
                       (Sample.top [Sample.file "a"; Sample.file "b";
                                    Sample.file "c"])
                       (Sample.dir_node 0 "" []) 1 (Sample.process 1) in
  ret = 0%Z /\ map Fstree.name (Fstree.children root) = ["a"; "c"]%string /\
  map Fstree.addr (Fstree.children root) = [1; 3] /\ Scan.freed w = [2].
Proof. repeat split; reflexivity. Qed.

(** In the portable walker a node the callback discards is freed before it
    is linked: the destination node is as it was. *)
Lemma portable_discard (U : Type) (M : Fstree.dir_scan_masks)
      (fs : Fstree.fstree) (cb : option (Scan.scan_node_callback U))
      (flags : Z) (root : Fstree.tree_node) (entry : Portable.dir_entry)
      (w w1 w2 : Scan.world U) (a : nat) (ret : Z) :
  String.eqb (Portable.ent_name entry) "."
  || String.eqb (Portable.ent_name entry) ".." = false ->
  (if Fstree.S_ISDIR (Portable.ent_mode entry)
   then Fstree.has_flag flags (Fstree.DIR_SCAN_NO_DIR M)
   else Fstree.has_flag flags (Fstree.DIR_SCAN_NO_FILE M)) = false ->
  Scan.alloc w = (Some a, w1) ->
  Scan.call_cb cb fs (Portable.fresh_node a entry) w1 = (ret, w2) ->
  (0 < ret)%Z ->
  Portable.add_node M fs cb flags root entry w
  = (0%Z, root, Scan.free_node w2 (Portable.fresh_node a entry)).
Proof.
  unfold Portable.add_node. intros Hdots Htype Ha Hc Hpos.
  rewrite Hdots, Htype, Ha, Hc.
  destruct (Z.eqb_spec ret 0); [lia|]. cbn [negb].
  destruct (Z.ltb_spec ret 0); [lia|reflexivity].
Qed.

(** ** Directories left out of the tree *)

Section ExcludeDirectories.
Import Fstree Scan Posix.

Lemma dir_not_skipped (M : dir_scan_masks) (flags md : Z) :
  S_ISDIR md = true -> skip_by_type M flags md = false.
Proof.
  unfold S_ISDIR, skip_by_type. intros H. apply Z.eqb_eq in H. rewrite H.
  reflexivity.
Qed.

End ExcludeDirectories.

(** C3, as the code has it.  A directory entry that is met while
    [DIR_SCAN_NO_DIR] is set: no node is made and the callback is not
    called.  Without a child of that name in the destination node the turn
    hands the node and the state on as they are.  With such a child the
    turn goes on as for an accepted node: if that child is itself a
    directory node and recursion is enabled, the walker opens the
    directory and scans it into that child, and otherwise hands the node
    and the state on as they are. *)
Theorem exclude_directories_overlay (U : Type) (M : Fstree.dir_scan_masks)
        (sizeof_off_t sizeof_size_t : Z) (fs : Fstree.fstree)
        (cb : option (Scan.scan_node_callback U)) (flags devstart : Z)
        (nm : string) (sb : Fstree.stat) (lnk : option (list byte))
        (subdir : option Posix.fsdir) recurse continue
        (root : Fstree.tree_node) (w : Scan.world U) :
  Fstree.S_ISDIR (Fstree.st_mode sb) = true ->
  Fstree.has_flag flags (Fstree.DIR_SCAN_NO_DIR M) = true ->
  String.eqb nm ".." || String.eqb nm "." = false ->
  Fstree.has_flag flags (Fstree.DIR_SCAN_ONE_FILESYSTEM M)
  && negb (Fstree.st_dev sb =? devstart)%Z = false ->
  Posix.scan_entry M sizeof_off_t sizeof_size_t fs cb flags devstart
                   recurse continue (Posix.FsEnt nm (Some sb) lnk subdir)
                   root w
  = match Fstree.get_node_by_name root nm with
    | None => continue root w
    | Some n =>
        if Fstree.S_ISDIR (Fstree.mode n)
           && negb (Fstree.has_flag flags (Fstree.DIR_SCAN_NO_RECURSION M))
        then
          match subdir with
          | None =>
              Posix.fail root
                (Scan.perror (Scan.set_errno w Scan.E_os) (Fstree.name n)) None
          | Some d' =>
              let '(r, n', w') := recurse d' n (Scan.fd_opened w) in
              let root' :=
                Fstree.set_children root
                  (Fstree.update_child (Fstree.children root)
                                       (Fstree.addr n) n') in
              if (r =? 0)%Z then continue root' w'
              else Posix.fail root' w' None
          end
        else continue root w
    end.
Proof.
  intros Hdir Hno Hdots Hdev. unfold Posix.scan_entry.
  rewrite Hdots, (dir_not_skipped M flags _ Hdir), Hdev.
  unfold Posix.read_link.
  rewrite (@isdir_not_lnk _ Hdir).
  unfold Posix.node_for.
  rewrite default_time_mode, Hdir, Hno. cbn [andb].
  destruct (Fstree.get_node_by_name root nm) as [n|]; [|reflexivity].
  cbn [Scan.free_extra Z.ltb Z.compare]. reflexivity.
Qed.

(** The tree holds the directory node [etc]; the entry [etc] of the
    directory on disk is scanned into it. *)
Lemma exclude_directories_overlay_witness :
  let etc := Sample.dir_node 1 "etc" [Sample.file_node 2 "passwd"] in
  let root := Sample.dir_node 0 "" [etc] in
  let d' := Posix.FsDir false (Some Sample.dir_stat) [Sample.file "shadow"]
                        false in
  let recurse :=
    fun d n w => Posix.populate_dir Fstree.example_masks 8 8
                                    (Fstree.mk_fstree 5) None 0x40 d n 1 w in
  let continue := fun r (w : Scan.world unit) => (0%Z, r, w) in
  Posix.scan_entry Fstree.example_masks 8 8 (Fstree.mk_fstree 5) None
                   0x40 1 recurse continue
                   (Sample.folder "etc" [Sample.file "shadow"])
                   root (Sample.process 3)
  = let '(r, n', w') := recurse d' etc (Scan.fd_opened (Sample.process 3)) in
    let root' := Sample.dir_node 0 "" [n'] in
    if (r =? 0)%Z then continue root' w' else Posix.fail root' w' None.
Proof.
  intros etc root d' recurse continue.
  exact (@exclude_directories_overlay unit Fstree.example_masks 8 8
           (Fstree.mk_fstree 5) None 0x40 1 "etc" Sample.dir_stat None
           (Some d') recurse continue root (Sample.process 3)
           eq_refl eq_refl eq_refl eq_refl).
Defined.

(** The overlay of the design document: [etc] is in the tree and gains
    [shadow]; [tmp] is not in the tree and nothing is added for it. *)
Example exclude_directories_etc_tmp :
  let root := Sample.dir_node 0 ""
                [Sample.dir_node 1 "etc" [Sample.file_node 2 "passwd"]] in
  let '(ret, root', w) :=
    Posix.populate_dir Fstree.example_masks 8 8 (Fstree.mk_fstree 5) None 0x40
                       (Sample.top [Sample.folder "etc" [Sample.file "shadow"];
                                    Sample.folder "tmp" [Sample.file "x"]])
                       root 1 (Sample.process 3) in
  ret = 0%Z /\
  Sample.names root' = [""; "etc"; "passwd"; "shadow"]%string.
Proof. split; reflexivity. Qed.

(** C3 as stated fails: the tree holds a node [etc] that is a regular
    file; recursion is enabled, and the walker does not descend into the
    directory [etc] on disk. *)
Lemma exclude_directories_file_node :
  let root := Sample.dir_node 0 "" [Sample.file_node 1 "etc"] in
  Fstree.get_node_by_name root "etc" = Some (Sample.file_node 1 "etc") /\
  Fstree.has_flag 0x40 (Fstree.DIR_SCAN_NO_RECURSION Fstree.example_masks)
  = false /\
  (forall recurse continue,
      Posix.scan_entry Fstree.example_masks 8 8 (Fstree.mk_fstree 5) None
                       0x40 1 recurse continue
                       (Sample.folder "etc" [Sample.file "shadow"])
                       root (Sample.process 2)
      = continue root (Sample.process 2)) /\
  Posix.populate_dir Fstree.example_masks 8 8 (Fstree.mk_fstree 5) None 0x40
                     (Sample.top [Sample.folder "etc" [Sample.file "shadow"]])
                     root 1 (Sample.process 2)
  = (0%Z, root, Scan.fd_closed (Sample.process 2)).
Proof. repeat split; reflexivity. Qed.

(** ** A callback that aborts *)

Section Abort.
Import Fstree Scan Posix PosixSpec.
Context {U : Type}.
Variable M : dir_scan_masks.
Variables sizeof_off_t sizeof_size_t : Z.
Variable fs : fstree.
Variable f : scan_node_callback U.
Variable flags : Z.

Lemma logging_traced : traced (@snd U (list Z)) (Some (logging f)).
Proof.
  intros g Hg. injection Hg as <-. left. intros u fs0 n.
  unfold logging. now destruct (f (fst u) fs0 n).
Qed.

(** Scans with the logging callback: the return value is 0 or -1, the
    directory handle is closed, and after 0 no value the callback returned
    during the scan was negative. *)
Lemma populate_dir_logged (d : fsdir) (root : tree_node) (devstart : Z)
      (w : world (U * list Z)) :
  1 <= open_fds w ->
  let '(ret, _, w') :=
    populate_dir M sizeof_off_t sizeof_size_t fs (Some (logging f)) flags
                 d root devstart w in
  (ret = 0 \/ ret = -1)%Z /\ S (open_fds w') = open_fds w /\
  exists l, snd (user w') = l ++ snd (user w) /\
            (Exists (fun v => v < 0)%Z l -> ret = (-1)%Z).
Proof.
  intros Hfd.
  pose proof (@populate_dir_returned _ M sizeof_off_t sizeof_size_t fs _ flags
                _ logging_traced d root devstart w Hfd) as H.
  destruct (populate_dir _ _ _ _ _ _ _ _ _ _) as [[ret root'] w'].
  destruct H as (R1 & R2 & _ & _ & _ & l & R5 & R6).
  split; [exact R1|]. split; [exact R2|]. exists l. split; [exact R5|].
  intros Hex. destruct R1 as [-> | ->]; [|reflexivity].
  destruct (R6 eq_refl) as [_ Hall].
  apply Exists_exists in Hex. destruct Hex as (v & Hin & Hv).
  rewrite Forall_forall in Hall. specialize (Hall v Hin). lia.
Qed.

Variable os_open : string -> option fsdir.

Lemma fstree_from_subdir_logged (root : tree_node) (path : string)
      (subdir : option string) (w : world (U * list Z)) :
  let '(ret, _, w') :=
    fstree_from_subdir M sizeof_off_t sizeof_size_t fs (Some (logging f))
                       flags os_open root path subdir w in
  (ret = 0 \/ ret = -1)%Z /\ open_fds w' = open_fds w /\
  exists l, snd (user w') = l ++ snd (user w) /\
            (Exists (fun v => v < 0)%Z l -> ret = (-1)%Z).
Proof.
  unfold fstree_from_subdir.
  assert (Hquit : forall (w1 : world (U * list Z)),
             open_fds w1 = open_fds w -> user w1 = user w ->
             (-1 = 0 \/ -1 = -1)%Z /\ open_fds w1 = open_fds w /\
             exists l, snd (user w1) = l ++ snd (user w) /\
                       (Exists (fun v => v < 0)%Z l -> (-1 = -1)%Z)).
  { intros w1 H1 H2. split; [now right|]. split; [exact H1|].
    exists []. rewrite H2. split; reflexivity. }
  destruct (negb (S_ISDIR (mode root))); [now apply Hquit|].
  destruct (os_open path) as [d|]; [|now apply Hquit].
  assert (Hgo : forall d0 (w1 : world (U * list Z)),
             open_fds w1 = S (open_fds w) -> user w1 = user w ->
             let '(ret, _, w') :=
               match dir_stat d0 with
               | Some sb =>
                   populate_dir M sizeof_off_t sizeof_size_t fs
                                (Some (logging f)) flags d0 root (st_dev sb) w1
               | None =>
                   ((-1)%Z, root,
                    fd_closed (fprintf (set_errno w1 E_os)
                                       "path/subdir: strerror(errno)"))
               end in
             (ret = 0 \/ ret = -1)%Z /\ open_fds w' = open_fds w /\
             exists l, snd (user w') = l ++ snd (user w) /\
                       (Exists (fun v => v < 0)%Z l -> ret = (-1)%Z)).
  { intros d0 w1 H1 H2. destruct (dir_stat d0) as [sb|].
    - pose proof (populate_dir_logged d0 root (st_dev sb) w1) as Hp.
      destruct (populate_dir _ _ _ _ _ _ _ _ _ _) as [[ret root'] w'].
      destruct Hp as (P1 & P2 & l & P3 & P4); [lia|].
      split; [exact P1|]. split; [lia|]. exists l. rewrite <- H2. now split.
    - apply Hquit; [cbn; lia|exact H2]. }
  destruct subdir as [sd|].
  - destruct (openat d sd) as [d'|].
    + apply Hgo; reflexivity.
    + apply Hquit; reflexivity.
  - apply Hgo; reflexivity.
Qed.

End Abort.

(** What holds of C2.  The callback returns a negative value for the
    node of an entry.  In the POSIX walker the turn of the loop returns -1
    at once, whatever would follow and without a recursive call, the
    directory handle closed and the symlink buffer released; the node stays
    linked in the child list of the destination node and is not freed.
    Every scan through [fstree_from_subdir] during which the callback
    returned a negative value returns -1 with as many descriptors open as
    before.  In the portable walker the node is freed without being linked
    and [scan_dir] returns -1 with its iterator dropped. *)
Theorem callback_abort (U : Type) (M : Fstree.dir_scan_masks)
        (sizeof_off_t sizeof_size_t : Z) (fs : Fstree.fstree)
        (cb : option (Scan.scan_node_callback U))
        (f : Scan.scan_node_callback U) (flags : Z)
        (os_open : string -> option Posix.fsdir) :
  (forall devstart nm sb lnk subdir root (w w1 w2 : Scan.world U)
          extra n root2 ret,
      String.eqb nm ".." || String.eqb nm "." = false ->
      Posix.skip_by_type M flags (Fstree.st_mode sb) = false ->
      Fstree.has_flag flags (Fstree.DIR_SCAN_ONE_FILESYSTEM M)
      && negb (Fstree.st_dev sb =? devstart)%Z = false ->
      Posix.read_link sizeof_off_t sizeof_size_t sb lnk w = inl (extra, w1) ->
      Posix.node_for M fs cb flags nm (Posix.default_time M fs flags sb)
                     extra root w1 = Posix.NodeOk n root2 ret w2 ->
      (ret < 0)%Z ->
      (forall recurse continue,
          Posix.scan_entry M sizeof_off_t sizeof_size_t fs cb flags devstart
                           recurse continue
                           (Posix.FsEnt nm (Some sb) lnk subdir) root w
          = ((-1)%Z, root2, Scan.fd_closed (Scan.free_extra w2 extra))) /\
      root2 = Fstree.fstree_insert_sorted root n /\
      In n (Fstree.children root2) /\
      Scan.freed (Scan.fd_closed (Scan.free_extra w2 extra)) = Scan.freed w) /\
  (forall root path subdir (w : Scan.world (U * list Z)),
      let '(ret, _, w') :=
        Posix.fstree_from_subdir M sizeof_off_t sizeof_size_t fs
                                 (Some (PosixSpec.logging f)) flags os_open
                                 root path subdir w in
      (ret = 0 \/ ret = -1)%Z /\ Scan.open_fds w' = Scan.open_fds w /\
      exists l, snd (Scan.user w') = l ++ snd (Scan.user w) /\
                (Exists (fun v => v < 0)%Z l -> ret = (-1)%Z)) /\
  (forall root entry (w w1 w2 : Scan.world U) a ret path rest it_fails,
      String.eqb (Portable.ent_name entry) "."
      || String.eqb (Portable.ent_name entry) ".." = false ->
      (if Fstree.S_ISDIR (Portable.ent_mode entry)
       then Fstree.has_flag flags (Fstree.DIR_SCAN_NO_DIR M)
       else Fstree.has_flag flags (Fstree.DIR_SCAN_NO_FILE M)) = false ->
      Scan.alloc w = (Some a, w1) ->
      Scan.call_cb cb fs (Portable.fresh_node a entry) w1 = (ret, w2) ->
      (ret < 0)%Z ->
      Portable.add_node M fs cb flags root entry w
      = (ret, root, Scan.free_node w2 (Portable.fresh_node a entry)) /\
      Portable.scan_loop M fs cb flags path (entry :: rest) it_fails root w
      = ((-1)%Z, root,
         Scan.fd_closed (Scan.free_node w2 (Portable.fresh_node a entry)))).
Proof.
  split; [|split].
  - intros devstart nm sb lnk subdir root w w1 w2 extra n root2 ret
           Hdots Htype Hdev Hrl Hnode Hneg.
    assert (Hnew : root2 = Fstree.fstree_insert_sorted root n /\
                   Scan.freed w2 = Scan.freed w).
    { unfold Posix.node_for in Hnode.
      match type of Hnode with
      | context [if ?c then _ else _] => destruct c
      end.
      - destruct (Fstree.get_node_by_name root nm); [|discriminate].
        injection Hnode as _ _ <- _. lia.
      - destruct (Scan.alloc w1) as [[a|] w1'] eqn:Ha; [|discriminate].
        destruct (Scan.call_cb cb fs _ w1') as [r w3] eqn:Hc.
        injection Hnode as <- <- <- <-. split; [reflexivity|].
        pose proof (@read_link_ok U sizeof_off_t sizeof_size_t (fun _ => [])
                                  sb lnk w w1 extra Hrl)
          as (_ & _ & _ & _ & Hf1 & _).
        pose proof (@alloc_some U (fun _ => []) w1 w1' a Ha)
          as (_ & _ & _ & _ & Hf2).
        assert (Hf3 : Scan.freed w3 = Scan.freed w1').
        { unfold Scan.call_cb in Hc. destruct cb as [g|].
          - destruct (g (Scan.user w1') fs _) as [r0 u0].
            now injection Hc as _ <-.
          - now injection Hc as _ <-. }
        congruence. }
    destruct Hnew as [-> Hfreed].
    split; [|split; [reflexivity|split]].
    + intros recurse continue. unfold Posix.scan_entry.
      rewrite Hdots, Htype, Hdev, Hrl, Hnode.
      destruct (Z.ltb_spec ret 0); [reflexivity|lia].
    + cbn [Fstree.fstree_insert_sorted Fstree.set_children Fstree.children].
      destruct (insert_sorted_split (Fstree.children root) n)
        as (l1 & l2 & _ & ->).
      apply in_or_app. right. now left.
    + rewrite <- Hfreed. now destruct extra.
  - intros root path subdir w.
    apply fstree_from_subdir_logged.
  - intros root entry w w1 w2 a ret path rest it_fails Hdots Htype Ha Hc Hneg.
    assert (Hadd : Portable.add_node M fs cb flags root entry w
                   = (ret, root,
                      Scan.free_node w2 (Portable.fresh_node a entry))).
    { unfold Portable.add_node. rewrite Hdots, Htype, Ha, Hc.
      destruct (Z.eqb_spec ret 0); [lia|]. cbn [negb].
      destruct (Z.ltb_spec ret 0); [reflexivity|lia]. }
    split; [exact Hadd|].
    cbn [Portable.scan_loop]. rewrite Hadd.
    destruct (Z.eqb_spec ret 0); [lia|]. reflexivity.
Qed.

(** The entry [y] arrives in an empty directory node and the callback
    aborts on it. *)
Lemma callback_abort_witness :
  Posix.scan_entry Fstree.example_masks 8 8 (Fstree.mk_fstree 5)
                   (Some (Sample.answer "y" (-1))) 0 1
                   (fun _ n w => (0%Z, n, w)) (fun r w => (0%Z, r, w))
                   (Sample.file "y") (Sample.dir_node 0 "" [])
                   (Sample.process 1)
  = ((-1)%Z,
     Sample.dir_node 0 "" [Fstree.Node 1 "y" 0x81A4 1000 1000 5 None []],
     Scan.mk_world tt 2 [] 0 0 [] Scan.E_os []).
Proof.
  exact (proj1 (proj1 (@callback_abort unit Fstree.example_masks 8 8
                         (Fstree.mk_fstree 5) (Some (Sample.answer "y" (-1)))
                         (Sample.answer "y" (-1)) 0 (fun _ => None))
                      1%Z "y"%string Sample.file_stat None None
                      (Sample.dir_node 0 "" [])
                      (Sample.process 1) (Sample.process 1)
                      (Scan.mk_world tt 2 [] 1 0 [] Scan.E_os [])
                      None
                      (Fstree.Node 1 "y" 0x81A4 1000 1000 5 None [])
                      (Sample.dir_node 0 ""
                         [Fstree.Node 1 "y" 0x81A4 1000 1000 5 None []])
                      (-1)%Z eq_refl eq_refl eq_refl eq_refl eq_refl eq_refl)
               (fun _ n w => (0%Z, n, w)) (fun r w => (0%Z, r, w))).
Defined.

(** C2 fails for the POSIX walker: with the directories
    [root/x/y] and a callback that aborts on [y], the scan returns -1, the
    node of [y] is in the tree under [x], and no node was freed. *)
Lemma callback_abort_node_stays :
  let disk := Sample.top [Sample.folder "x" [Sample.folder "y" []]] in
  let '(ret, root', w') :=
    Posix.fstree_from_dir Fstree.example_masks 8 8 (Fstree.mk_fstree 5)
                          (Some (Sample.answer "y" (-1))) 0
                          (Sample.only_root disk)
                          (Sample.dir_node 0 "" []) "root"
                          (Sample.process 1) in
  ret = (-1)%Z /\
  Sample.names root' = [""; "x"; "y"]%string /\
  Scan.freed w' = [] /\
  Scan.open_fds w' = Scan.open_fds (Sample.process 1).
Proof. repeat split; reflexivity. Qed.

(** The same scan by the portable walker: [y] is freed and not linked. *)
Example callback_abort_portable :
  let os path :=
    if String.eqb path "root"
    then Some ([Portable.mk_entry "x" 0x41ED 100], false)
    else if String.eqb path "root/x"
         then Some ([Portable.mk_entry "y" 0x41ED 100], false)
         else None in
  match Portable.fstree_from_dir Fstree.example_masks (Fstree.mk_fstree 5)
          (Some (Sample.answer "y" (-1))) 0 os 3
          (Sample.dir_node 0 "" []) "root" (Sample.process 1) with
  | Some (ret, root', w') =>
      ret = (-1)%Z /\ Sample.names root' = [""; "x"]%string /\
      Scan.freed w' = [3] /\
      Scan.open_fds w' = Scan.open_fds (Sample.process 1)
  | None => False
  end.
Proof. repeat split; reflexivity. Qed.

(** ** Staying on one file system *)

Section OneFilesystem.
Import Fstree Scan Posix PosixSpec.
Context {U : Type}.
Variable M : dir_scan_masks.
Variables sizeof_off_t sizeof_size_t : Z.
Variable fs : fstree.
Variable cb : option (scan_node_callback U).
Variable flags : Z.
Variable devstart : Z.
Hypothesis Hone : has_flag flags (DIR_SCAN_ONE_FILESYSTEM M) = true.

Local Abbreviation scan_entry' :=
  (scan_entry M sizeof_off_t sizeof_size_t fs cb flags devstart).
Local Abbreviation scan_entries' :=
  (scan_entries M sizeof_off_t sizeof_size_t fs cb flags devstart).

Lemma scan_entry_foreign recurse continue (e : fsent) (root : tree_node)
      (w : world U) :
  foreign devstart e = true ->
  scan_entry' recurse continue e root w = continue root w.
Proof.
  destruct e as [nm st lnk subdir]. unfold foreign. cbn [lstat].
  destruct st as [sb|]; [|discriminate]. intros Hdev.
  unfold scan_entry.
  destruct (_ || _); [reflexivity|].
  destruct (skip_by_type M flags (st_mode sb)); [reflexivity|].
  now rewrite Hone, Hdev.
Qed.

(** A turn of the loop depends on the recursive call and on the remaining
    turns only through their results. *)
Lemma scan_entry_ext r1 r2 c1 c2 nm st lnk (sb1 sb2 : option fsdir)
      (root : tree_node) (w : world U) :
  (forall root0 w0, c1 root0 w0 = c2 root0 w0) ->
  match sb1, sb2 with
  | Some d1, Some d2 => forall n w0, r1 d1 n w0 = r2 d2 n w0
  | None, None => True
  | _, _ => False
  end ->
  scan_entry' r1 c1 (FsEnt nm st lnk sb1) root w
  = scan_entry' r2 c2 (FsEnt nm st lnk sb2) root w.
Proof.
  intros Hc Hr. unfold scan_entry.
  destruct (_ || _); [apply Hc|].
  destruct st as [sb|]; [|reflexivity].
  destruct (skip_by_type M flags (st_mode sb)); [apply Hc|].
  destruct (_ && _); [apply Hc|].
  destruct (read_link _ _ sb lnk w) as [[extra w1]|[extra w1]]; [|reflexivity].
  destruct (node_for _ _ _ _ _ _ _ _ _) as [|w2|n root2 ret w2];
    [apply Hc|reflexivity|].
  destruct (ret <? 0)%Z; [reflexivity|].
  destruct (0 <? ret)%Z.
  { destruct (discard_node root2 n _) as [root3 w3]. apply Hc. }
  destruct (_ && _); [|apply Hc].
  destruct sb1 as [d1|], sb2 as [d2|]; try contradiction; [|reflexivity].
  rewrite Hr. destruct (r2 d2 n _) as [[r n'] w5].
  destruct (r =? 0)%Z; [apply Hc|reflexivity].
Qed.

Lemma scan_entries_prune r1 r2 (rec : fsdir -> fsdir) (rf : bool)
      (ents : list fsent) :
  Forall (fun e => match sub e with
                   | Some d' => forall n w, r1 d' n w = r2 (rec d') n w
                   | None => True
                   end) ents ->
  forall root w,
    scan_entries' r1 rf ents root w
    = scan_entries' r2 rf (prune_entries rec devstart ents) root w.
Proof.
  induction 1 as [|e rest He Hrest IH]; intros root w; [reflexivity|].
  cbn [scan_entries prune_entries].
  destruct (foreign devstart e) eqn:Hf.
  - rewrite scan_entry_foreign by exact Hf. apply IH.
  - destruct e as [nm st lnk subdir]. cbn [scan_entries].
    apply scan_entry_ext; [exact IH|].
    cbn [sub] in He. destruct subdir as [d'|]; cbn [option_map]; exact He.
Qed.

Lemma populate_dir_prune (d : fsdir) :
  forall root w,
    populate_dir M sizeof_off_t sizeof_size_t fs cb flags d root devstart w
    = populate_dir M sizeof_off_t sizeof_size_t fs cb flags
                   (prune devstart d) root devstart w.
Proof.
  induction d as [ff st ents rf IH] using fsdir_induction.
  intros root w. cbn [populate_dir prune].
  destruct ff; [reflexivity|].
  apply scan_entries_prune.
  eapply Forall_impl; [|exact IH].
  intros e He. cbv beta in *. destruct (sub e); [|exact I].
  intros n w0. apply He.
Qed.

Lemma prune_entries_foreign (rec : fsdir -> fsdir) (ents : list fsent)
      (e : fsent) :
  In e (prune_entries rec devstart ents) -> foreign devstart e = false.
Proof.
  induction ents as [|e0 rest IH]; cbn [prune_entries]; [intros []|].
  destruct (foreign devstart e0) eqn:Hf; [exact IH|].
  intros [<-|Hin]; [|now apply IH].
  destruct e0 as [nm st lnk subdir]. exact Hf.
Qed.

Lemma prune_clean (d : fsdir) :
  forall e, In e (all_entries (prune devstart d)) ->
            foreign devstart e = false.
Proof.
  induction d as [ff st ents rf IH] using fsdir_induction.
  cbn [prune all_entries]. intros e.
  induction ents as [|e0 rest IHl]; cbn [prune_entries all_entries_of];
    [intros []|].
  inversion IH as [|? ? He0 Hrest]; subst.
  destruct (foreign devstart e0) eqn:Hf; [now apply IHl|].
  cbn [all_entries_of]. intros [<-|Hin].
  - destruct e0 as [nm st0 lnk subdir]. exact Hf.
  - apply in_app_or in Hin. destruct Hin as [Hin|Hin]; [|now apply IHl].
    destruct e0 as [nm st0 lnk subdir]. cbn [sub option_map] in *.
    destruct subdir as [d'|]; cbn [option_map] in Hin; [|contradiction].
    now apply He0.
Qed.

End OneFilesystem.

(** C5.  With [DIR_SCAN_ONE_FILESYSTEM] set, an entry that [lstat] shows on
    another device than the one recorded at the start is passed over
    whatever its type: the turn of the loop hands the node and the state on
    as they are.  [fstree_from_subdir] reads the device once, from the
    directory it opened; [populate_dir] hands it to every recursive call as
    it is.  A scan is the scan of the hierarchy from which everything on
    another device has been taken out, at every depth. *)
Theorem one_filesystem (U : Type) (M : Fstree.dir_scan_masks)
        (sizeof_off_t sizeof_size_t : Z) (fs : Fstree.fstree)
        (cb : option (Scan.scan_node_callback U)) (flags : Z)
        (os_open : string -> option Posix.fsdir) :
  Fstree.has_flag flags (Fstree.DIR_SCAN_ONE_FILESYSTEM M) = true ->
  (forall devstart recurse continue e root (w : Scan.world U),
      PosixSpec.foreign devstart e = true ->
      Posix.scan_entry M sizeof_off_t sizeof_size_t fs cb flags devstart
                       recurse continue e root w
      = continue root w) /\
  (forall devstart d root (w : Scan.world U),
      Posix.populate_dir M sizeof_off_t sizeof_size_t fs cb flags
                         d root devstart w
      = Posix.populate_dir M sizeof_off_t sizeof_size_t fs cb flags
                           (PosixSpec.prune devstart d) root devstart w /\
      forall e, In e (PosixSpec.all_entries (PosixSpec.prune devstart d)) ->
                PosixSpec.foreign devstart e = false) /\
  (forall devstart ff st ents rf root (w : Scan.world U),
      Posix.populate_dir M sizeof_off_t sizeof_size_t fs cb flags
                         (Posix.FsDir ff st ents rf) root devstart w
      = if ff
        then ((-1)%Z, root,
              Scan.fd_closed
                (Scan.perror (Scan.set_errno w Scan.E_os) "fdopendir"))
        else Posix.scan_entries M sizeof_off_t sizeof_size_t fs cb flags
               devstart
               (fun d' n w' =>
                  Posix.populate_dir M sizeof_off_t sizeof_size_t fs cb flags
                                     d' n devstart w')
               rf ents root w) /\
  (forall root path (w : Scan.world U) d sb,
      Fstree.S_ISDIR (Fstree.mode root) = true ->
      os_open path = Some d -> Posix.dir_stat d = Some sb ->
      Posix.fstree_from_subdir M sizeof_off_t sizeof_size_t fs cb flags
                               os_open root path None w
      = Posix.populate_dir M sizeof_off_t sizeof_size_t fs cb flags
                           d root (Fstree.st_dev sb) (Scan.fd_opened w)) /\
  (forall root path sd (w : Scan.world U) d d' sb,
      Fstree.S_ISDIR (Fstree.mode root) = true ->
      os_open path = Some d -> Posix.openat d sd = Some d' ->
      Posix.dir_stat d' = Some sb ->
      Posix.fstree_from_subdir M sizeof_off_t sizeof_size_t fs cb flags
                               os_open root path (Some sd) w
      = Posix.populate_dir M sizeof_off_t sizeof_size_t fs cb flags
                           d' root (Fstree.st_dev sb)
                           (Scan.fd_closed
                              (Scan.fd_opened (Scan.fd_opened w)))).
Proof.
  intros Hone. repeat split.
  - intros. now apply scan_entry_foreign.
  - now apply populate_dir_prune.
  - apply prune_clean.
  - intros root path w d sb Hdir Hopen Hstat.
    unfold Posix.fstree_from_subdir. now rewrite Hdir, Hopen, Hstat.
  - intros root path sd w d d' sb Hdir Hopen Hat Hstat.
    unfold Posix.fstree_from_subdir. now rewrite Hdir, Hopen, Hat, Hstat.
Qed.

(** A directory that holds the file [a] and, on device 2, the mount point
    [mnt] with the file [b] below it. *)
Lemma one_filesystem_witness :
  let mount :=
    Posix.FsEnt "mnt" (Some (Fstree.mk_stat 0x41ED 2 0 0 0 100)) None
      (Some (Posix.FsDir false (Some (Fstree.mk_stat 0x41ED 2 0 0 0 100))
                         [Posix.FsEnt "b"
                            (Some (Fstree.mk_stat 0x81A4 2 0 0 0 100))
                            None None]
                         false)) in
  Fstree.has_flag 0x2 (Fstree.DIR_SCAN_ONE_FILESYSTEM Fstree.example_masks)
  = true /\
  Posix.populate_dir Fstree.example_masks 8 8 (Fstree.mk_fstree 5) None 0x2
                     (Sample.top [Sample.file "a"; mount])
                     (Sample.dir_node 0 "" []) 1 (Sample.process 1)
  = Posix.populate_dir Fstree.example_masks 8 8 (Fstree.mk_fstree 5) None 0x2
                       (Sample.top [Sample.file "a"])
                       (Sample.dir_node 0 "" []) 1 (Sample.process 1).
Proof.
  intros mount.
  assert (H : Fstree.has_flag 0x2 (Fstree.DIR_SCAN_ONE_FILESYSTEM
                                     Fstree.example_masks) = true)
    by reflexivity.
  split; [exact H|].
  exact (proj1 (proj1 (proj2 (@one_filesystem unit Fstree.example_masks 8 8
                                (Fstree.mk_fstree 5) None 0x2
                                (fun _ => None) H))
                      1%Z (Sample.top [Sample.file "a"; mount])
                      (Sample.dir_node 0 "" []) (Sample.process 1))).
Defined.

(** The scan of that directory: [mnt] is not in the tree, nor is [b]. *)
Example one_filesystem_mount :
  let mount :=
    Posix.FsEnt "mnt" (Some (Fstree.mk_stat 0x41ED 2 0 0 0 100)) None
      (Some (Posix.FsDir false (Some (Fstree.mk_stat 0x41ED 2 0 0 0 100))
                         [Posix.FsEnt "b"
                            (Some (Fstree.mk_stat 0x81A4 2 0 0 0 100))
                            None None]
                         false)) in
  let '(ret, root', _) :=
    Posix.fstree_from_dir Fstree.example_masks 8 8 (Fstree.mk_fstree 5) None
                          0x2 (Sample.only_root
                                 (Sample.top [Sample.file "a"; mount]))
                          (Sample.dir_node 0 "" []) "root"
                          (Sample.process 1) in
  ret = 0%Z /\ Sample.names root' = [""; "a"]%string.
Proof. split; reflexivity. Qed.

(** ** The entry point [fstree_from_subdir] *)

(** C8.  The POSIX [fstree_from_subdir] turns down a destination node that
    is not a directory before it opens anything, the tree untouched.  The
    portable [fstree_from_subdir] has no such test: on a regular file node
    it scans the directory and links the entries into that node, returning
    0.  And where the portable function scans [path] for an empty
    [subdir], the POSIX function hands the empty name to [openat], which
    fails, and returns -1. *)
Theorem from_subdir_destination (U : Type) (M : Fstree.dir_scan_masks)
        (sizeof_off_t sizeof_size_t : Z) (fs : Fstree.fstree)
        (cb : option (Scan.scan_node_callback U)) (flags : Z)
        (os_open : string -> option Posix.fsdir) :
  (forall root path subdir (w : Scan.world U),
      Fstree.S_ISDIR (Fstree.mode root) = false ->
      Posix.fstree_from_subdir M sizeof_off_t sizeof_size_t fs cb flags
                               os_open root path subdir w
      = ((-1)%Z, root,
         Scan.fprintf w
           "scanning path/subdir into root: target is not a directory")) /\
  (let os path :=
     if String.eqb path "d"
     then Some ([Portable.mk_entry "a" 0x81A4 100], false) else None in
   let root := Sample.file_node 0 "f" in
   Fstree.S_ISDIR (Fstree.mode root) = false /\
   Portable.fstree_from_subdir Fstree.example_masks (Fstree.mk_fstree 5)
                               None 0 os 1 root "d" None (Sample.process 1)
   = Some (0%Z,
           Fstree.Node 0 "f" 0x81A4 0 0 0 None
                       [Fstree.Node 1 "a" 0x81A4 0 0 5 None []],
           Scan.mk_world tt 2 [] 1 0 [] Scan.E_os [])) /\
  (forall root path d (w : Scan.world U),
      Fstree.S_ISDIR (Fstree.mode root) = true ->
      os_open path = Some d ->
      Posix.fstree_from_subdir M sizeof_off_t sizeof_size_t fs cb flags
                               os_open root path (Some ""%string) w
      = ((-1)%Z, root,
         Scan.fd_closed
           (Scan.fprintf (Scan.set_errno (Scan.fd_opened w) Scan.E_os)
                         "path/subdir: strerror(errno)"))).
Proof.
  split; [|split].
  - intros root path subdir w Hnd. unfold Posix.fstree_from_subdir.
    now rewrite Hnd.
  - split; reflexivity.
  - intros root path d w Hd Hopen. unfold Posix.fstree_from_subdir.
    now rewrite Hd, Hopen.
Qed.

(** ** The two walkers build the same tree *)

Section AgreeLists.
Import Fstree Scan Posix PosixSpec Agree.

Lemma shape_of_insert (l : list tree_node) (n : tree_node) :
  map shape_of (insert_sorted l n)
  = insert_shape (map shape_of l) (shape_of n).
Proof.
  induction l as [|c l IH]; [reflexivity|].
  cbn [insert_sorted map insert_shape].
  assert (Hn : forall t, sname (shape_of t) = name t) by (now intros []).
  rewrite !Hn. destruct (String.ltb (name c) (name n)); [|reflexivity].
  cbn [map]. now rewrite IH.
Qed.

Lemma shape_of_eq (n : tree_node) :
  shape_of n = Shape (name n) (mode n) (map shape_of (children n)).
Proof. now destruct n. Qed.

Lemma update_inserted (l : list tree_node) (n n' : tree_node) :
  ~ In (addr n) (map addr l) -> name n' = name n ->
  update_child (insert_sorted l n) (addr n) n' = insert_sorted l n'.
Proof.
  intros Hfresh Hname. induction l as [|c l IH].
  - cbn. now rewrite Nat.eqb_refl.
  - cbn [insert_sorted]. rewrite Hname.
    destruct (String.ltb (name c) (name n)).
    + cbn [update_child].
      destruct (Nat.eqb_spec (addr c) (addr n)) as [E|_].
      { exfalso. apply Hfresh. left. exact E. }
      f_equal. apply IH. intros Hin. apply Hfresh. now right.
    + cbn [update_child]. now rewrite Nat.eqb_refl.
Qed.

Lemma below_insert (k : nat) (l : list tree_node) (n : tree_node) :
  below k l -> addr n < k -> below k (insert_sorted l n).
Proof.
  unfold below. intros Hl Hn. induction Hl as [|c l Hc Hl IH]; cbn.
  - now repeat constructor.
  - destruct (String.ltb (name c) (name n)); constructor; auto.
Qed.

Lemma below_mono (j k : nat) (l : list tree_node) :
  below j l -> j <= k -> below k l.
Proof.
  unfold below. intros Hl Hjk. eapply Forall_impl; [|exact Hl].
  cbn. intros c Hc. lia.
Qed.

Lemma forall_insert (P : tree_node -> Prop) (l : list tree_node)
      (n : tree_node) :
  Forall P l -> P n -> Forall P (insert_sorted l n).
Proof.
  intros Hl Hn. induction Hl as [|c l Hc Hl IH]; cbn.
  - now repeat constructor.
  - destruct (String.ltb (name c) (name n)); constructor; auto.
Qed.

Lemma alloc_always {U : Type} (w : world U) :
  allocs w = [] ->
  exists w1, alloc w = (Some (next_addr w), w1) /\ allocs w1 = [] /\
             next_addr w1 = S (next_addr w) /\ user w1 = user w.
Proof.
  intros Ha. unfold alloc. rewrite Ha. eexists. split; [reflexivity|].
  cbn. repeat split.
Qed.

Lemma call_cb_allocs {U : Type} (cb : option (scan_node_callback U))
      (fs : fstree) (n : tree_node) (w : world U) :
  allocs (snd (call_cb cb fs n w)) = allocs w /\
  next_addr (snd (call_cb cb fs n w)) = next_addr w.
Proof.
  unfold call_cb. destruct cb as [f|]; [|split; reflexivity].
  destruct (f (user w) fs n). split; reflexivity.
Qed.

Lemma reg_not_dir (md : Z) : S_ISREG md = true -> S_ISDIR md = false.
Proof.
  unfold S_ISDIR, S_ISREG. intros H. apply Z.eqb_eq in H. now rewrite H.
Qed.

Lemma reg_not_lnk (md : Z) : S_ISREG md = true -> S_ISLNK md = false.
Proof.
  unfold S_ISLNK, S_ISREG. intros H. apply Z.eqb_eq in H. now rewrite H.
Qed.

Lemma reg_skip (M : dir_scan_masks) (flags md : Z) :
  S_ISREG md = true ->
  skip_by_type M flags md = has_flag flags (DIR_SCAN_NO_FILE M).
Proof.
  unfold S_ISREG, skip_by_type. intros H. apply Z.eqb_eq in H. now rewrite H.
Qed.

End AgreeLists.

Section AgreePosix.
Import Fstree Scan Posix PosixSpec Agree.
Context {U : Type}.
Variable M : dir_scan_masks.
Variables sizeof_off_t sizeof_size_t : Z.
Variable fs : fstree.
Variable cb : option (scan_node_callback U).
Variable flags : Z.
Variable verdict : string -> Z -> Z.
Variable os : string -> option Portable.listing.
Hypothesis Hverdict :
  forall n (w : world U), fst (call_cb cb fs n w) = verdict (name n) (mode n).
Hypothesis Hnonneg : forall nm md, (0 <= verdict nm md)%Z.
Hypothesis Hone : has_flag flags (DIR_SCAN_ONE_FILESYSTEM M) = false.

Local Abbreviation nodir := (has_flag flags (DIR_SCAN_NO_DIR M)).
Local Abbreviation expected' := (expected M flags verdict).
Local Abbreviation expected_entries' := (expected_entries M flags verdict).

Local Abbreviation posix_agrees :=
  (@Agree.posix_agrees U M sizeof_off_t sizeof_size_t fs cb flags verdict os).

Lemma posix_scanned_after (after : list shape) (root root1 : tree_node)
      (w w1 : world U) r :
  addr root1 = addr root -> name root1 = name root -> mode root1 = mode root ->
  next_addr w <= next_addr w1 ->
  posix_scanned nodir after root1 w1 r ->
  posix_scanned nodir after root w r.
Proof.
  intros Ha Hn Hm Hle (root' & w' & -> & P1 & P2 & P3 & P4 & P5 & P6 & P7 & P8).
  exists root', w'. repeat split; try congruence; try lia; assumption.
Qed.

Lemma dots_comm (nm : string) :
  String.eqb nm "." || String.eqb nm ".."
  = String.eqb nm ".." || String.eqb nm ".".
Proof. apply orb_comm. Qed.

Lemma expected_unfold (d : fsdir) :
  expected' d = expected_entries' expected' (entries d) [].
Proof. now destruct d. Qed.

Lemma mknode_fields (a : nat) (nm : string) (extra : option (list byte))
      (sb : stat) :
  addr (mknode_at a nm extra (default_time M fs flags sb)) = a /\
  name (mknode_at a nm extra (default_time M fs flags sb)) = nm /\
  mode (mknode_at a nm extra (default_time M fs flags sb)) = st_mode sb /\
  children (mknode_at a nm extra (default_time M fs flags sb)) = [].
Proof.
  unfold mknode_at. cbn. rewrite default_time_mode. repeat split.
Qed.

Lemma posix_entry (devstart : Z) (path : string) (e : fsent)
      (continue : tree_node -> world U -> Z * tree_node * world U)
      (next : list shape -> list shape) :
  plain_entry e ->
  match sub e with
  | Some d' => posix_agrees d' /\ represents os (path ++ "/" ++ d_name e) d'
  | None => True
  end ->
  (forall root1 (w1 : world U),
      allocs w1 = [] -> below (next_addr w1) (children root1) ->
      (nodir = true -> Forall (fun c => S_ISDIR (mode c) = false)
                              (children root1)) ->
      posix_scanned nodir (next (map shape_of (children root1))) root1 w1
                    (continue root1 w1)) ->
  forall root (w : world U),
    allocs w = [] -> below (next_addr w) (children root) ->
    (nodir = true -> Forall (fun c => S_ISDIR (mode c) = false)
                            (children root)) ->
    posix_scanned nodir
      (next (expected_entry M flags verdict expected' e
                            (map shape_of (children root))))
      root w
      (scan_entry M sizeof_off_t sizeof_size_t fs cb flags devstart
                  (fun d' n w' =>
                     populate_dir M sizeof_off_t sizeof_size_t fs cb flags
                                  d' n devstart w')
                  continue e root w).
Proof.
  intros Hplain Hsub Hcont root w Hal Hbelow Hnd.
  destruct e as [nm st lnk subdir].
  destruct Hplain as (Hname & sb & Hst & Htype).
  cbn [lstat d_name sub] in *. subst st.
  unfold expected_entry. cbn [lstat d_name sub].
  assert (Hgo : forall target root1 (w1 : world U),
             addr root1 = addr root -> name root1 = name root ->
             mode root1 = mode root -> next_addr w <= next_addr w1 ->
             allocs w1 = [] -> below (next_addr w1) (children root1) ->
             (nodir = true -> Forall (fun c => S_ISDIR (mode c) = false)
                                     (children root1)) ->
             map shape_of (children root1) = target ->
             posix_scanned nodir (next target) root w (continue root1 w1)).
  { intros target root1 w1 G1 G2 G3 G4 G5 G6 G7 <-.
    apply (@posix_scanned_after _ root root1 w w1 _ G1 G2 G3 G4).
    now apply Hcont. }
  assert (Hsame : forall target,
             map shape_of (children root) = target ->
             posix_scanned nodir (next target) root w (continue root w)).
  { intros target Ht. apply Hgo; auto. }
  unfold scan_entry, accepts. rewrite (dots_comm nm).
  destruct (String.eqb nm ".." || String.eqb nm ".") eqn:Hdots;
    cbn [negb andb]; [now apply Hsame|].
  rewrite Hone. cbn [andb].
  (* a node is made for the entry: the callback and what follows *)
  destruct (alloc_always w Hal) as (w0 & Ha & Hal0 & Hn0 & _).
  set (n := mknode_at (next_addr w) nm (option_map GetLine.c_str None)
                      (default_time M fs flags sb)).
  destruct (mknode_fields (next_addr w) nm (option_map GetLine.c_str None) sb)
    as (Naddr & Nname & Nmode & Nkids). fold n in Naddr, Nname, Nmode, Nkids.
  pose proof (Hverdict n w0) as Hret.
  pose proof (call_cb_allocs cb fs n w0) as [Hal1 Hn1].
  rewrite Nname, Nmode in Hret.
  destruct (call_cb cb fs n w0) as [ret w1] eqn:Hcall.
  cbn [fst snd] in Hret, Hal1, Hn1.
  assert (Hfresh : ~ In (addr n) (map addr (children root))).
  { rewrite Naddr. eapply below_fresh; [exact Hbelow|lia]. }
  assert (Hnn : (0 <= verdict nm (st_mode sb))%Z) by apply Hnonneg.
  (* the turn once the node [n] is linked and the callback has run *)
  assert (Hnode :
    (if S_ISDIR (st_mode sb) then nodir
     else has_flag flags (DIR_SCAN_NO_FILE M)) = false ->
    posix_scanned nodir
      (next (if (verdict nm (st_mode sb) =? 0)%Z
             then insert_shape (map shape_of (children root))
                    (Shape nm (st_mode sb)
                           (if descends M flags (st_mode sb)
                            then match subdir with
                                 | Some d' => expected' d'
                                 | None => []
                                 end
                            else []))
             else map shape_of (children root)))
      root w
      (let w2 := free_extra w1 None in
       if (ret <? 0)%Z then fail (fstree_insert_sorted root n) w2 None
       else if (0 <? ret)%Z then
         let '(root1, w3) := discard_node (fstree_insert_sorted root n) n w2 in
         continue root1 w3
       else if S_ISDIR (mode n)
               && negb (has_flag flags (DIR_SCAN_NO_RECURSION M))
       then
         match subdir with
         | None =>
             fail (fstree_insert_sorted root n)
                  (perror (set_errno w2 E_os) (name n)) None
         | Some d' =>
             let '(r, n', w3) :=
               populate_dir M sizeof_off_t sizeof_size_t fs cb flags
                            d' n devstart (fd_opened w2) in
             let root1 :=
               set_children (fstree_insert_sorted root n)
                 (update_child (children (fstree_insert_sorted root n))
                               (addr n) n') in
             if (r =? 0)%Z then continue root1 w3 else fail root1 w3 None
         end
       else continue (fstree_insert_sorted root n) w2)).
  { intros Hacc. subst ret. cbn [free_extra].
    destruct (Z.ltb_spec (verdict nm (st_mode sb)) 0) as [|_]; [lia|].
    destruct (Z.ltb_spec 0 (verdict nm (st_mode sb))) as [Hpos|Hzero].
    - (* discarded *)
      destruct (Z.eqb_spec (verdict nm (st_mode sb)) 0) as [|_]; [lia|].
      rewrite discard_node_children.
      cbn [fstree_insert_sorted set_children children addr name mode].
      rewrite remove_inserted by exact Hfresh.
      apply Hgo; cbn [addr name mode children free_node allocs next_addr];
        try reflexivity; try lia; try assumption.
      + congruence.
      + eapply below_mono; [exact Hbelow|lia].
    - assert (Hv0 : verdict nm (st_mode sb) = 0%Z) by lia.
      rewrite Hv0. cbn [Z.eqb]. rewrite Nmode. fold (descends M flags (st_mode sb)).
      destruct (descends M flags (st_mode sb)) eqn:Hdesc.
      + (* a directory that is scanned at once *)
        assert (Hd : S_ISDIR (st_mode sb) = true)
          by (unfold descends in Hdesc; now apply andb_prop in Hdesc).
        rewrite Hd in Hacc.
        destruct Htype as [Hreg|[_ Hsubne]];
          [rewrite (reg_not_dir _ Hreg) in Hd; discriminate|].
        destruct subdir as [d'|]; [|congruence].
        destruct Hsub as [Hag Hrep].
        destruct (Hag (path ++ "/" ++ nm)%string n devstart (fd_opened w1) Hrep)
          as (n' & w3 & Hpop & P1 & P2 & P3 & P4 & P5 & P6 & _).
        { cbn. congruence. }
        { rewrite Nkids. constructor. }
        { intros _. rewrite Nkids. constructor. }
        rewrite Hpop. cbn [Z.eqb].
        cbn [fstree_insert_sorted set_children children].
        rewrite update_inserted by (exact Hfresh || congruence).
        cbn [next_addr fd_opened] in P6.
        apply Hgo; cbn [addr name mode children set_children fstree_insert_sorted];
          try reflexivity;
          try assumption.
        * lia.
        * apply below_insert; [eapply below_mono; [exact Hbelow|lia]|].
          rewrite P1, Naddr. lia.
        * intros Hn. congruence.
        * rewrite shape_of_insert. f_equal.
          rewrite (shape_of_eq n'), P2, P3, P4, Nname, Nmode, Nkids.
          cbn [map]. now rewrite expected_unfold.
      + (* the node stays as it is *)
        cbn [fstree_insert_sorted set_children children addr name mode].
        apply Hgo; cbn [addr name mode children set_children fstree_insert_sorted];
          try reflexivity;
          try assumption.
        * lia.
        * congruence.
        * apply below_insert; [eapply below_mono; [exact Hbelow|lia]|].
          rewrite Naddr. lia.
        * intros Hn. apply forall_insert; [now apply Hnd|].
          rewrite Nmode. destruct (S_ISDIR (st_mode sb)); [congruence|reflexivity].
        * rewrite shape_of_insert. f_equal.
          now rewrite (shape_of_eq n), Nname, Nmode, Nkids. }
  destruct Htype as [Hreg|[Hdir Hsubne]].
  - (* a regular file *)
    rewrite (reg_skip M flags _ Hreg), (reg_not_dir _ Hreg).
    rewrite (reg_not_dir _ Hreg) in Hnode.
    destruct (has_flag flags (DIR_SCAN_NO_FILE M)) eqn:Hnf; cbn [negb andb];
      [now apply Hsame|].
    unfold read_link. rewrite (reg_not_lnk _ Hreg).
    unfold node_for. rewrite default_time_mode, (reg_not_dir _ Hreg).
    cbn [andb]. rewrite Ha. fold n. rewrite Hcall. now apply Hnode.
  - (* a directory *)
    rewrite (dir_not_skipped M flags _ Hdir), Hdir.
    rewrite Hdir in Hnode.
    unfold read_link. rewrite (@isdir_not_lnk _ Hdir).
    unfold node_for. rewrite default_time_mode, Hdir.
    destruct (has_flag flags (DIR_SCAN_NO_DIR M)) eqn:Hnodir; cbn [negb andb].
    + destruct (get_node_by_name root nm) as [m|] eqn:Hfind;
        [|now apply Hsame].
      unfold get_node_by_name in Hfind. apply find_some in Hfind.
      destruct Hfind as [Hin _].
      specialize (Hnd eq_refl). rewrite Forall_forall in Hnd.
      rewrite (Hnd m Hin). cbn. now apply Hsame.
    + rewrite Ha. fold n. rewrite Hcall. now apply Hnode.
Qed.

Lemma posix_entries (devstart : Z) (path : string) (ents : list fsent) :
  Forall (fun e => match sub e with
                   | Some d' => posix_agrees d'
                   | None => True
                   end) ents ->
  represents_entries (fun p d' => represents os p d') path ents ->
  forall root (w : world U),
    allocs w = [] -> below (next_addr w) (children root) ->
    (nodir = true -> Forall (fun c => S_ISDIR (mode c) = false)
                            (children root)) ->
    posix_scanned nodir
      (expected_entries' expected' ents (map shape_of (children root)))
      root w
      (scan_entries M sizeof_off_t sizeof_size_t fs cb flags devstart
                    (fun d' n w' =>
                       populate_dir M sizeof_off_t sizeof_size_t fs cb flags
                                    d' n devstart w')
                    false ents root w).
Proof.
  induction 1 as [|e rest He Hrest IH]; intros Hrep root w Hal Hbelow Hnd.
  - cbn [scan_entries expected_entries]. exists root, (fd_closed w).
    repeat split; try assumption. cbn. lia.
  - destruct Hrep as (Hplain & Hsub & Hreps).
    cbn [scan_entries expected_entries].
    apply (@posix_entry devstart path e _
             (expected_entries' expected' rest)); try assumption.
    + destruct (sub e) as [d'|]; [|exact I]. now split.
    + intros root1 w1 H1 H2 H3. now apply IH.
Qed.

Lemma posix_agrees_all (d : fsdir) : posix_agrees d.
Proof.
  induction d as [ff st ents rf IH] using fsdir_induction.
  intros path root devstart w Hrep Hal Hbelow Hnd.
  cbn [represents] in Hrep. destruct Hrep as (-> & -> & _ & _ & Hreps).
  cbn [populate_dir entries]. now apply (@posix_entries devstart path).
Qed.

End AgreePosix.

Section AgreeShapes.
Import Fstree Scan Posix PosixSpec Agree.
Variable M : dir_scan_masks.
Variable flags : Z.
Variable verdict : string -> Z -> Z.
Variable rec : fsdir -> list shape.

Local Abbreviation flat := (fun _ : fsdir => @nil shape).

Lemma sname_fill (ents : list fsent) (s : shape) :
  sname (fill M flags rec ents s) = sname s.
Proof. unfold fill. now destruct (descends M flags (smode s)). Qed.

Lemma fill_insert (ents : list fsent) (l : list shape) (s : shape) :
  map (fill M flags rec ents) (insert_shape l s)
  = insert_shape (map (fill M flags rec ents) l) (fill M flags rec ents s).
Proof.
  induction l as [|c l IH]; [reflexivity|].
  cbn [insert_shape map]. rewrite !sname_fill.
  destruct (String.ltb (sname c) (sname s)); [|reflexivity].
  cbn [map]. now rewrite IH.
Qed.

Lemma fill_expected (ents0 ents : list fsent) (acc : list shape) :
  (forall e, In e ents -> find_sub ents0 (d_name e) = sub e) ->
  map (fill M flags rec ents0) (expected_entries M flags verdict flat ents acc)
  = expected_entries M flags verdict rec ents
      (map (fill M flags rec ents0) acc).
Proof.
  revert acc. induction ents as [|e ents IH]; intros acc Hfind;
    [reflexivity|].
  cbn [expected_entries]. rewrite IH by (intros; apply Hfind; now right).
  f_equal. unfold expected_entry.
  destruct (lstat e) as [sb|]; [|reflexivity].
  destruct (accepts M flags verdict (d_name e) (st_mode sb)); [|reflexivity].
  rewrite fill_insert. f_equal. unfold fill. cbn [smode sname].
  rewrite (Hfind e) by now left.
  destruct (descends M flags (st_mode sb)); reflexivity.
Qed.

Lemma fill_none (ents : list fsent) (l : list shape) :
  has_flag flags (DIR_SCAN_NO_RECURSION M) = true ->
  map (fill M flags rec ents) l = l.
Proof.
  intros Hf. rewrite <- (map_id l) at 2. apply map_ext. intros s.
  unfold fill, descends. rewrite Hf. now rewrite andb_false_r.
Qed.

Lemma find_sub_nodup (ents : list fsent) (e : fsent) :
  NoDup (map d_name ents) -> In e ents -> find_sub ents (d_name e) = sub e.
Proof.
  unfold find_sub. induction ents as [|x ents IH]; intros Hnd Hin;
    [contradiction|].
  cbn [map] in Hnd. inversion Hnd as [|? ? Hnotin Hnd']; subst.
  cbn [find]. destruct Hin as [->|Hin].
  - now rewrite String.eqb_refl.
  - destruct (String.eqb_spec (d_name x) (d_name e)) as [Heq|_];
      [|now apply IH].
    exfalso. apply Hnotin. rewrite Heq. now apply in_map.
Qed.

Lemma flat_origin (ents : list fsent) (acc : list shape) (s : shape) :
  In s (expected_entries M flags verdict flat ents acc) ->
  In s acc \/
  exists e sb, In e ents /\ lstat e = Some sb /\
               s = Shape (d_name e) (st_mode sb) [].
Proof.
  revert acc. induction ents as [|e ents IH]; intros acc Hin; [now left|].
  cbn [expected_entries] in Hin. apply IH in Hin.
  destruct Hin as [Hin|(e' & sb & He' & Hst & ->)].
  - unfold expected_entry in Hin.
    destruct (lstat e) as [sb|] eqn:Hst; [|now left].
    destruct (accepts M flags verdict (d_name e) (st_mode sb)); [|now left].
    assert (Hins : forall l x, In s (insert_shape l x) -> s = x \/ In s l).
    { clear. induction l as [|c l IH]; intros x H.
      - destruct H as [<-|[]]. now left.
      - cbn [insert_shape] in H.
        destruct (String.ltb (sname c) (sname x)).
        + destruct H as [<-|H]; [right; now left|].
          apply IH in H. destruct H; [now left|right; now right].
        + destruct H as [<-|H]; [now left|now right]. }
    apply Hins in Hin. destruct Hin as [->|Hin]; [|now left].
    right. exists e, sb. split; [now left|]. split; [exact Hst|].
    destruct (descends M flags (st_mode sb)), (sub e); reflexivity.
  - right. exists e', sb. split; [now right|]. now split.
Qed.

End AgreeShapes.

Section AgreePortable.
Import Fstree Scan Posix PosixSpec Agree.
Context {U : Type}.
Variable M : dir_scan_masks.
Variable fs : fstree.
Variable cb : option (scan_node_callback U).
Variable flags : Z.
Variable verdict : string -> Z -> Z.
Variable os : string -> option Portable.listing.
Hypothesis Hverdict :
  forall n (w : world U), fst (call_cb cb fs n w) = verdict (name n) (mode n).
Hypothesis Hnonneg : forall nm md, (0 <= verdict nm md)%Z.

Local Abbreviation expected' := (expected M flags verdict).
Local Abbreviation expected_entries' := (expected_entries M flags verdict).
Local Abbreviation flat := (fun _ : fsdir => @nil shape).

(** [add_node] for the record of a plain entry. *)
Lemma portable_add_node (e : fsent) (root : tree_node) (w : world U) :
  plain_entry e -> allocs w = [] ->
  exists root' w',
    Portable.add_node M fs cb flags root (entry_of e) w = (0%Z, root', w') /\
    addr root' = addr root /\ name root' = name root /\
    mode root' = mode root /\
    map shape_of (children root')
    = expected_entry M flags verdict flat e (map shape_of (children root)) /\
    allocs w' = [].
Proof.
  intros (Hname & sb & Hst & Htype) Hal.
  destruct e as [nm st lnk subdir]. cbn [lstat d_name sub] in *. subst st.
  unfold entry_of, expected_entry. cbn [lstat d_name sub].
  unfold Portable.add_node, accepts.
  cbn [Portable.ent_name Portable.ent_mode Portable.ent_mtime].
  assert (Hskip : forall target,
             map shape_of (children root) = target ->
             exists root' w',
               (0%Z, root, w) = (0%Z, root', w') /\
               addr root' = addr root /\ name root' = name root /\
               mode root' = mode root /\
               map shape_of (children root') = target /\ allocs w' = []).
  { intros target <-. exists root, w. repeat split. exact Hal. }
  destruct (String.eqb nm "." || String.eqb nm "..");
    cbn [negb andb]; [now apply Hskip|].
  destruct (if S_ISDIR (st_mode sb) then has_flag flags (DIR_SCAN_NO_DIR M)
            else has_flag flags (DIR_SCAN_NO_FILE M));
    cbn [negb andb]; [now apply Hskip|].
  destruct (alloc_always w Hal) as (w0 & Ha & Hal0 & Hn0 & _). rewrite Ha.
  set (n := Portable.fresh_node (next_addr w)
              (Portable.mk_entry nm (st_mode sb) (st_mtime sb))).
  pose proof (Hverdict n w0) as Hret.
  pose proof (call_cb_allocs cb fs n w0) as [Hal1 _].
  destruct (call_cb cb fs n w0) as [ret w1]. cbn [fst snd] in Hret, Hal1. subst n.
  cbn [Portable.fresh_node name mode Portable.ent_name Portable.ent_mode]
    in Hret |- *. subst ret.
  assert (Hnn : (0 <= verdict nm (st_mode sb))%Z) by apply Hnonneg.
  destruct (Z.eqb_spec (verdict nm (st_mode sb)) 0) as [Hz|Hnz]; cbn [negb].
  - eexists _, w1. split; [reflexivity|].
    cbn [fstree_insert_sorted set_children addr name mode children].
    do 3 (split; [reflexivity|]). split; [|congruence].
    rewrite shape_of_insert. f_equal.
    destruct (descends M flags (st_mode sb)), subdir; reflexivity.
  - destruct (Z.ltb_spec (verdict nm (st_mode sb)) 0); [lia|].
    eexists root, _. split; [reflexivity|]. repeat split. cbn. congruence.
Qed.

(** The loop of [scan_dir] over the records of plain entries. *)
Lemma portable_scan_loop (path : string) (ents : list fsent) :
  forall (root : tree_node) (w : world U),
    Forall plain_entry ents -> allocs w = [] ->
    exists root' w',
      Portable.scan_loop M fs cb flags path (map entry_of ents) false root w
      = (0%Z, root', w') /\
      name root' = name root /\ mode root' = mode root /\
      map shape_of (children root')
      = expected_entries' flat ents (map shape_of (children root)) /\
      allocs w' = [].
Proof.
  induction ents as [|e ents IH]; intros root w Hplain Hal.
  - exists root, (fd_closed w). repeat split. exact Hal.
  - inversion Hplain as [|? ? He Hrest]; subst.
    destruct (@portable_add_node e root w He Hal)
      as (root1 & w1 & Hadd & _ & Hn1 & Hm1 & Hsh1 & Hal1).
    destruct (IH root1 w1 Hrest Hal1)
      as (root2 & w2 & Hloop & Hn2 & Hm2 & Hsh2 & Hal2).
    exists root2, w2. cbn [map Portable.scan_loop]. rewrite Hadd.
    cbn [Z.eqb negb]. split; [exact Hloop|].
    split; [congruence|]. split; [congruence|]. split; [|exact Hal2].
    cbn [expected_entries]. now rewrite Hsh2, Hsh1.
Qed.

(** The loop over the children, when every call on a directory child
    goes through and turns the child's shape into [g] of it. *)
Lemma portable_scan_children
      (rec : tree_node -> world U -> option (Portable.result (U := U)))
      (g : shape -> shape) (l : list tree_node) :
  (forall c, In c l -> S_ISDIR (mode c) = false ->
             g (shape_of c) = shape_of c) ->
  (forall c (w : world U),
      In c l -> S_ISDIR (mode c) = true -> allocs w = [] ->
      exists c' w', rec c w = Some (0%Z, c', w') /\
                    shape_of c' = g (shape_of c) /\ allocs w' = []) ->
  forall w : world U,
    allocs w = [] ->
    exists l' w',
      Portable.scan_children rec l w = Some (0%Z, l', w') /\
      map shape_of l' = map g (map shape_of l) /\ allocs w' = [].
Proof.
  induction l as [|c l IH]; intros Hfile Hdir w Hal.
  - exists [], w. repeat split. exact Hal.
  - cbn [Portable.scan_children].
    assert (Hfile' : forall c0, In c0 l -> S_ISDIR (mode c0) = false ->
                                g (shape_of c0) = shape_of c0)
      by (intros; apply Hfile; [now right|assumption]).
    assert (Hdir' : forall c0 (w0 : world U),
               In c0 l -> S_ISDIR (mode c0) = true -> allocs w0 = [] ->
               exists c' w', rec c0 w0 = Some (0%Z, c', w') /\
                             shape_of c' = g (shape_of c0) /\ allocs w' = [])
      by (intros; apply Hdir; [now right|assumption|assumption]).
    destruct (S_ISDIR (mode c)) eqn:Hisdir; cbn [negb].
    + destruct (Hdir c w (or_introl eq_refl) Hisdir Hal)
        as (c' & w1 & Hrec & Hsh & Hal1).
      rewrite Hrec. cbn [Z.eqb negb].
      destruct (IH Hfile' Hdir' w1 Hal1) as (l' & w2 & Hl & Hshl & Hal2).
      rewrite Hl. exists (c' :: l'), w2. split; [reflexivity|].
      split; [|exact Hal2]. cbn [map]. now rewrite Hsh, Hshl.
    + destruct (IH Hfile' Hdir' w Hal) as (l' & w2 & Hl & Hshl & Hal2).
      rewrite Hl. exists (c :: l'), w2. split; [reflexivity|].
      split; [|exact Hal2]. cbn [map].
      rewrite (Hfile c (or_introl eq_refl) Hisdir). now rewrite Hshl.
Qed.


Lemma represents_entries_in (rec : string -> fsdir -> Prop) (path : string)
      (ents : list fsent) (e : fsent) :
  represents_entries rec path ents -> In e ents ->
  plain_entry e /\
  match sub e with
  | Some d' => rec (path ++ "/" ++ d_name e)%string d'
  | None => True
  end.
Proof.
  induction ents as [|x ents IH]; intros Hrep Hin; [contradiction|].
  cbn [represents_entries] in Hrep. destruct Hrep as (Hp & Hs & Hrest).
  destruct Hin as [->|Hin]; [now split|now apply IH].
Qed.

Lemma depth_entries_in (rec : fsdir -> nat) (ents : list fsent) (e : fsent)
      (d' : fsdir) :
  In e ents -> sub e = Some d' -> S (rec d') <= depth_entries rec ents.
Proof.
  induction ents as [|x ents IH]; intros Hin Hsub; [contradiction|].
  cbn [depth_entries]. destruct Hin as [->|Hin].
  - rewrite Hsub. apply Nat.le_max_l.
  - etransitivity; [now apply IH|apply Nat.le_max_r].
Qed.

Local Abbreviation portable_agrees :=
  (@Agree.portable_agrees U M fs cb flags verdict os).

Lemma portable_agrees_all (d : fsdir) : portable_agrees d.
Proof.
  induction d as [ff st ents rf IH] using fsdir_induction.
  intros fuel path root w Hfuel Hrep Hroot Hal.
  cbn [represents] in Hrep.
  destruct Hrep as (-> & -> & Hos & Hnd & Hreps).
  cbn [depth] in Hfuel. cbn [expected].
  assert (Hplain : Forall plain_entry ents).
  { apply Forall_forall. intros e He.
    exact (proj1 (represents_entries_in _ _ _ e Hreps He)). }
  unfold portable_scanned, Portable.scan_tree, Portable.scan_dir.
  rewrite Hos.
  destruct (@portable_scan_loop path ents root (fd_opened w) Hplain Hal)
    as (root1 & w1 & Hloop & Hn1 & Hm1 & Hsh1 & Hal1).
  rewrite Hloop. cbn [Z.eqb negb]. rewrite Hroot in Hsh1. cbn [map] in Hsh1.
  assert (Hfill : map (fill M flags expected' ents)
                      (map shape_of (children root1))
                  = expected_entries' expected' ents []).
  { rewrite Hsh1.
    rewrite (fill_expected M flags verdict expected' ents ents []);
      [reflexivity|].
    intros e He. now apply find_sub_nodup. }
  destruct (has_flag flags (DIR_SCAN_NO_RECURSION M)) eqn:Hrec.
  - exists root1, w1. split; [reflexivity|].
    split; [exact Hn1|]. split; [exact Hm1|]. split; [|exact Hal1].
    transitivity (map (fill M flags expected' ents)
                      (map shape_of (children root1)));
      [symmetry; now apply fill_none|exact Hfill].
  - destruct (@portable_scan_children
                (fun n w0 => Portable.fstree_from_subdir M fs cb flags os
                               fuel n path (Some (name n)) w0)
                (fill M flags expected' ents) (children root1))
      with (w := w1) as (l' & w2 & Hl & Hshl & Hal2).
    + intros c _ Hc. unfold fill, descends.
      replace (smode (shape_of c)) with (mode c) by now destruct c.
      now rewrite Hc.
    + intros c w0 Hin Hc Hal0.
      assert (Hs : In (shape_of c) (map shape_of (children root1)))
        by now apply in_map.
      rewrite Hsh1 in Hs. apply flat_origin in Hs.
      destruct Hs as [[]|(e & sb & He & Hst & Hs)].
      rewrite shape_of_eq in Hs. injection Hs as Hcn Hcm Hck.
      apply map_eq_nil in Hck.
      destruct (represents_entries_in _ _ _ e Hreps He)
        as ((Hne & sb' & Hst' & Htype) & Hsub).
      rewrite Hst in Hst'. injection Hst' as <-.
      rewrite <- Hcm in Htype.
      destruct Htype as [Hreg|[_ Hsome]];
        [apply reg_not_dir in Hreg; congruence|].
      destruct (sub e) as [d'|] eqn:Hsube; [|congruence].
      rewrite Forall_forall in IH. specialize (IH e He).
      rewrite Hsube in IH.
      pose proof (@depth_entries_in (fun d0 => depth d0) ents e d' He Hsube)
        as Hdepth.
      cbv beta in Hdepth.
      pose proof (Nat.le_trans _ _ _ Hdepth Hfuel) as Hlt.
      destruct fuel as [|fuel']; [lia|].
      cbn [Portable.fstree_from_subdir].
      destruct (String.length (name c)) eqn:Hlen.
      { destruct (name c); [congruence|discriminate]. }
      cbn [Nat.eqb].
      destruct (alloc_always w0 Hal0) as (w3 & Ha & Hal3 & _). rewrite Ha.
      assert (Hd' : depth d' <= fuel') by lia.
      rewrite <- Hcn in Hsub.
      destruct (IH fuel' (path ++ "/" ++ name c)%string c (buf_allocated w3)
                   Hd' Hsub Hck Hal3)
        as (c' & w4 & Hscan & Hn' & Hm' & Hsh' & Hal4).
      rewrite Hscan. exists c', (buf_freed w4). split; [reflexivity|].
      split; [|exact Hal4].
      rewrite (shape_of_eq c'), Hn', Hm', Hsh'.
      unfold fill, descends.
      replace (smode (shape_of c)) with (mode c) by now destruct c.
      replace (sname (shape_of c)) with (name c) by now destruct c.
      rewrite Hc, Hrec. cbn [negb andb].
      rewrite Hcn, (find_sub_nodup ents e Hnd He), Hsube. reflexivity.
    + exact Hal1.
    + rewrite Hl. exists (set_children root1 l'), w2.
      split; [reflexivity|].
      split; [now destruct root1|]. split; [now destruct root1|].
      split; [|exact Hal2].
      replace (children (set_children root1 l')) with l'
        by now destruct root1.
      rewrite Hshl. exact Hfill.
Qed.
End AgreePortable.

(** What holds of C1.  A directory that holds regular files and
    directories only, scanned into a directory node without children:
    when no call of the system and no allocation fails, the callback's
    answer depends on the
    name and the mode of the node alone and is never negative, and the
    flag that confines the scan to one file system is not set, the POSIX
    walker and the portable walker both return 0, and the two trees have
    the same names, the same modes and the same order of the children at
    every level. *)
Theorem backends_agree (U : Type) (M : Fstree.dir_scan_masks)
        (sizeof_off_t sizeof_size_t : Z) (fs : Fstree.fstree)
        (cb : option (Scan.scan_node_callback U)) (flags : Z)
        (verdict : string -> Z -> Z)
        (os_open : string -> option Posix.fsdir)
        (os : string -> option Portable.listing)
        (d : Posix.fsdir) (sb : Fstree.stat) (path : string)
        (root : Fstree.tree_node) (w_posix w_portable : Scan.world U)
        (fuel : nat) :
  (forall n (w : Scan.world U),
      fst (Scan.call_cb cb fs n w)
      = verdict (Fstree.name n) (Fstree.mode n)) ->
  (forall nm md, (0 <= verdict nm md)%Z) ->
  Fstree.has_flag flags (Fstree.DIR_SCAN_ONE_FILESYSTEM M) = false ->
  os_open path = Some d -> Posix.dir_stat d = Some sb ->
  Agree.represents os path d ->
  Fstree.S_ISDIR (Fstree.mode root) = true -> Fstree.children root = [] ->
  Scan.allocs w_posix = [] -> Scan.allocs w_portable = [] ->
  Agree.depth d <= fuel ->
  exists root_p w_p root_q w_q,
    Posix.fstree_from_dir M sizeof_off_t sizeof_size_t fs cb flags os_open
                          root path w_posix
    = (0%Z, root_p, w_p) /\
    Portable.fstree_from_dir M fs cb flags os fuel root path w_portable
    = Some (0%Z, root_q, w_q) /\
    Agree.shape_of root_p = Agree.shape_of root_q /\
    map Agree.shape_of (Fstree.children root_p)
    = Agree.expected M flags verdict d.
Proof.
  intros Hverdict Hnonneg Hone Hopen Hstat Hrep Hisdir Hroot Hal_p Hal_q Hfuel.
  destruct (@posix_agrees_all U M sizeof_off_t sizeof_size_t fs cb flags
              verdict os Hverdict Hnonneg Hone d path root (Fstree.st_dev sb)
              (Scan.fd_opened w_posix))
    as (root_p & w_p & Hp & _ & Hnp & Hmp & Hshp & _);
    [exact Hrep|exact Hal_p|rewrite Hroot; constructor|
     intros _; rewrite Hroot; constructor|].
  destruct (@portable_agrees_all U M fs cb flags verdict os Hverdict Hnonneg
              d fuel path root w_portable Hfuel Hrep Hroot Hal_q)
    as (root_q & w_q & Hq & Hnq & Hmq & Hshq & _).
  rewrite Hroot in Hshp. cbn [map] in Hshp.
  assert (Hexp : Agree.expected_entries M flags verdict
                   (Agree.expected M flags verdict) (Posix.entries d) []
                 = Agree.expected M flags verdict d) by now destruct d.
  rewrite Hexp in Hshp.
  exists root_p, w_p, root_q, w_q.
  split.
  { unfold Posix.fstree_from_dir, Posix.fstree_from_subdir.
    rewrite Hisdir, Hopen, Hstat. exact Hp. }
  split; [exact Hq|]. split; [|exact Hshp].
  rewrite (shape_of_eq root_p), (shape_of_eq root_q).
  now rewrite Hnp, Hmp, Hnq, Hmq, Hshp, Hshq.
Qed.

(** The hierarchy [root] with the file [a] and the directory [x] that
    holds the file [q], scanned without a callback and without flags. *)
Lemma backends_agree_witness :
  Agree.represents Agree.two_levels_listing "root" Agree.two_levels /\
  exists root_p w_p root_q w_q,
    Posix.fstree_from_dir Fstree.example_masks 8 8 (Fstree.mk_fstree 5) None 0
                          (Sample.only_root Agree.two_levels)
                          (Sample.dir_node 0 "" []) "root" (Sample.process 1)
    = (0%Z, root_p, w_p) /\
    Portable.fstree_from_dir Fstree.example_masks (Fstree.mk_fstree 5) None 0
                             Agree.two_levels_listing 1
                             (Sample.dir_node 0 "" []) "root"
                             (Sample.process 1)
    = Some (0%Z, root_q, w_q) /\
    Agree.shape_of root_p = Agree.shape_of root_q /\
    map Agree.shape_of (Fstree.children root_p)
    = Agree.expected Fstree.example_masks 0 (fun _ _ => 0%Z)
                     Agree.two_levels.
Proof.
  assert (Hfile : forall nm, nm <> ""%string ->
                             Agree.plain_entry (Sample.file nm)).
  { intros nm Hnm. split; [exact Hnm|].
    exists Sample.file_stat. split; [reflexivity|]. left. reflexivity. }
  assert (Hrep : Agree.represents Agree.two_levels_listing "root"
                                  Agree.two_levels).
  { cbn. split; [reflexivity|]. split; [reflexivity|].
    split; [reflexivity|]. split.
    - constructor; [intros [H|[]]; discriminate|].
      constructor; [intros []|constructor].
    - split; [apply Hfile; discriminate|]. split; [exact I|].
      split.
      + split; [discriminate|]. exists Sample.dir_stat.
        split; [reflexivity|]. right. split; [reflexivity|discriminate].
      + split; [|exact I].
        split; [reflexivity|]. split; [reflexivity|].
        split; [reflexivity|]. split.
        * constructor; [intros []|constructor].
        * split; [apply Hfile; discriminate|]. split; exact I. }
  split; [exact Hrep|].
  apply (@backends_agree unit Fstree.example_masks 8 8 (Fstree.mk_fstree 5)
           None 0 (fun _ _ => 0%Z) (Sample.only_root Agree.two_levels)
           Agree.two_levels_listing Agree.two_levels Sample.dir_stat "root"
           (Sample.dir_node 0 "" []) (Sample.process 1) (Sample.process 1) 1).
  - intros n w. reflexivity.
  - intros nm md. discriminate.
  - reflexivity.
  - reflexivity.
  - reflexivity.
  - exact Hrep.
  - reflexivity.
  - reflexivity.
  - reflexivity.
  - reflexivity.
  - apply le_n.
Defined.

(** The two trees of that scan. *)
Example backends_agree_two_levels :
  let shapes :=
    [Agree.Shape "a" 0x81A4 [];
     Agree.Shape "x" 0x41ED [Agree.Shape "q" 0x81A4 []]] in
  map Agree.shape_of
      (Fstree.children
         (snd (fst (Posix.fstree_from_dir
                      Fstree.example_masks 8 8 (Fstree.mk_fstree 5) None 0
                      (Sample.only_root Agree.two_levels)
                      (Sample.dir_node 0 "" []) "root" (Sample.process 1)))))
  = shapes /\
  option_map (fun r => map Agree.shape_of (Fstree.children (snd (fst r))))
             (Portable.fstree_from_dir
                Fstree.example_masks (Fstree.mk_fstree 5) None 0
                Agree.two_levels_listing 1
                (Sample.dir_node 0 "" []) "root" (Sample.process 1))
  = Some shapes.
Proof. split; reflexivity. Qed.


(** * Further properties of the code *)

(** ** Trimming a line *)

Section Trimming.
Import GetLine.

Lemma isspace_nul (c : byte) : isspace c = true -> c <> x00.
Proof. intros H ->. discriminate. Qed.

Lemma c_str_cons (c : byte) (r : list byte) :
  c <> x00 -> c_str (c :: r) = c :: c_str r.
Proof. intros Hc. cbn. apply byte_eqb_neq in Hc. now rewrite Hc. Qed.

(** The text of a string splits into the white space [ltrim] skips and
    the text that follows it. *)
Lemma skip_space_split (b : list byte) :
  c_str b = firstn (skip_space b) b ++ c_str (skipn (skip_space b) b) /\
  Forall (fun c => isspace c = true) (firstn (skip_space b) b) /\
  (forall c r, c_str (skipn (skip_space b) b) = c :: r -> isspace c = false).
Proof.
  induction b as [|c r IH]; cbn [skip_space].
  - repeat split; [constructor|discriminate].
  - destruct (isspace c) eqn:Hs.
    + destruct IH as (I1 & I2 & I3).
      cbn [firstn skipn]. rewrite c_str_cons by now apply isspace_nul.
      split; [cbn; now f_equal|]. split; [now constructor|exact I3].
    + cbn [firstn skipn app]. split; [reflexivity|]. split; [constructor|].
      intros c' r' Hc. cbn in Hc. destruct (Byte.eqb c x00); [discriminate|].
      now injection Hc as <- _.
Qed.

Lemma ltrim_length (b : list byte) :
  In x00 b -> List.length (ltrim b) = List.length b.
Proof.
  intros Hb. unfold ltrim. destruct (0 <? skip_space b); [|reflexivity].
  unfold memmove_front.
  pose proof (skip_space_nul b Hb) as Hs. apply strlen_lt_iff in Hs.
  rewrite length_skipn in Hs.
  rewrite length_app, length_firstn, !length_skipn. lia.
Qed.

Lemma ltrim_c_str (b : list byte) :
  In x00 b -> c_str (ltrim b) = c_str (skipn (skip_space b) b).
Proof.
  intros Hb. unfold ltrim.
  destruct (Nat.ltb_spec 0 (skip_space b)) as [Hp|Hz].
  - unfold memmove_front. apply c_str_cut. now apply skip_space_nul.
  - now replace (skip_space b) with 0 by lia.
Qed.

Lemma rtrim_index_split (b : list byte) (i : nat) :
  i <= List.length b ->
  firstn i b = firstn (rtrim_index b i) b
               ++ skipn (rtrim_index b i) (firstn i b) /\
  Forall (fun c => isspace c = true) (skipn (rtrim_index b i) (firstn i b)) /\
  (0 < rtrim_index b i ->
   isspace (nth (rtrim_index b i - 1) b x00) = false).
Proof.
  induction i as [|i IH]; intros Hi; cbn [rtrim_index].
  - cbn. repeat split; [constructor|lia].
  - destruct (isspace (nth i b x00)) eqn:Hs.
    + destruct IH as (I1 & I2 & I3); [lia|].
      pose proof (rtrim_index_le b i) as Hle.
      assert (Hsnoc : firstn (S i) b = firstn i b ++ [nth i b x00]).
      { rewrite <- (firstn_skipn i b) at 1.
        rewrite firstn_app, length_firstn.
        replace (Nat.min i (List.length b)) with i by lia.
        replace (S i - i) with 1 by lia.
        rewrite firstn_firstn. replace (Nat.min (S i) i) with i by lia.
        f_equal.
        rewrite <- (firstn_skipn i b) at 2.
        rewrite app_nth2; rewrite length_firstn;
          replace (Nat.min i (List.length b)) with i by lia; [|lia].
        rewrite Nat.sub_diag.
        destruct (skipn i b) as [|x r] eqn:Hsk.
        - exfalso. apply (f_equal (@List.length byte)) in Hsk.
          rewrite length_skipn in Hsk. cbn in Hsk. lia.
        - reflexivity. }
      assert (Hsk : skipn (rtrim_index b i) (firstn (S i) b)
                    = skipn (rtrim_index b i) (firstn i b) ++ [nth i b x00]).
      { rewrite Hsnoc, skipn_app, length_firstn.
        replace (rtrim_index b i - Nat.min i (List.length b)) with 0 by lia.
        reflexivity. }
      split.
      * rewrite Hsk, app_assoc, <- I1. exact Hsnoc.
      * split; [|exact I3]. rewrite Hsk. apply Forall_app. split; [exact I2|].
        now constructor.
    + split.
      * now rewrite <- (firstn_skipn (S i) (firstn (S i) b)) at 1;
          rewrite firstn_firstn, Nat.min_id.
      * split.
        -- rewrite skipn_all2; [constructor|]. rewrite length_firstn. lia.
        -- intros _. now replace (S i - 1) with i by lia.
Qed.


Lemma strlen_c_str (b : list byte) : strlen b = List.length (c_str b).
Proof.
  induction b as [|c r IH]; cbn; [reflexivity|].
  destruct (Byte.eqb c x00); cbn; congruence.
Qed.

Lemma skip_space_none (b : list byte) :
  In x00 b -> (forall c r, c_str b = c :: r -> isspace c = false) ->
  skip_space b = 0.
Proof.
  destruct b as [|c r]; intros Hb Hh; [contradiction|].
  cbn [skip_space]. destruct (Byte.eqb c x00) eqn:E.
  - apply byte_eqb_eq in E. now subst c.
  - cbn in Hh. rewrite E in Hh. now rewrite (Hh c (c_str r) eq_refl).
Qed.

Lemma ltrim_fixed (b : list byte) : skip_space b = 0 -> ltrim b = b.
Proof. intros H. unfold ltrim. now rewrite H. Qed.

Lemma rtrim_index_stop (b : list byte) (j : nat) :
  (0 < j -> isspace (nth (j - 1) b x00) = false) -> rtrim_index b j = j.
Proof.
  destruct j as [|j]; [reflexivity|]. intros Hj. cbn [rtrim_index].
  replace (S j - 1) with j in Hj by lia. now rewrite Hj by lia.
Qed.

Lemma store_nth_before (b : list byte) (j k : nat) (v : byte) :
  k < j -> nth k (store b j v) x00 = nth k b x00.
Proof.
  intros Hk. unfold store.
  destruct (Nat.ltb_spec j (List.length b)); [|reflexivity].
  rewrite app_nth1 by (rewrite length_firstn; lia).
  rewrite <- (firstn_skipn j b) at 2.
  now rewrite app_nth1 by (rewrite length_firstn; lia).
Qed.

Lemma store_twice (b : list byte) (j : nat) (v : byte) :
  store (store b j v) j v = store b j v.
Proof.
  unfold store at 1. rewrite store_length.
  destruct (Nat.ltb_spec j (List.length b)) as [Hj|Hj]; [|reflexivity].
  rewrite (store_eq b v Hj).
  assert (Hl : List.length (firstn j b) = j)
    by (rewrite length_firstn; lia).
  revert Hl. generalize (firstn j b) (skipn (S j) b). intros p q Hl.
  subst j. f_equal.
  - rewrite firstn_app, Nat.sub_diag, firstn_all. cbn. apply app_nil_r.
  - f_equal. change (S (List.length p)) with (1 + List.length p).
    rewrite <- skipn_skipn, skipn_app, Nat.sub_diag.
    now rewrite skipn_all.
Qed.

Lemma rtrim_fixed (b : list byte) : In x00 b -> rtrim (rtrim b) = rtrim b.
Proof.
  intros Hb. pose proof Hb as Hlt. apply strlen_lt_iff in Hlt.
  unfold rtrim at 2 3. set (j := rtrim_index b (strlen b)).
  pose proof (rtrim_index_le b (strlen b)) as Hle. fold j in Hle.
  destruct (@rtrim_index_split b (strlen b)) as (_ & _ & Hlast); [lia|].
  fold j in Hlast.
  destruct (@store_nul_c_str b j) as [_ Hc]; [lia|lia|].
  assert (Hlen : strlen (store b j x00) = j).
  { rewrite strlen_c_str, Hc, length_firstn. lia. }
  unfold rtrim. rewrite Hlen.
  rewrite rtrim_index_stop; [apply store_twice|].
  intros Hp. rewrite store_nth_before by lia. now apply Hlast.
Qed.

End Trimming.

(** X1.  [ltrim] on a terminated string: the buffer keeps its size and
    its terminator, and the text is the old text without the white space
    it began with; what is left does not begin with white space. *)
Theorem ltrim_leading_space (b : list byte) :
  In x00 b ->
  List.length (GetLine.ltrim b) = List.length b /\
  In x00 (GetLine.ltrim b) /\
  exists ws,
    GetLine.c_str b = ws ++ GetLine.c_str (GetLine.ltrim b) /\
    Forall (fun c => GetLine.isspace c = true) ws /\
    (forall c r, GetLine.c_str (GetLine.ltrim b) = c :: r ->
                 GetLine.isspace c = false).
Proof.
  intros Hb. split; [now apply ltrim_length|].
  split; [now apply ltrim_ok|].
  destruct (skip_space_split b) as (H1 & H2 & H3).
  exists (firstn (GetLine.skip_space b) b).
  rewrite ltrim_c_str by assumption. now repeat split.
Qed.

Lemma ltrim_leading_space_witness :
  In x00 [x20; x09; x61; x20; x00] /\
  exists ws,
    GetLine.c_str [x20; x09; x61; x20; x00]
    = ws ++ GetLine.c_str (GetLine.ltrim [x20; x09; x61; x20; x00]) /\
    Forall (fun c => GetLine.isspace c = true) ws /\
    (forall c r,
        GetLine.c_str (GetLine.ltrim [x20; x09; x61; x20; x00]) = c :: r ->
        GetLine.isspace c = false).
Proof.
  assert (H : In x00 [x20; x09; x61; x20; x00]) by (cbn; tauto).
  split; [exact H|].
  exact (proj2 (proj2 (@ltrim_leading_space [x20; x09; x61; x20; x00] H))).
Defined.

(** X2.  [rtrim] on a terminated string: the buffer keeps its size, the
    text is the old text without the white space it ended with, and what
    is left does not end with white space. *)
Theorem rtrim_trailing_space (b : list byte) :
  In x00 b ->
  List.length (GetLine.rtrim b) = List.length b /\
  In x00 (GetLine.rtrim b) /\
  exists ws,
    GetLine.c_str b = GetLine.c_str (GetLine.rtrim b) ++ ws /\
    Forall (fun c => GetLine.isspace c = true) ws /\
    (forall p c, GetLine.c_str (GetLine.rtrim b) = p ++ [c] ->
                 GetLine.isspace c = false).
Proof.
  intros Hb. pose proof Hb as Hlt. apply strlen_lt_iff in Hlt.
  split; [apply store_length|]. split; [now apply rtrim_ok|].
  unfold GetLine.rtrim.
  set (j := GetLine.rtrim_index b (GetLine.strlen b)).
  pose proof (rtrim_index_le b (GetLine.strlen b)) as Hle. fold j in Hle.
  destruct (@rtrim_index_split b (GetLine.strlen b)) as (S1 & S2 & S3);
    [lia|]. fold j in S1, S2, S3.
  destruct (@store_nul_c_str b j) as [_ Hc]; [lia|lia|].
  rewrite Hc.
  exists (skipn j (firstn (GetLine.strlen b) b)).
  split; [now rewrite c_str_firstn|]. split; [exact S2|].
  intros p c Hp.
  assert (Hj : j = S (List.length p)).
  { apply (f_equal (@List.length byte)) in Hp.
    rewrite length_firstn, length_app in Hp. cbn in Hp. lia. }
  rewrite <- (S3 ltac:(lia)). f_equal.
  replace (j - 1) with (List.length p) by lia.
  rewrite <- (firstn_skipn j b), app_nth1
    by (rewrite length_firstn; lia).
  now rewrite Hp, nth_middle.
Qed.

Lemma rtrim_trailing_space_witness :
  In x00 [x20; x61; x0d; x20; x00] /\
  exists ws,
    GetLine.c_str [x20; x61; x0d; x20; x00]
    = GetLine.c_str (GetLine.rtrim [x20; x61; x0d; x20; x00]) ++ ws /\
    Forall (fun c => GetLine.isspace c = true) ws /\
    (forall p c,
        GetLine.c_str (GetLine.rtrim [x20; x61; x0d; x20; x00]) = p ++ [c] ->
        GetLine.isspace c = false).
Proof.
  assert (H : In x00 [x20; x61; x0d; x20; x00]) by (cbn; tauto).
  split; [exact H|].
  exact (proj2 (proj2 (@rtrim_trailing_space [x20; x61; x0d; x20; x00] H))).
Defined.

Section TrimTwice.
Import GetLine.

Lemma rtrim_keeps_head (b : list byte) :
  In x00 b -> skip_space b = 0 -> skip_space (rtrim b) = 0.
Proof.
  intros Hb Hs. pose proof Hb as Hlt. apply strlen_lt_iff in Hlt.
  unfold rtrim. set (j := rtrim_index b (strlen b)).
  pose proof (rtrim_index_le b (strlen b)) as Hle. fold j in Hle.
  rewrite store_eq by lia.
  destruct j as [|j]; [reflexivity|].
  destruct b as [|c r]; [contradiction|].
  cbn [firstn app skip_space] in *.
  destruct (isspace c); [discriminate|reflexivity].
Qed.

Lemma ltrim_head (b : list byte) :
  In x00 b ->
  In x00 (ltrim b) /\
  forall c r, c_str (ltrim b) = c :: r -> isspace c = false.
Proof.
  intros Hb. split; [now apply ltrim_ok|].
  rewrite ltrim_c_str by assumption. apply skip_space_split.
Qed.

End TrimTwice.

(** X3.  [trim] applied to its own result changes nothing: the buffer and
    the length it returns are the same. *)
Theorem trim_idempotent (LT RT : Z) (b : list byte) (flags : Z) :
  In x00 b ->
  GetLine.trim LT RT (snd (GetLine.trim LT RT b flags)) flags
  = GetLine.trim LT RT b flags.
Proof.
  intros Hb. unfold GetLine.trim. cbn [snd].
  destruct (ltrim_head b Hb) as (Hl0 & Hhead).
  assert (Hl : GetLine.ltrim (GetLine.ltrim b) = GetLine.ltrim b)
    by (apply ltrim_fixed; now apply skip_space_none).
  destruct (GetLine.has_flag flags LT), (GetLine.has_flag flags RT).
  - rewrite (ltrim_fixed (GetLine.rtrim (GetLine.ltrim b))).
    + now rewrite rtrim_fixed.
    + apply rtrim_keeps_head; [exact Hl0|now apply skip_space_none].
  - now rewrite Hl.
  - now rewrite rtrim_fixed.
  - reflexivity.
Qed.

Lemma trim_idempotent_witness :
  In x00 [x20; x61; x20; x00] /\
  GetLine.trim 1 2 (snd (GetLine.trim 1 2 [x20; x61; x20; x00] 3)) 3
  = GetLine.trim 1 2 [x20; x61; x20; x00] 3.
Proof.
  assert (H : In x00 [x20; x61; x20; x00]) by (cbn; tauto).
  split; [exact H|].
  exact (@trim_idempotent 1 2 [x20; x61; x20; x00] 3 H).
Defined.

(** ** Lines and windows *)

Section ReadLines.
Import GetLine.
Context {S : Type} {HS : IStream S} {HB : IStreamBytes S}.
Variables LT RT SE : Z.
Variable SZ : nat.

Lemma has_flag_zero (m : Z) : has_flag 0 m = false.
Proof. reflexivity. Qed.

Lemma trim_no_flags (b : list byte) : trim LT RT b 0 = (strlen b, b).
Proof. reflexivity. Qed.

Lemma holds_length (buf : list byte) (len : nat) (acc : list byte) :
  holds buf len acc -> List.length acc = len.
Proof.
  intros [(-> & -> & ->)|(Hl & <- & _)]; [reflexivity|].
  rewrite length_firstn. lia.
Qed.

Lemma holds_strlen (buf : list byte) (len : nat) (acc : list byte) :
  holds buf len acc -> buf <> [] -> ~ In x00 acc ->
  strlen buf = len /\ c_str buf = acc.
Proof.
  intros [(-> & _ & _)|(Hl & Hf & Hn)] Hne Hz; [congruence|].
  assert (Hs : strlen buf = len).
  { apply Nat.le_antisymm; [now apply strlen_bound|].
    destruct (Nat.le_gt_cases len (strlen buf)) as [|Hgt]; [assumption|].
    exfalso. apply Hz. rewrite <- Hf.
    apply c_str_firstn_gt; [exact Hgt|].
    rewrite <- Hn. now apply nth_In. }
  split; [exact Hs|]. now rewrite c_str_firstn, Hs.
Qed.

(** [realloc], [memcpy] and the terminator: the text grows by the bytes
    copied. *)
Lemma grow_text (line ptr : list byte) (len count : nat) (acc : list byte) :
  holds line len acc -> count <= List.length ptr ->
  let size := len + count + 1 in
  let b := store (memcpy_at (firstn size line
                             ++ repeat xff (size - List.length line))
                            len (firstn count ptr))
                 (len + count) x00 in
  holds b (len + count) (acc ++ firstn count ptr) /\ b <> [].
Proof.
  intros Hh Hc size b.
  pose proof (@holds_length line len acc Hh) as Hacc.
  set (r := firstn size line ++ repeat xff (size - List.length line)).
  assert (Hr : List.length r = size)
    by (unfold r; rewrite length_app, length_firstn, repeat_length; lia).
  assert (Hsrc : List.length (firstn count ptr) = count)
    by (rewrite length_firstn; lia).
  assert (Hpre : firstn len r = acc).
  { destruct Hh as [(-> & -> & ->)|(Hl & Hf & _)]; [reflexivity|].
    unfold r. rewrite firstn_app, firstn_firstn, length_firstn.
    replace (len - Nat.min size (List.length line)) with 0
      by (unfold size; lia).
    replace (Nat.min len size) with len by (unfold size; lia).
    cbn [firstn]. now rewrite app_nil_r. }
  set (m := memcpy_at r len (firstn count ptr)).
  assert (Hm : List.length m = size).
  { unfold m, memcpy_at.
    rewrite !length_app, length_firstn, length_skipn, Hsrc, Hr.
    unfold size. lia. }
  assert (Hmf : firstn (len + count) m = acc ++ firstn count ptr).
  { unfold m, memcpy_at. rewrite Hsrc, Hpre.
    rewrite app_assoc, firstn_app.
    assert (Hlen : List.length (acc ++ firstn count ptr) = len + count)
      by (rewrite length_app, Hsrc; lia).
    rewrite Hlen, Nat.sub_diag, firstn_0, app_nil_r.
    apply firstn_all2. lia. }
  assert (Hb : b = firstn (len + count) m
                   ++ x00 :: skipn (Datatypes.S (len + count)) m).
  { unfold b. fold r. fold m. apply store_eq. rewrite Hm. unfold size. lia. }
  assert (Hfl : List.length (firstn (len + count) m) = len + count)
    by (rewrite Hmf, length_app, Hsrc; lia).
  split; [|rewrite Hb; intros E; apply app_eq_nil in E; destruct E;
           discriminate].
  right. split; [|split].
  - unfold b. fold r. fold m. rewrite store_length, Hm. unfold size. lia.
  - rewrite Hb, firstn_app, Hfl, Nat.sub_diag, firstn_0, app_nil_r.
    rewrite firstn_all2 by lia. exact Hmf.
  - rewrite Hb. rewrite app_nth2 by lia. now rewrite Hfl, Nat.sub_diag.
Qed.


Lemma firstn_snoc (k : nat) (l : list byte) :
  k < List.length l ->
  firstn (Datatypes.S k) l = firstn k l ++ [nth k l x00].
Proof.
  revert l. induction k as [|k IH]; intros [|c r] Hk; cbn in *;
    try lia; [reflexivity|].
  f_equal. apply IH. lia.
Qed.

Lemma store_nth_at (b : list byte) (j : nat) (v : byte) :
  j < List.length b -> nth j (store b j v) x00 = v.
Proof.
  intros Hj. rewrite store_eq by assumption.
  rewrite app_nth2; rewrite length_firstn;
    replace (Nat.min j (List.length b)) with j by lia; [|lia].
  now rewrite Nat.sub_diag.
Qed.

Lemma store_firstn (b : list byte) (j : nat) (v : byte) :
  firstn j (store b j v) = firstn j b.
Proof.
  unfold store. destruct (Nat.ltb_spec j (List.length b)); [|reflexivity].
  rewrite firstn_app, length_firstn.
  replace (Nat.min j (List.length b)) with j by lia.
  rewrite Nat.sub_diag, firstn_firstn, Nat.min_id. cbn. apply app_nil_r.
Qed.

(** The carriage return before the newline: taken off when the text ends
    with one, and only then. *)
Lemma strip_cr_text (line : list byte) (len : nat) (acc : list byte) :
  holds line len acc -> line <> [] ->
  (forall p, acc = p ++ [x0d] ->
             holds (snd (strip_cr len line)) (fst (strip_cr len line)) p) /\
  ((forall p, acc <> p ++ [x0d]) -> strip_cr len line = (len, line)).
Proof.
  intros [(-> & _ & _)|(Hl & Hf & Hn)] Hne; [congruence|].
  unfold strip_cr. split.
  - intros p ->.
    assert (Hlen : len = Datatypes.S (List.length p)).
    { apply (f_equal (@List.length byte)) in Hf.
      rewrite length_firstn, length_app in Hf. cbn in Hf. lia. }
    assert (Hcr : nth (len - 1) line x00 = x0d).
    { rewrite <- (firstn_skipn len line), app_nth1
        by (rewrite length_firstn; lia).
      rewrite Hf. replace (len - 1) with (List.length p) by lia.
      apply nth_middle. }
    rewrite Hcr. replace (0 <? len) with true by (symmetry; apply Nat.ltb_lt; lia).
    rewrite (proj2 (byte_eqb_eq x0d x0d) eq_refl).
    cbn [andb fst snd]. right. split; [|split].
    + rewrite store_length. lia.
    + rewrite store_firstn.
      replace (len - 1) with (Nat.min (len - 1) len) by lia.
      rewrite <- firstn_firstn, Hf, firstn_app.
      replace (len - 1 - List.length p) with 0 by lia.
      replace (len - 1) with (List.length p) by lia.
      rewrite firstn_all. cbn. apply app_nil_r.
    + apply store_nth_at. lia.
  - intros Hno.
    destruct (Nat.ltb_spec 0 len) as [Hp|Hz]; [|reflexivity].
    cbn [andb].
    destruct (Byte.eqb (nth (len - 1) line x00) x0d) eqn:E; [|reflexivity].
    apply byte_eqb_eq in E. exfalso. apply (Hno (firstn (len - 1) line)).
    rewrite <- Hf, <- E.
    pose proof (@firstn_snoc (len - 1) line) as Hsn.
    replace (Datatypes.S (len - 1)) with len in Hsn by lia.
    apply Hsn. lia.
Qed.

(** The code after the loop, no allocation failing: the line returned
    has the text of the buffer. *)
Lemma finish_text (e : env S) (line : list byte) (len ln : nat)
      (acc : list byte) :
  holds line len acc -> line <> [] -> ~ In x00 acc -> allocs e = [] ->
  exists out e',
    finish e line (strlen line) ln = (0%Z, Some out, ln, e') /\
    c_str out = acc /\ strm e' = strm e /\ allocs e' = [].
Proof.
  intros Hh Hne Hz Hal.
  destruct (@holds_strlen line len acc Hh Hne Hz) as [Hs Hc].
  unfold finish, realloc. rewrite Hal.
  eexists _, _. split; [reflexivity|]. split; [|split; reflexivity].
  rewrite <- Hc. apply c_str_cut.
  destruct Hh as [(-> & _ & _)|(Hl & _ & Hn)]; [congruence|].
  rewrite <- Hn. now apply nth_In.
Qed.


Lemma find_newline_inside (ptr r : list byte) :
  find_newline ptr < List.length ptr ->
  find_newline (ptr ++ r) = find_newline ptr.
Proof.
  induction ptr as [|c p IH]; cbn; [lia|].
  destruct (Byte.eqb c x0a); [reflexivity|]. intros H. f_equal. apply IH. lia.
Qed.

Lemma find_newline_outside (ptr r : list byte) :
  find_newline ptr = List.length ptr ->
  find_newline (ptr ++ r) = List.length ptr + find_newline r.
Proof.
  induction ptr as [|c p IH]; cbn; [reflexivity|].
  destruct (Byte.eqb c x0a); [discriminate|]. intros H. f_equal. apply IH. lia.
Qed.

Lemma prefix_of_app (ptr r more tail : list byte) :
  ptr ++ r = more ++ tail -> List.length ptr <= List.length more ->
  more = ptr ++ skipn (List.length ptr) more /\
  r = skipn (List.length ptr) more ++ tail.
Proof.
  revert more. induction ptr as [|c p IH]; intros more E Hl; cbn in *.
  - split; [reflexivity|exact E].
  - destruct more as [|m more]; cbn in *; [lia|].
    injection E as -> E. destruct (IH more E) as [H1 H2]; [lia|].
    split; [now f_equal|exact H2].
Qed.

(** One pass of the loop over a window, no allocation failing. *)
Lemma loop_turn (e : env S) (line : list byte) (len ln : nat)
      (ptr : list byte) (s1 s2 : S) :
  istream_get_buffered_data (strm e) = (BufData ptr, s1) ->
  allocs e = [] ->
  let i := find_newline ptr in
  let have_line := i <? List.length ptr in
  istream_advance_buffer s1 (if have_line then Datatypes.S i else i)
  = (true, s2) ->
  exists e1,
    strm e1 = s2 /\ allocs e1 = [] /\
    forall fuel,
      get_line_loop LT RT SE SZ (Datatypes.S fuel) 0 e line len ln
      = let line1 :=
          store (memcpy_at (firstn (len + i + 1) line
                            ++ repeat xff (len + i + 1 - List.length line))
                           len (firstn i ptr))
                (len + i) x00 in
        if have_line
        then let sc := strip_cr (len + i) line1 in
             Some (finish e1 (snd sc) (strlen (snd sc)) ln)
        else get_line_loop LT RT SE SZ fuel 0 e1 line1 (len + i) ln.
Proof.
  intros Hget Hal i have_line Hadv.
  eexists (mk_env s2 _ _ _ _ _). split; [reflexivity|].
  split; [reflexivity|]. intros fuel.
  cbn [get_line_loop]. rewrite Hget.
  unfold realloc at 1. cbn [allocs alloc_log live io_errors strm with_strm diag].
  rewrite Hal. fold i. fold have_line. cbn [strm]. rewrite Hadv.
  destruct have_line; [|reflexivity].
  cbv zeta. destruct (strip_cr _ _) as [n1 b1]. cbn [snd fst].
  rewrite trim_no_flags. rewrite has_flag_zero. cbn [negb].
  now rewrite orb_true_r.
Qed.

Lemma skipn_succ_app (more rest : list byte) (c : byte) :
  skipn (Datatypes.S (List.length more)) (more ++ c :: rest) = rest.
Proof. induction more as [|m more IH]; [reflexivity|exact IH]. Qed.

(** The loop up to the newline that ends the line. *)
Lemma read_to_newline (n : nat) :
  forall (more : list byte) (e : env S) (line : list byte) (len ln : nat)
         (acc rest : list byte),
    List.length more <= n ->
    holds line len acc -> allocs e = [] ->
    content (strm e) = more ++ x0a :: rest -> ~ In x0a more ->
    exists fuel e1 line1,
      get_line_loop LT RT SE SZ fuel 0 e line len ln
      = (let sc := strip_cr (len + List.length more) line1 in
         Some (finish e1 (snd sc) (strlen (snd sc)) ln)) /\
      holds line1 (len + List.length more) (acc ++ more) /\ line1 <> [] /\
      content (strm e1) = rest /\ allocs e1 = [].
Proof.
  induction n as [|n IH]; intros more e line len ln acc rest Hn Hh Hal Hc Hnl.
  all: pose proof (get_data_content (strm e)) as Hg.
  all: destruct (istream_get_buffered_data (strm e)) as [[| |ptr] s1] eqn:Hget;
    [contradiction
    |destruct Hg as [Hg _]; rewrite Hc in Hg; now destruct more|].
  all: destruct Hg as (Hne & Hs1 & [r Hr] & Hadv).
  all: rewrite Hc in Hr.
  all: pose proof (find_newline_le ptr) as Hle.
  all: pose proof (@find_newline_app more rest Hnl) as Hfn.
  all: rewrite Hr in Hfn.
  all: destruct (Nat.ltb_spec (find_newline ptr) (List.length ptr))
         as [Hin|Hout].
  1, 3: rewrite find_newline_inside in Hfn by assumption.
  1, 2: destruct (Hadv (Datatypes.S (find_newline ptr))) as (s2 & Ha & Hc2);
         [lia|].
  1, 2: destruct (@loop_turn e line len ln ptr s1 s2 Hget Hal)
         as (e1 & He1 & Hal1 & Hloop);
         [pose proof Hin as Hb; apply Nat.ltb_lt in Hb; rewrite Hb; exact Ha|].
  1, 2: specialize (Hloop 0);
        pose proof Hin as Hb; apply Nat.ltb_lt in Hb; rewrite Hb in Hloop;
        cbv zeta in Hloop.
  1, 2: destruct (@prefix_of_app more (x0a :: rest) ptr r Hr)
         as [Hp _]; [lia|].
  1, 2: assert (Hmore : firstn (find_newline ptr) ptr = more)
         by (rewrite Hfn, Hp, firstn_app, Nat.sub_diag, firstn_all;
             cbn; apply app_nil_r).
  1, 2: destruct (@grow_text line ptr len (find_newline ptr) acc Hh Hle)
         as [Hh1 Hne1].
  1, 2: rewrite Hmore in Hh1, Hloop, Hne1; rewrite Hfn in Hh1, Hloop, Hne1.
  1, 2: eexists 1, e1, _; split; [exact Hloop|];
        split; [exact Hh1|]; split; [exact Hne1|];
        split; [|exact Hal1];
        rewrite He1, Hc2, Hc, Hfn; apply skipn_succ_app.
  - exfalso. assert (Hlen : find_newline ptr = List.length ptr) by lia.
    rewrite find_newline_outside in Hfn by assumption.
    destruct ptr; [congruence|]. cbn in Hfn. lia.
  - assert (Hlen : find_newline ptr = List.length ptr) by lia.
    rewrite find_newline_outside in Hfn by assumption.
    destruct (@prefix_of_app ptr r more (x0a :: rest) (eq_sym Hr))
      as [Hm Hr']; [lia|].
    set (more' := skipn (List.length ptr) more) in *. clearbody more'.
    destruct (Hadv (List.length ptr)) as (s2 & Ha & Hc2); [lia|].
    destruct (@loop_turn e line len ln ptr s1 s2 Hget Hal)
      as (e1 & He1 & Hal1 & Hloop);
      [pose proof Hout as Hb; apply Nat.ltb_ge in Hb; rewrite Hb, Hlen;
       exact Ha|].
    assert (Hcont : content (strm e1) = more' ++ x0a :: rest).
    { rewrite He1, Hc2, Hc. rewrite Hm at 1.
      now rewrite <- app_assoc, skipn_app, Nat.sub_diag, skipn_all. }
    destruct (@grow_text line ptr len (List.length ptr) acc Hh (le_n _))
      as [Hh1 Hne1].
    rewrite firstn_all in Hh1.
    assert (Hnl' : ~ In x0a more')
      by (intros Hx; apply Hnl; rewrite Hm; apply in_or_app; now right).
    assert (Hsum : List.length more = List.length ptr + List.length more').
    { rewrite Hm at 1. now rewrite length_app. }
    assert (Hlm : List.length more' <= n).
    { destruct ptr; [congruence|]. cbn in Hsum. lia. }
    destruct (IH more' e1 _ (len + List.length ptr) ln (acc ++ ptr) rest
                 Hlm Hh1 Hal1 Hcont Hnl')
      as (fuel & e2 & line2 & Hrun & Hh2 & Hne2 & Hc3 & Hal2).
    replace (len + List.length ptr + List.length more')
      with (len + List.length more) in Hrun, Hh2 by lia.
    rewrite <- app_assoc, <- Hm in Hh2.
    specialize (Hloop fuel).
    pose proof Hout as Hb. apply Nat.ltb_ge in Hb. rewrite Hb in Hloop.
    cbv zeta in Hloop. rewrite Hlen, firstn_all in Hloop.
    exists (Datatypes.S fuel), e2, line2.
    split; [|now repeat split].
    rewrite Hloop. exact Hrun.
Qed.


Lemma find_newline_absent (ptr : list byte) :
  ~ In x0a ptr -> find_newline ptr = List.length ptr.
Proof.
  induction ptr as [|c p IH]; cbn; [reflexivity|]. intros Hn.
  destruct (Byte.eqb c x0a) eqn:E; [apply byte_eqb_eq in E; tauto|].
  f_equal. apply IH. tauto.
Qed.

(** The loop up to the end of the input, the last line having no
    newline. *)
Lemma read_to_eof (n : nat) :
  forall (more : list byte) (e : env S) (line : list byte) (len ln : nat)
         (acc : list byte),
    List.length more <= n ->
    holds line len acc -> allocs e = [] ->
    content (strm e) = more -> ~ In x0a more ->
    exists fuel e1 line1,
      get_line_loop LT RT SE SZ fuel 0 e line len ln
      = (if len + List.length more =? 0
         then Some (out_eof e1 line1 ln)
         else Some (finish e1 line1 (strlen line1) ln)) /\
      holds line1 (len + List.length more) (acc ++ more) /\
      content (strm e1) = [] /\ allocs e1 = [].
Proof.
  induction n as [|n IH]; intros more e line len ln acc Hn Hh Hal Hc Hnl.
  all: pose proof (get_data_content (strm e)) as Hg.
  all: destruct (istream_get_buffered_data (strm e)) as [[| |ptr] s1] eqn:Hget;
    [contradiction| |].
  1, 3: destruct Hg as [Hg Hs1]; rewrite Hg in Hc; subst more;
        exists 1, (with_strm e s1), line; cbn [get_line_loop];
        rewrite Hget; cbn [List.length]; rewrite Nat.add_0_r, app_nil_r;
        split; [destruct (len =? 0); [reflexivity|];
                rewrite trim_no_flags, has_flag_zero; cbn [negb];
                now rewrite orb_true_r
               |now repeat split].
  all: destruct Hg as (Hne & Hs1 & [r Hr] & Hadv).
  all: rewrite Hc in Hr.
  - destruct more; [|cbn in Hn; lia]. now destruct ptr.
  - assert (Hnp : ~ In x0a ptr)
      by (intros Hx; apply Hnl; rewrite Hr; apply in_or_app; now left).
    pose proof (@find_newline_absent ptr Hnp) as Hlen.
    assert (Hm : more = ptr ++ r) by exact Hr.
    destruct (Hadv (List.length ptr)) as (s2 & Ha & Hc2); [lia|].
    assert (Hb : (find_newline ptr <? List.length ptr) = false)
      by (apply Nat.ltb_ge; lia).
    destruct (@loop_turn e line len ln ptr s1 s2 Hget Hal)
      as (e1 & He1 & Hal1 & Hloop); [rewrite Hb, Hlen; exact Ha|].
    assert (Hcont : content (strm e1) = r).
    { rewrite He1, Hc2, Hc, Hm.
      now rewrite skipn_app, Nat.sub_diag, skipn_all. }
    destruct (@grow_text line ptr len (List.length ptr) acc Hh (le_n _))
      as [Hh1 Hne1].
    rewrite firstn_all in Hh1.
    assert (Hnl' : ~ In x0a r)
      by (intros Hx; apply Hnl; rewrite Hm; apply in_or_app; now right).
    assert (Hsum : List.length more = List.length ptr + List.length r)
      by (rewrite Hm; apply length_app).
    assert (Hlm : List.length r <= n).
    { destruct ptr; [congruence|]. cbn in Hsum. lia. }
    destruct (IH r e1 _ (len + List.length ptr) ln (acc ++ ptr)
                 Hlm Hh1 Hal1 Hcont Hnl')
      as (fuel & e2 & line2 & Hrun & Hh2 & Hc3 & Hal2).
    replace (len + List.length ptr + List.length r)
      with (len + List.length more) in Hrun, Hh2 by lia.
    rewrite <- app_assoc, <- Hm in Hh2.
    specialize (Hloop fuel). rewrite Hb in Hloop.
    cbv zeta in Hloop. rewrite Hlen, firstn_all in Hloop.
    exists (Datatypes.S fuel), e2, line2.
    split; [|now repeat split].
    rewrite Hloop. exact Hrun.
Qed.

Lemma ends_with_cr (l : list byte) :
  (exists p, l = p ++ [x0d]) \/ (forall p, l <> p ++ [x0d]).
Proof.
  destruct (rev l) as [|c r] eqn:E.
  - right. intros p ->. rewrite rev_app_distr in E. discriminate.
  - destruct (Byte.eqb c x0d) eqn:Ec.
    + apply byte_eqb_eq in Ec. subst c. left. exists (rev r).
      rewrite <- (rev_involutive l), E. reflexivity.
    + apply byte_eqb_neq in Ec. right. intros p ->.
      rewrite rev_app_distr in E. cbn in E. congruence.
Qed.

End ReadLines.

Section LineCounter.
Import GetLine.
Context {S : Type} {HS : IStream S}.
Variables LT RT SE : Z.
Variable SZ : nat.





End LineCounter.



#[global] Instance sliced_bytes : GetLine.IStreamBytes GetLine.sliced.
Proof.
  refine {| GetLine.content := GetLine.data |}.
  intros [d w]. cbn. unfold GetLine.sliced_get. cbn [GetLine.data GetLine.width].
  destruct d as [|c d]; [split; reflexivity|].
  split; [discriminate|]. split; [reflexivity|].
  split; [exists (skipn (Datatypes.S w) (c :: d)); symmetry; apply firstn_skipn|].
  intros n Hn. unfold GetLine.sliced_advance. cbn [GetLine.data GetLine.width].
  apply Nat.leb_le in Hn. rewrite Hn. eexists. split; reflexivity.
Defined.

(** X5.  A stream that behaves as a sequence of bytes, no flags, no
    allocation failing: when the bytes to come are a line free of newlines
    and terminators, a newline and the rest, [istream_get_line] returns 0
    with that line, however the line is spread over the windows of the
    stream; one carriage return at the end of the line is dropped, the
    line counter is not moved, and the stream is left at the rest. *)
Theorem get_line_newline_terminated
        (S : Type) {HS : GetLine.IStream S} {HB : GetLine.IStreamBytes S}
        (LT RT SE : Z) (SZ : nat) (e : GetLine.env S) (ln : nat)
        (line rest : list byte) :
  GetLine.allocs e = [] ->
  GetLine.content (GetLine.strm e) = line ++ x0a :: rest ->
  ~ In x0a line -> ~ In x00 line ->
  exists fuel out e',
    GetLine.istream_get_line LT RT SE SZ fuel e ln 0
    = Some (0%Z, Some out, ln, e') /\
    GetLine.content (GetLine.strm e') = rest /\
    (forall p, line = p ++ [x0d] -> GetLine.c_str out = p) /\
    ((forall p, line <> p ++ [x0d]) -> GetLine.c_str out = line).
Proof.
  intros Hal Hc Hnl Hz.
  destruct (@read_to_newline S HS HB LT RT SE SZ (List.length line) line e [] 0
              ln [] rest (le_n _)) as (fuel & e1 & line1 & Hrun & Hh & Hne & Hc1 & Hal1);
    [left; now repeat split|exact Hal|exact Hc|exact Hnl|].
  cbn [Nat.add app] in Hrun, Hh.
  destruct (@strip_cr_text line1 (List.length line) line Hh Hne) as [Hcr Hno].
  destruct (ends_with_cr line) as [[p Hp]|Hnone].
  - specialize (Hcr p Hp).
    assert (Hzp : ~ In x00 p)
      by (intros Hx; apply Hz; rewrite Hp; apply in_or_app; now left).
    assert (Hne2 : snd (GetLine.strip_cr (List.length line) line1) <> []).
    { unfold GetLine.strip_cr. destruct (_ && _); cbn [snd]; [|exact Hne].
      intros E. apply (f_equal (@List.length byte)) in E.
      rewrite store_length in E. destruct line1; [congruence|discriminate]. }
    destruct (@finish_text S e1 _ _ ln p Hcr Hne2 Hzp Hal1)
      as (out & e' & Hfin & Hout & Hs & _).
    exists fuel, out, e'. unfold GetLine.istream_get_line.
    rewrite Hrun. cbv zeta. rewrite Hfin.
    split; [reflexivity|]. split; [now rewrite Hs|].
    split.
    + intros p' Hp'. rewrite Hp in Hp'. apply app_inj_tail in Hp'.
      destruct Hp' as [<- _]. exact Hout.
    + intros Habs. now destruct (Habs p).
  - rewrite (Hno Hnone) in Hrun. cbn [snd] in Hrun.
    destruct (@finish_text S e1 line1 _ ln line Hh Hne Hz Hal1)
      as (out & e' & Hfin & Hout & Hs & _).
    exists fuel, out, e'. unfold GetLine.istream_get_line.
    rewrite Hrun, Hfin.
    split; [reflexivity|]. split; [now rewrite Hs|].
    split; [intros p Hp; now destruct (Hnone p)|intros _; exact Hout].
Qed.

(** The text [ab] with a carriage return and a newline, then [cd], in
    windows of two bytes. *)
Lemma get_line_newline_terminated_witness :
  let e := GetLine.mk_env
             (GetLine.mk_sliced [x61; x62; x0d; x0a; x63; x64] 1)
             0 [] [] 0 [] in
  (GetLine.allocs e = [] /\
   GetLine.content (GetLine.strm e) = [x61; x62; x0d] ++ x0a :: [x63; x64]) /\
  exists fuel out e',
    GetLine.istream_get_line 1 2 4 GetLine.SIZE_MAX_16 fuel e 0 0
    = Some (0%Z, Some out, 0, e') /\
    GetLine.content (GetLine.strm e') = [x63; x64] /\
    GetLine.c_str out = [x61; x62].
Proof.
  intros e. split; [split; reflexivity|].
  assert (Hc : GetLine.content (GetLine.strm e)
               = [x61; x62; x0d] ++ x0a :: [x63; x64]) by reflexivity.
  destruct (@get_line_newline_terminated
              GetLine.sliced GetLine.sliced_stream sliced_bytes
              1 2 4 GetLine.SIZE_MAX_16 e 0 [x61; x62; x0d] [x63; x64]
              eq_refl Hc)
    as (fuel & out & e' & H1 & H2 & H3 & _).
  - cbn. intros [H|[H|[H|[]]]]; discriminate H.
  - cbn. intros [H|[H|[H|[]]]]; discriminate H.
  - exists fuel, out, e'. split; [exact H1|]. split; [exact H2|].
    exact (H3 [x61; x62] eq_refl).
Defined.

(** X6.  The same stream with the input ending in a line without a
    newline: [istream_get_line] returns 0 with that line as it is, a
    carriage return at its end included, and the stream is at its end. *)
Theorem get_line_last_line
        (S : Type) {HS : GetLine.IStream S} {HB : GetLine.IStreamBytes S}
        (LT RT SE : Z) (SZ : nat) (e : GetLine.env S) (ln : nat)
        (line : list byte) :
  GetLine.allocs e = [] ->
  GetLine.content (GetLine.strm e) = line -> line <> [] ->
  ~ In x0a line -> ~ In x00 line ->
  exists fuel out e',
    GetLine.istream_get_line LT RT SE SZ fuel e ln 0
    = Some (0%Z, Some out, ln, e') /\
    GetLine.c_str out = line /\
    GetLine.content (GetLine.strm e') = [].
Proof.
  intros Hal Hc Hne Hnl Hz.
  destruct (@read_to_eof S HS HB LT RT SE SZ (List.length line) line e [] 0
              ln [] (le_n _))
    as (fuel & e1 & line1 & Hrun & Hh & Hc1 & Hal1);
    [left; now repeat split|exact Hal|exact Hc|exact Hnl|].
  cbn [Nat.add app] in Hrun, Hh.
  assert (Hlen : (List.length line =? 0) = false)
    by (apply Nat.eqb_neq; now destruct line).
  rewrite Hlen in Hrun.
  assert (Hne1 : line1 <> []).
  { destruct Hh as [(_ & _ & E)|(Hl & _)]; [congruence|].
    intros E. rewrite E in Hl. cbn in Hl. lia. }
  destruct (@finish_text S e1 line1 _ ln line Hh Hne1 Hz Hal1)
    as (out & e' & Hfin & Hout & Hs & _).
  exists fuel, out, e'. unfold GetLine.istream_get_line.
  rewrite Hrun, Hfin. split; [reflexivity|]. split; [exact Hout|].
  now rewrite Hs.
Qed.

(** The last line [a] with a carriage return, in windows of one byte. *)
Lemma get_line_last_line_witness :
  let e := GetLine.mk_env (GetLine.mk_sliced [x61; x0d] 0) 0 [] [] 0 [] in
  (GetLine.allocs e = [] /\ GetLine.content (GetLine.strm e) = [x61; x0d]) /\
  exists fuel out e',
    GetLine.istream_get_line 1 2 4 GetLine.SIZE_MAX_16 fuel e 0 0
    = Some (0%Z, Some out, 0, e') /\
    GetLine.c_str out = [x61; x0d] /\
    GetLine.content (GetLine.strm e') = [].
Proof.
  intros e. split; [split; reflexivity|].
  assert (Hc : GetLine.content (GetLine.strm e) = [x61; x0d])
    by reflexivity.
  apply (@get_line_last_line GetLine.sliced GetLine.sliced_stream
           sliced_bytes 1 2 4 GetLine.SIZE_MAX_16 e 0 [x61; x0d] eq_refl Hc).
  - discriminate.
  - cbn. intros [H|[H|[]]]; discriminate H.
  - cbn. intros [H|[H|[]]]; discriminate H.
Defined.

(** ** The file backed stream *)

(** X7.  A call of [file_precache] that returns -1 leaves the stream in
    order: the assertions at the head of the function hold again with
    [strm->buffer] at the start of the backing buffer, the bytes read
    before the failure are in the window and no byte of the file is lost,
    [eof] is not set, and [perror] was called once. *)
Theorem file_precache_failure (BUFSZ : nat) (fuel : nat)
        (f f' : Precache.file_istream) :
  Precache.precache_asserts BUFSZ f ->
  Precache.file_precache BUFSZ fuel f = Some ((-1)%Z, f') ->
  Precache.precache_asserts BUFSZ f' /\
  Precache.strm_buffer f' = 0 /\
  (Precache.window f' ++ Precache.fd_rest f'
   = Precache.window f ++ Precache.fd_rest f)%list /\
  Precache.eof f' = false /\
  Precache.diag f' = (Precache.diag f ++ ["file->path"%string])%list.
Proof.
  intros Ha E. destruct (@precache_start BUFSZ f Ha) as [Hbl Hbw].
  unfold Precache.file_precache in E.
  apply (@precache_loop_keeps BUFSZ) in E; [|exact Hbl|reflexivity|apply Ha].
  cbn [Precache.buffer Precache.buffer_used Precache.fd_rest Precache.diag]
    in E.
  destruct E as (P1 & P2 & P3 & P4 & [[Hr _]|(_ & P5 & P6)]); [discriminate|].
  rewrite Hbw in P4.
  split; [|split; [exact P2|split; [|split; assumption]]].
  - unfold Precache.precache_asserts. rewrite P2. repeat split; lia.
  - unfold Precache.window at 1. rewrite P2. exact P4.
Qed.

(** One byte is read, then the next [read] fails. *)
Lemma file_precache_failure_witness :
  let f := Precache.mk_file [x00; x00; x00; x00] 0 0 false [x61; x62]
                            [Precache.Serve 0; Precache.Eio] [] in
  let f' := Precache.mk_file [x61; x00; x00; x00] 0 1 false [x62] []
                             ["file->path"%string] in
  (Precache.precache_asserts 4 f /\
   Precache.file_precache 4 2 f = Some ((-1)%Z, f')) /\
  (Precache.window f' ++ Precache.fd_rest f'
   = Precache.window f ++ Precache.fd_rest f)%list.
Proof.
  intros f f'.
  assert (Ha : Precache.precache_asserts 4 f)
    by (unfold Precache.precache_asserts; cbn; lia).
  assert (E : Precache.file_precache 4 2 f = Some ((-1)%Z, f'))
    by reflexivity.
  split; [split; assumption|].
  exact (proj1 (proj2 (proj2 (@file_precache_failure 4 2 f f' Ha E)))).
Defined.

(** X8.  After a call of [file_precache] that returned 0, a further call
    reads nothing and changes nothing: it returns 0 with the same
    stream. *)
Theorem file_precache_idempotent (BUFSZ : nat) (fuel fuel2 : nat)
        (f f' : Precache.file_istream) :
  Precache.precache_asserts BUFSZ f ->
  Precache.file_precache BUFSZ fuel f = Some (0%Z, f') ->
  Precache.file_precache BUFSZ fuel2 f' = Some (0%Z, f').
Proof.
  intros Ha E. destruct (@precache_start BUFSZ f Ha) as [Hbl Hbw].
  unfold Precache.file_precache in E.
  apply (@precache_loop_inv BUFSZ) in E; [|exact Hbl|reflexivity|apply Ha].
  destruct E as [[Hr _]|[_ (P1 & P2 & P3 & _ & _ & P6)]]; [discriminate|].
  unfold Precache.file_precache. rewrite P2, memmove_front_zero.
  assert (Hsame : forall (c : bool) g,
             Precache.strm_buffer g = 0 ->
             Precache.mk_file
               (if c then Precache.buffer g else Precache.buffer g)
               0 (Precache.buffer_used g) (Precache.eof g)
               (Precache.fd_rest g) (Precache.fd_script g)
               (Precache.diag g) = g)
    by (intros c [] Hz; cbn in *; subst; now destruct c).
  rewrite (Hsame _ f' P2). apply precache_loop_stop.
  destruct P6 as [P6|P6]; [now left|right; lia].
Qed.

Lemma file_precache_idempotent_witness :
  let f := Precache.mk_file [x00; x00] 0 0 false [x61; x62; x63] [] [] in
  let f' := Precache.mk_file [x61; x62] 0 2 false [x63] [] [] in
  (Precache.precache_asserts 2 f /\
   Precache.file_precache 2 1 f = Some (0%Z, f')) /\
  Precache.file_precache 2 0 f' = Some (0%Z, f').
Proof.
  intros f f'.
  assert (Ha : Precache.precache_asserts 2 f)
    by (unfold Precache.precache_asserts; cbn; lia).
  assert (E : Precache.file_precache 2 1 f = Some (0%Z, f')) by reflexivity.
  split; [split; assumption|].
  exact (@file_precache_idempotent 2 1 0 f f' Ha E).
Defined.

(** X9.  Reads that fail with [EINTR] do not show in the outcome of
    [file_precache]: with the interrupted reads taken out of what the
    kernel does, the call returns the same value and leaves the same
    stream. *)
Theorem file_precache_eintr (BUFSZ : nat) (fuel : nat)
        (f f' : Precache.file_istream) (r : Z) :
  Precache.file_precache BUFSZ fuel f = Some (r, f') ->
  exists fuel2,
    Precache.file_precache BUFSZ fuel2
      (FileStream.with_script f (FileStream.drop_eintr (Precache.fd_script f)))
    = Some (r, FileStream.with_script f'
                 (FileStream.drop_eintr (Precache.fd_script f'))).
Proof.
  unfold Precache.file_precache. intros E.
  apply (@precache_loop_script BUFSZ) in E. destruct E as [fuel2 E].
  exists fuel2. exact E.
Qed.

Lemma file_precache_eintr_witness :
  let f := Precache.mk_file [x00; x00] 0 0 false [x61]
             [Precache.Eintr; Precache.Serve 0; Precache.Eintr] [] in
  let f' := Precache.mk_file [x61; x00] 0 1 true [] [] [] in
  Precache.file_precache 2 4 f = Some (0%Z, f') /\
  exists fuel2,
    Precache.file_precache 2 fuel2
      (Precache.mk_file [x00; x00] 0 0 false [x61] [Precache.Serve 0] [])
    = Some (0%Z, f').
Proof.
  intros f f'.
  assert (E : Precache.file_precache 2 4 f = Some (0%Z, f')) by reflexivity.
  split; [exact E|].
  exact (@file_precache_eintr 2 4 f f' 0%Z E).
Defined.

Section OpenFacts.
Import Precache FileStream.

Lemma alloc_cases (p : proc) :
  (exists rest, allocs p = false :: rest /\
                alloc p = (false, mk_proc rest (heap p) (fds p) (err p))) \/
  alloc p = (true, mk_proc (tl (allocs p)) (Datatypes.S (heap p)) (fds p)
                           (err p)).
Proof.
  unfold alloc. destruct (allocs p) as [|[|] rest]; [now right|now right|].
  left. now exists rest.
Qed.

End OpenFacts.

(** X10.  When [istream_open_file] returns [NULL], whichever of [calloc],
    [strdup] and [open] failed, every block it allocated has been freed,
    no descriptor was left open, and [perror(path)] was called once. *)
Theorem istream_open_file_fails (BUFSZ : nat)
        (sys_open : string -> option (Z * list byte * list Precache.read_ev))
        (pth : string) (p p' : FileStream.proc) :
  FileStream.istream_open_file BUFSZ sys_open pth p = (None, p') ->
  FileStream.heap p' = FileStream.heap p /\
  FileStream.fds p' = FileStream.fds p /\
  FileStream.err p' = (FileStream.err p ++ [pth])%list.
Proof.
  unfold FileStream.istream_open_file.
  destruct (alloc_cases p) as [(r1 & _ & ->)| ->].
  { intros E. injection E as <-. now cbn. }
  match goal with |- context [FileStream.alloc ?q] =>
    destruct (alloc_cases q) as [(r2 & _ & ->)| ->] end.
  { intros E. injection E as <-. now cbn. }
  destruct (sys_open pth) as [[[d bytes] script]|]; [discriminate|].
  intros E. injection E as <-. now cbn.
Qed.

(** [calloc] and [strdup] succeed, [open] fails. *)
Lemma istream_open_file_fails_witness :
  let p := FileStream.mk_proc [] 3 [0%Z; 1%Z; 2%Z] [] in
  let p' := FileStream.mk_proc [] 3 [0%Z; 1%Z; 2%Z] ["f"%string] in
  FileStream.istream_open_file 4 (fun _ => None) "f" p = (None, p') /\
  FileStream.heap p' = FileStream.heap p /\
  FileStream.fds p' = FileStream.fds p /\
  FileStream.err p' = (FileStream.err p ++ ["f"%string])%list.
Proof.
  intros p p'.
  assert (E : FileStream.istream_open_file 4 (fun _ => None) "f" p
              = (None, p')) by reflexivity.
  split; [exact E|].
  exact (@istream_open_file_fails 4 (fun _ => None) "f"%string p p' E).
Defined.

(** X11.  A stream that [istream_open_file] returned carries the path it
    was opened with and the descriptor [open] returned, and meets the
    assertions of [file_precache] with an empty window; a call of
    [file_precache] on it that returns 0 has the beginning of the file in
    the window, up to the end of the file or [BUFSZ] bytes: the window is
    the first [BUFSZ] bytes of the file, what follows them is still to be
    read, and [eof] is set exactly when the file is shorter than
    [BUFSZ]. *)
Theorem istream_open_file_ready (BUFSZ : nat)
        (sys_open : string -> option (Z * list byte * list Precache.read_ev))
        (pth : string) (p p' : FileStream.proc) (o : FileStream.file_obj) :
  FileStream.istream_open_file BUFSZ sys_open pth p = (Some o, p') ->
  FileStream.file_get_filename o = pth /\
  Precache.precache_asserts BUFSZ (FileStream.strm o) /\
  Precache.window (FileStream.strm o) = [] /\
  Precache.eof (FileStream.strm o) = false /\
  exists bytes script,
    sys_open pth = Some (FileStream.fd o, bytes, script) /\
    forall fuel f',
      Precache.file_precache BUFSZ fuel (FileStream.strm o) = Some (0%Z, f') ->
      Precache.window f' = firstn BUFSZ bytes /\
      Precache.fd_rest f' = skipn BUFSZ bytes /\
      Precache.eof f' = (List.length bytes <? BUFSZ) /\
      (Precache.window f' ++ Precache.fd_rest f' = bytes)%list /\
      (Precache.eof f' = true \/ List.length (Precache.window f') = BUFSZ).
Proof.
  unfold FileStream.istream_open_file.
  destruct (alloc_cases p) as [(r1 & _ & ->)| ->]; [discriminate|].
  match goal with |- context [FileStream.alloc ?q] =>
    destruct (alloc_cases q) as [(r2 & _ & ->)| ->] end; [discriminate|].
  destruct (sys_open pth) as [[[d bytes] script]|]; [|discriminate].
  intros E. injection E as <- <-.
  cbn [FileStream.file_get_filename FileStream.fresh FileStream.path
       FileStream.strm FileStream.fd].
  split; [reflexivity|].
  assert (Ha : Precache.precache_asserts BUFSZ
                 (Precache.mk_file (repeat x00 BUFSZ) 0 0 false bytes script
                                   [])).
  { unfold Precache.precache_asserts. cbn. rewrite repeat_length. lia. }
  split; [exact Ha|]. split; [reflexivity|]. split; [reflexivity|].
  exists bytes, script. split; [reflexivity|].
  intros fuel f' Hrun. unfold Precache.file_precache in Hrun.
  cbn [Precache.buffer_used Precache.buffer Precache.eof Precache.fd_rest
       Precache.fd_script Precache.diag Nat.ltb Nat.leb] in Hrun.
  pose proof Hrun as Hinv.
  apply (@precache_loop_inv BUFSZ) in Hinv;
    [|cbn; apply repeat_length|reflexivity|cbn; lia].
  destruct Hinv as [[Hr _]|[_ (P1 & P2 & P3 & _ & P5 & P6)]]; [discriminate|].
  apply (@precache_loop_window BUFSZ) in Hrun;
    [|cbn; apply repeat_length|reflexivity|cbn; lia|reflexivity].
  destruct Hrun as (W1 & W2 & W3).
  cbn in P5, W1, W2, W3. rewrite Nat.sub_0_r in W2.
  unfold Precache.window. rewrite P2. cbn [skipn].
  split; [exact W1|]. split; [exact W2|]. split; [exact W3|].
  split; [exact P5|].
  destruct P6 as [P6|P6]; [now left|right].
  rewrite length_firstn. lia.
Qed.

(** A file of three bytes behind a buffer of two. *)
Lemma istream_open_file_ready_witness :
  let p := FileStream.mk_proc [] 0 [] [] in
  let os := fun _ : string =>
              Some (3%Z, [x61; x62; x63], [Precache.Serve 0]) in
  let o := FileStream.fresh 2 "f" 3 [x61; x62; x63] [Precache.Serve 0] in
  let f' := Precache.mk_file [x61; x62] 0 2 false [x63] [] [] in
  (FileStream.istream_open_file 2 os "f" p
   = (Some o, FileStream.mk_proc [] 2 [3%Z] []) /\
   Precache.file_precache 2 2 (FileStream.strm o) = Some (0%Z, f')) /\
  FileStream.file_get_filename o = "f"%string /\
  Precache.window f' = [x61; x62] /\
  Precache.fd_rest f' = [x63] /\
  Precache.eof f' = false.
Proof.
  intros p os o f'.
  assert (E : FileStream.istream_open_file 2 os "f" p
              = (Some o, FileStream.mk_proc [] 2 [3%Z] [])) by reflexivity.
  assert (R : Precache.file_precache 2 2 (FileStream.strm o)
              = Some (0%Z, f')) by reflexivity.
  split; [split; assumption|].
  destruct (@istream_open_file_ready 2 os "f"%string p _ o E)
    as (H1 & _ & _ & _ & bytes & script & Hs & H2).
  split; [exact H1|].
  injection Hs as <- <-.
  destruct (H2 2 f' R) as (W1 & W2 & W3 & _).
  split; [exact W1|]. split; [exact W2|exact W3].
Defined.

(** X12.  [file_destroy] on a stream that [istream_open_file] returned
    frees both blocks; it closes the descriptor, so that the descriptors
    open are those before the call, unless [open] returned descriptor 0:
    that descriptor is taken for the standard input and stays open. *)
Theorem file_destroy_releases (BUFSZ : nat)
        (sys_open : string -> option (Z * list byte * list Precache.read_ev))
        (pth : string) (p p' : FileStream.proc) (o : FileStream.file_obj) :
  FileStream.istream_open_file BUFSZ sys_open pth p = (Some o, p') ->
  FileStream.heap p' = FileStream.heap p + 2 /\
  FileStream.fds p' = FileStream.fd o :: FileStream.fds p /\
  FileStream.err p' = FileStream.err p /\
  FileStream.heap (FileStream.file_destroy o p') = FileStream.heap p /\
  FileStream.err (FileStream.file_destroy o p') = FileStream.err p /\
  (FileStream.fd o <> FileStream.STDIN_FILENO ->
   FileStream.fds (FileStream.file_destroy o p') = FileStream.fds p) /\
  (FileStream.fd o = FileStream.STDIN_FILENO ->
   FileStream.fds (FileStream.file_destroy o p')
   = FileStream.STDIN_FILENO :: FileStream.fds p).
Proof.
  unfold FileStream.istream_open_file.
  destruct (alloc_cases p) as [(r1 & _ & ->)| ->]; [discriminate|].
  match goal with |- context [FileStream.alloc ?q] =>
    destruct (alloc_cases q) as [(r2 & _ & ->)| ->] end; [discriminate|].
  destruct (sys_open pth) as [[[d bytes] script]|]; [|discriminate].
  intros E. injection E as <- <-.
  unfold FileStream.file_destroy.
  cbn [FileStream.fresh FileStream.fd FileStream.opened FileStream.heap
       FileStream.fds FileStream.err FileStream.allocs].
  split; [lia|]. split; [reflexivity|]. split; [reflexivity|].
  destruct (Z.eqb_spec d FileStream.STDIN_FILENO) as [Hd|Hd]; cbn [negb].
  - cbn. rewrite Hd. repeat split; intros; try reflexivity; congruence.
  - cbn. rewrite Z.eqb_refl. repeat split; intros; try reflexivity; congruence.
Qed.

Lemma file_destroy_releases_witness :
  let p := FileStream.mk_proc [] 0 [0%Z; 1%Z; 2%Z] [] in
  let os := fun _ : string => Some (3%Z, [x61], @nil Precache.read_ev) in
  let o := FileStream.fresh 2 "f" 3 [x61] [] in
  let p' := FileStream.mk_proc [] 2 [3%Z; 0%Z; 1%Z; 2%Z] [] in
  FileStream.istream_open_file 2 os "f" p = (Some o, p') /\
  FileStream.heap (FileStream.file_destroy o p') = FileStream.heap p /\
  FileStream.fds (FileStream.file_destroy o p') = FileStream.fds p.
Proof.
  intros p os o p'.
  assert (E : FileStream.istream_open_file 2 os "f" p = (Some o, p'))
    by reflexivity.
  split; [exact E|].
  pose proof (@file_destroy_releases 2 os "f"%string p p' o E)
    as (_ & _ & _ & H1 & _ & H2 & _).
  split; [exact H1|]. apply H2. discriminate.
Defined.

(** X13.  [istream_open_stdin] opens and closes no descriptor.  When it
    returns [NULL] nothing stays allocated and [perror] was called once;
    the stream it returns otherwise is on descriptor 0 under the name
    [stdin], and [file_destroy] on it frees both blocks and leaves
    descriptor 0 open. *)
Theorem istream_open_stdin_spec (BUFSZ : nat) (bytes : list byte)
        (script : list Precache.read_ev) (p p' : FileStream.proc)
        (r : option FileStream.file_obj) :
  FileStream.istream_open_stdin BUFSZ bytes script p = (r, p') ->
  FileStream.fds p' = FileStream.fds p /\
  match r with
  | None =>
      FileStream.heap p' = FileStream.heap p /\
      FileStream.err p'
      = (FileStream.err p ++ ["creating file wrapper for stdin"%string])%list
  | Some o =>
      FileStream.fd o = FileStream.STDIN_FILENO /\
      FileStream.file_get_filename o = "stdin"%string /\
      Precache.precache_asserts BUFSZ (FileStream.strm o) /\
      FileStream.heap p' = FileStream.heap p + 2 /\
      FileStream.err p' = FileStream.err p /\
      FileStream.heap (FileStream.file_destroy o p') = FileStream.heap p /\
      FileStream.fds (FileStream.file_destroy o p') = FileStream.fds p
  end.
Proof.
  unfold FileStream.istream_open_stdin.
  destruct (alloc_cases p) as [(r1 & _ & ->)| ->].
  { intros E. injection E as <- <-. now cbn. }
  match goal with |- context [FileStream.alloc ?q] =>
    destruct (alloc_cases q) as [(r2 & _ & ->)| ->] end.
  { intros E. injection E as <- <-. now cbn. }
  intros E. injection E as <- <-. cbn.
  split; [reflexivity|]. do 2 (split; [reflexivity|]).
  split; [unfold Precache.precache_asserts; cbn; rewrite repeat_length; lia|].
  repeat split; lia.
Qed.

Lemma istream_open_stdin_spec_witness :
  let p := FileStream.mk_proc [true; false] 1 [0%Z] [] in
  let p' := FileStream.mk_proc [] 1 [0%Z]
              ["creating file wrapper for stdin"%string] in
  FileStream.istream_open_stdin 4 [] [] p = (None, p') /\
  FileStream.fds p' = FileStream.fds p /\
  FileStream.heap p' = FileStream.heap p.
Proof.
  intros p p'.
  assert (E : FileStream.istream_open_stdin 4 [] [] p = (None, p'))
    by reflexivity.
  split; [exact E|].
  pose proof (@istream_open_stdin_spec 4 [] [] p p' None E) as (H1 & H2 & _).
  exact (conj H1 H2).
Defined.

(** ** The POSIX walker *)

(** X14.  The POSIX [fstree_from_subdir], whatever the callback does and
    whichever call fails: it returns 0 or -1, as many descriptors and
    directory handles are open afterwards as before and as many symlink
    buffers are allocated, and after 0 nothing was written to [stderr]. *)
Theorem posix_scan_releases (U : Type) (M : Fstree.dir_scan_masks)
        (sizeof_off_t sizeof_size_t : Z) (fs : Fstree.fstree)
        (cb : option (Scan.scan_node_callback U)) (flags : Z)
        (os_open : string -> option Posix.fsdir)
        (root : Fstree.tree_node) (path : string) (subdir : option string)
        (w : Scan.world U) :
  let '(ret, _, w') :=
    Posix.fstree_from_subdir M sizeof_off_t sizeof_size_t fs cb flags
                             os_open root path subdir w in
  (ret = 0 \/ ret = -1)%Z /\
  Scan.open_fds w' = Scan.open_fds w /\
  Scan.bufs w' = Scan.bufs w /\
  (ret = 0%Z -> Scan.stderr w' = Scan.stderr w).
Proof.
  unfold Posix.fstree_from_subdir.
  destruct (negb (Fstree.S_ISDIR (Fstree.mode root)));
    [cbn; repeat split; [now right|discriminate]|].
  destruct (os_open path) as [d|];
    [|cbn; repeat split; [now right|discriminate]].
  assert (Hrun : forall d0 (w0 : Scan.world U),
             Scan.open_fds w0 = Datatypes.S (Scan.open_fds w) ->
             Scan.bufs w0 = Scan.bufs w -> Scan.stderr w0 = Scan.stderr w ->
             let '(ret, _, w') :=
               match Posix.dir_stat d0 with
               | Some sb =>
                   Posix.populate_dir M sizeof_off_t sizeof_size_t fs cb
                                      flags d0 root (Fstree.st_dev sb) w0
               | None =>
                   ((-1)%Z, root,
                    Scan.fd_closed
                      (Scan.fprintf (Scan.set_errno w0 Scan.E_os)
                                    "path/subdir: strerror(errno)"))
               end in
             (ret = 0 \/ ret = -1)%Z /\
             Scan.open_fds w' = Scan.open_fds w /\
             Scan.bufs w' = Scan.bufs w /\
             (ret = 0%Z -> Scan.stderr w' = Scan.stderr w)).
  { intros d0 w0 Hf Hb He. destruct (Posix.dir_stat d0) as [sb|].
    - pose proof (@populate_dir_quiet U M sizeof_off_t sizeof_size_t fs cb
                    flags d0 root (Fstree.st_dev sb) w0) as Hq.
      destruct (Posix.populate_dir _ _ _ _ _ _ _ _ _ _) as [[ret root'] w'].
      destruct Hq as (H1 & H2 & H3 & m & H4 & H5); [lia|].
      split; [exact H1|]. split; [lia|]. split; [congruence|].
      intros Hz. rewrite H4, (H5 Hz), app_nil_r. exact He.
    - cbn. rewrite Hf. repeat split; [now right|exact Hb|discriminate]. }
  destruct subdir as [sd|].
  - destruct (Posix.openat d sd) as [d'|].
    + apply Hrun; reflexivity.
    + cbn. repeat split; [now right|discriminate].
  - apply Hrun; reflexivity.
Qed.

Section PosixFilters.
Import Fstree Scan Posix PosixSpec.
Context {U : Type}.
Variable M : dir_scan_masks.
Variables sizeof_off_t sizeof_size_t : Z.
Variable fs : fstree.
Variable cb : option (scan_node_callback U).
Variable flags : Z.
Variable devstart : Z.

Local Abbreviation scan_entry' :=
  (scan_entry M sizeof_off_t sizeof_size_t fs cb flags devstart).
Local Abbreviation scan_entries' :=
  (scan_entries M sizeof_off_t sizeof_size_t fs cb flags devstart).
Local Abbreviation populate_dir' :=
  (populate_dir M sizeof_off_t sizeof_size_t fs cb flags).

Lemma scan_entry_passed recurse continue (e : fsent) (root : tree_node)
      (w : world U) :
  passed_over M flags e = true ->
  scan_entry' recurse continue e root w = continue root w.
Proof.
  destruct e as [nm st lnk subdir]. unfold passed_over, scan_entry.
  cbn [d_name lstat].
  destruct (String.eqb nm ".." || String.eqb nm "."); [reflexivity|].
  cbn [orb]. destruct st as [sb|]; [|discriminate].
  now intros ->.
Qed.

Lemma scan_entries_filter r1 r2 (rec : fsdir -> fsdir) (rf : bool)
      (ents : list fsent) :
  Forall (fun e => match sub e with
                   | Some d' => forall n w, r1 d' n w = r2 (rec d') n w
                   | None => True
                   end) ents ->
  forall root w,
    scan_entries' r1 rf ents root w
    = scan_entries' r2 rf
        (filter_entries (fun e => negb (passed_over M flags e)) rec ents)
        root w.
Proof.
  induction 1 as [|e rest He Hrest IH]; intros root w; [reflexivity|].
  cbn [scan_entries filter_entries].
  destruct (passed_over M flags e) eqn:Hp; cbn [negb].
  - rewrite scan_entry_passed by exact Hp. apply IH.
  - destruct e as [nm st lnk subdir]. cbn [scan_entries].
    apply scan_entry_ext; [exact IH|].
    cbn [sub] in He. destruct subdir as [d'|]; cbn [option_map]; exact He.
Qed.

Lemma populate_dir_filter (d : fsdir) :
  forall root w,
    populate_dir' d root devstart w
    = populate_dir' (filter_tree (fun e => negb (passed_over M flags e)) d)
                    root devstart w.
Proof.
  induction d as [ff st ents rf IH] using fsdir_induction.
  intros root w. cbn [populate_dir filter_tree].
  destruct ff; [reflexivity|].
  apply scan_entries_filter.
  eapply Forall_impl; [|exact IH].
  intros e He. cbv beta in *. destruct (sub e); [|exact I].
  intros n w0. apply He.
Qed.

Lemma filter_entries_kept (keep : fsent -> bool) (rec : fsdir -> fsdir)
      (ents : list fsent) (e : fsent) :
  In e (filter_entries keep rec ents) ->
  exists e0, In e0 ents /\ keep e0 = true /\
             d_name e = d_name e0 /\ lstat e = lstat e0.
Proof.
  induction ents as [|x rest IH]; cbn [filter_entries]; [intros []|].
  destruct (keep x) eqn:Hk.
  - intros [<-|Hin].
    + exists x. split; [now left|]. split; [exact Hk|]. now destruct x.
    + destruct (IH Hin) as (e0 & H1 & H2). exists e0. split; [now right|exact H2].
  - intros Hin. destruct (IH Hin) as (e0 & H1 & H2).
    exists e0. split; [now right|exact H2].
Qed.

(** With [DIR_SCAN_NO_RECURSION] a turn of the loop does not look at what
    is below the entry. *)
Lemma scan_entry_flat r1 r2 c1 c2 nm st lnk (sb1 sb2 : option fsdir)
      (root : tree_node) (w : world U) :
  has_flag flags (DIR_SCAN_NO_RECURSION M) = true ->
  (forall root0 w0, c1 root0 w0 = c2 root0 w0) ->
  scan_entry' r1 c1 (FsEnt nm st lnk sb1) root w
  = scan_entry' r2 c2 (FsEnt nm st lnk sb2) root w.
Proof.
  intros Hf Hc. unfold scan_entry.
  destruct (_ || _); [apply Hc|].
  destruct st as [sb|]; [|reflexivity].
  destruct (skip_by_type M flags (st_mode sb)); [apply Hc|].
  destruct (_ && _); [apply Hc|].
  destruct (read_link _ _ sb lnk w) as [[extra w1]|[extra w1]]; [|reflexivity].
  destruct (node_for _ _ _ _ _ _ _ _ _) as [|w2|n root2 ret w2];
    [apply Hc|reflexivity|].
  destruct (ret <? 0)%Z; [reflexivity|].
  destruct (0 <? ret)%Z.
  { destruct (discard_node root2 n _) as [root3 w3]. apply Hc. }
  rewrite Hf. cbn [negb]. rewrite andb_false_r. apply Hc.
Qed.

Lemma populate_dir_shallow (d : fsdir) (root : tree_node) (w : world U) :
  has_flag flags (DIR_SCAN_NO_RECURSION M) = true ->
  populate_dir' d root devstart w = populate_dir' (shallow d) root devstart w.
Proof.
  intros Hf. destruct d as [ff st ents rf]. cbn [populate_dir shallow].
  destruct ff; [reflexivity|].
  revert root w. induction ents as [|[nm s lnk sb] rest IH]; intros root w;
    [reflexivity|].
  cbn [map scan_entries]. apply scan_entry_flat; [exact Hf|exact IH].
Qed.

(** A turn of the loop goes on to the remaining turns, or it ends the
    scan with -1. *)
Lemma scan_entry_cases recurse (e : fsent) (root : tree_node) (w : world U) :
  (exists root' w', forall c, scan_entry' recurse c e root w = c root' w') \/
  (exists root' w', forall c,
      scan_entry' recurse c e root w = ((-1)%Z, root', w')).
Proof.
  destruct e as [nm st lnk subdir]. unfold scan_entry, fail_rdlink, fail.
  destruct (_ || _); [left; now eexists _, _|].
  destruct st as [sb|]; [|right; now eexists _, _].
  destruct (skip_by_type M flags (st_mode sb)); [left; now eexists _, _|].
  destruct (_ && _); [left; now eexists _, _|].
  destruct (read_link _ _ sb lnk w) as [[extra w1]|[extra w1]];
    [|right; now eexists _, _].
  destruct (node_for _ _ _ _ _ _ _ _ _) as [|w2|n root2 ret w2];
    [left; now eexists _, _|right; now eexists _, _|].
  destruct (ret <? 0)%Z; [right; now eexists _, _|].
  destruct (0 <? ret)%Z.
  { destruct (discard_node root2 n _) as [root3 w3]. left. now eexists _, _. }
  destruct (_ && _); [|left; now eexists _, _].
  destruct subdir as [d'|]; [|right; now eexists _, _].
  destruct (recurse d' n _) as [[r n'] w5].
  destruct (r =? 0)%Z; [left|right]; now eexists _, _.
Qed.

Lemma scan_entries_fault recurse (rf : bool) (ents : list fsent) :
  rf = true \/
  (exists e, In e ents /\
             String.eqb (d_name e) ".." || String.eqb (d_name e) "." = false /\
             lstat e = None) ->
  forall root w,
    fst (fst (scan_entries' recurse rf ents root w)) = (-1)%Z.
Proof.
  induction ents as [|e rest IH]; intros Hf root w; cbn [scan_entries].
  - destruct Hf as [->|(e & [] & _)]. reflexivity.
  - assert (Hrest : (rf = true \/
                     exists e0, In e0 rest /\
                       String.eqb (d_name e0) ".."
                       || String.eqb (d_name e0) "." = false /\
                       lstat e0 = None) \/
                    (String.eqb (d_name e) ".."
                     || String.eqb (d_name e) "." = false /\ lstat e = None)).
    { destruct Hf as [Hf|(e0 & [<-|Hin] & H1 & H2)];
        [left; now left|now right|left; right; now exists e0]. }
    destruct Hrest as [Hrest|[Hd Hl]].
    + destruct (scan_entry_cases recurse e root w)
        as [(root' & w' & Hc)|(root' & w' & Hc)]; rewrite Hc;
        [now apply IH|reflexivity].
    + destruct e as [nm st lnk subdir]. cbn [d_name lstat] in Hd, Hl.
      subst st. unfold scan_entry. rewrite Hd. reflexivity.
Qed.

End PosixFilters.

Section FilterClean.
Import Fstree Scan Posix PosixSpec.

Lemma filter_tree_clean (keep : fsent -> bool) (d : fsdir) :
  (forall nm st lnk s1 s2,
      keep (FsEnt nm st lnk s1) = keep (FsEnt nm st lnk s2)) ->
  forall e, In e (all_entries (filter_tree keep d)) -> keep e = true.
Proof.
  intros Hk. induction d as [ff st ents rf IH] using fsdir_induction.
  cbn [filter_tree all_entries]. intros e.
  induction ents as [|e0 rest IHl]; cbn [filter_entries all_entries_of];
    [intros []|].
  inversion IH as [|? ? He0 Hrest]; subst.
  destruct (keep e0) eqn:Hf; [|now apply IHl].
  cbn [all_entries_of]. intros [<-|Hin].
  - destruct e0 as [nm st0 lnk subdir]. now rewrite (Hk _ _ _ _ subdir).
  - apply in_app_or in Hin. destruct Hin as [Hin|Hin]; [|now apply IHl].
    destruct e0 as [nm st0 lnk subdir]. cbn [sub option_map] in *.
    destruct subdir as [d'|]; cbn [option_map] in Hin; [|contradiction].
    now apply He0.
Qed.

End FilterClean.

(** X16.  The POSIX walker passes over the entries [.] and [..] and the
    entries of a type that the flags leave out before it does anything
    else with them: a scan is the scan of the hierarchy without these
    entries, at every depth.  No node is made for them, the callback is
    not called, and an [lstat] that would fail for [.] or [..] does not
    fail the scan. *)
Theorem posix_passed_over_invisible (U : Type) (M : Fstree.dir_scan_masks)
        (sizeof_off_t sizeof_size_t : Z) (fs : Fstree.fstree)
        (cb : option (Scan.scan_node_callback U)) (flags devstart : Z)
        (d : Posix.fsdir) (root : Fstree.tree_node) (w : Scan.world U) :
  let visible := fun e => negb (PosixSpec.passed_over M flags e) in
  Posix.populate_dir M sizeof_off_t sizeof_size_t fs cb flags d root
                     devstart w
  = Posix.populate_dir M sizeof_off_t sizeof_size_t fs cb flags
                       (PosixSpec.filter_tree visible d) root devstart w /\
  forall e, In e (PosixSpec.all_entries (PosixSpec.filter_tree visible d)) ->
            PosixSpec.passed_over M flags e = false.
Proof.
  intros visible. split; [apply populate_dir_filter|].
  intros e He. apply filter_tree_clean in He;
    [unfold visible in He; now apply negb_true_iff in He|].
  reflexivity.
Qed.

(** A socket is left out by [DIR_SCAN_NO_SOCK], and the entry [..] whose
    [lstat] fails is not looked at. *)
Example posix_passed_over_socket :
  let sock := Posix.FsEnt "s" (Some (Fstree.mk_stat 0xC1ED 1 0 0 0 100))
                          None None in
  let dots := Posix.FsEnt ".." None None None in
  Posix.populate_dir Fstree.example_masks 8 8 (Fstree.mk_fstree 5) None 0x4
                     (Sample.top [dots; sock; Sample.file "a"])
                     (Sample.dir_node 0 "" []) 1 (Sample.process 1)
  = Posix.populate_dir Fstree.example_masks 8 8 (Fstree.mk_fstree 5) None 0x4
                       (Sample.top [Sample.file "a"])
                       (Sample.dir_node 0 "" []) 1 (Sample.process 1).
Proof. reflexivity. Qed.

(** X17.  With [DIR_SCAN_NO_RECURSION] set the POSIX [populate_dir] opens
    no directory below the one it reads: its result does not depend on
    what is below the entries, nor on whether they can be opened. *)
Theorem posix_no_recursion (U : Type) (M : Fstree.dir_scan_masks)
        (sizeof_off_t sizeof_size_t : Z) (fs : Fstree.fstree)
        (cb : option (Scan.scan_node_callback U)) (flags devstart : Z)
        (d : Posix.fsdir) (root : Fstree.tree_node) (w : Scan.world U) :
  Fstree.has_flag flags (Fstree.DIR_SCAN_NO_RECURSION M) = true ->
  Posix.populate_dir M sizeof_off_t sizeof_size_t fs cb flags d root
                     devstart w
  = Posix.populate_dir M sizeof_off_t sizeof_size_t fs cb flags
                       (PosixSpec.shallow d) root devstart w.
Proof. apply populate_dir_shallow. Qed.

Lemma posix_no_recursion_witness :
  let d := Sample.top [Sample.folder "x" [Sample.file "q"]; Sample.file "a"] in
  Fstree.has_flag 0x200 (Fstree.DIR_SCAN_NO_RECURSION Fstree.example_masks)
  = true /\
  Posix.populate_dir Fstree.example_masks 8 8 (Fstree.mk_fstree 5) None 0x200
                     d (Sample.dir_node 0 "" []) 1 (Sample.process 1)
  = Posix.populate_dir Fstree.example_masks 8 8 (Fstree.mk_fstree 5) None
                       0x200 (PosixSpec.shallow d)
                       (Sample.dir_node 0 "" []) 1 (Sample.process 1).
Proof.
  intros d.
  assert (H : Fstree.has_flag 0x200 (Fstree.DIR_SCAN_NO_RECURSION
                                       Fstree.example_masks) = true)
    by reflexivity.
  split; [exact H|].
  exact (@posix_no_recursion unit Fstree.example_masks 8 8
           (Fstree.mk_fstree 5) None 0x200 1 d (Sample.dir_node 0 "" [])
           (Sample.process 1) H).
Defined.

(** X18.  The POSIX [populate_dir] returns -1 whenever [fdopendir] fails,
    [readdir] ends with an error, or [lstat] fails for an entry of the
    directory other than [.] and [..], whatever else the directory
    holds and whatever the flags and the callback are. *)
Theorem posix_fault_fatal (U : Type) (M : Fstree.dir_scan_masks)
        (sizeof_off_t sizeof_size_t : Z) (fs : Fstree.fstree)
        (cb : option (Scan.scan_node_callback U)) (flags devstart : Z)
        (ff rf : bool) (st : option Fstree.stat) (ents : list Posix.fsent)
        (root : Fstree.tree_node) (w : Scan.world U) :
  ff = true \/ rf = true \/
  (exists e, In e ents /\
             String.eqb (Posix.d_name e) ".."
             || String.eqb (Posix.d_name e) "." = false /\
             Posix.lstat e = None) ->
  fst (fst (Posix.populate_dir M sizeof_off_t sizeof_size_t fs cb flags
                               (Posix.FsDir ff st ents rf) root devstart w))
  = (-1)%Z.
Proof.
  intros H. cbn [Posix.populate_dir]. destruct ff; [reflexivity|].
  apply scan_entries_fault.
  destruct H as [H|[H|H]]; [discriminate|now left|now right].
Qed.

Lemma posix_fault_fatal_witness :
  let gone := Posix.FsEnt "g" None None None in
  (exists e, In e [Sample.file "a"; gone; Sample.file "b"] /\
             String.eqb (Posix.d_name e) ".."
             || String.eqb (Posix.d_name e) "." = false /\
             Posix.lstat e = None) /\
  fst (fst (Posix.populate_dir Fstree.example_masks 8 8 (Fstree.mk_fstree 5)
              None 0
              (Posix.FsDir false (Some Sample.dir_stat)
                           [Sample.file "a"; gone; Sample.file "b"] false)
              (Sample.dir_node 0 "" []) 1 (Sample.process 1)))
  = (-1)%Z.
Proof.
  intros gone.
  assert (H : exists e, In e [Sample.file "a"; gone; Sample.file "b"] /\
                String.eqb (Posix.d_name e) ".."
                || String.eqb (Posix.d_name e) "." = false /\
                Posix.lstat e = None).
  { exists gone. split; [right; now left|]. split; reflexivity. }
  split; [exact H|].
  exact (@posix_fault_fatal unit Fstree.example_masks 8 8 (Fstree.mk_fstree 5)
           None 0 1 false false (Some Sample.dir_stat) _
           (Sample.dir_node 0 "" []) (Sample.process 1)
           (or_intror (or_intror H))).
Defined.

Section DiscardFacts.
Import Fstree Scan Posix PosixSpec.

Lemma remove_addr_subset (l : list tree_node) (a : nat) (c : tree_node) :
  In c (remove_addr l a) -> In c l.
Proof.
  induction l as [|x l IH]; cbn [remove_addr]; [intros []|].
  destruct (addr x =? a); [now right|].
  intros [<-|H]; [now left|right; now apply IH].
Qed.

Lemma remove_addr_absent (l : list tree_node) (a : nat) :
  ~ In a (map addr l) -> remove_addr l a = l.
Proof.
  induction l as [|x l IH]; cbn [remove_addr map]; [reflexivity|].
  intros Hn. destruct (Nat.eqb_spec (addr x) a) as [He|_].
  - exfalso. apply Hn. now left.
  - f_equal. apply IH. intros H. apply Hn. now right.
Qed.

Lemma remove_addr_filter (l : list tree_node) (a : nat) :
  NoDup (map addr l) ->
  remove_addr l a = filter (fun c => negb (addr c =? a)) l.
Proof.
  induction l as [|x l IH]; cbn [remove_addr map filter]; [reflexivity|].
  intros Hnd. inversion Hnd as [|? ? Hx Hl]; subst.
  destruct (Nat.eqb_spec (addr x) a) as [He|_]; cbn [negb].
  - subst a. rewrite <- (IH Hl). symmetry. now apply remove_addr_absent.
  - f_equal. now apply IH.
Qed.

Lemma remove_addr_present (l : list tree_node) (a : nat) :
  In a (map addr l) ->
  Datatypes.S (List.length (remove_addr l a)) = List.length l.
Proof.
  induction l as [|x l IH]; cbn [remove_addr map]; [intros []|].
  destruct (Nat.eqb_spec (addr x) a) as [He|Hne]; [reflexivity|].
  intros [H|H]; [contradiction|]. cbn [List.length]. f_equal. now apply IH.
Qed.

End DiscardFacts.

(** X21.  [discard_node] frees the node it is given and takes at most one
    node out of the child list, the first one at the address of that
    node, the others staying in their order: a node that is not in the
    list is freed all the same and the list is left as it is; with no two
    children at one address the list afterwards is the list without the
    node.  The parent keeps its name and its mode. *)
Theorem discard_node_unlinks (U : Type) (root n : Fstree.tree_node)
        (w : Scan.world U) :
  let '(root', w') := Posix.discard_node root n w in
  Scan.freed w' = Fstree.addr n :: Scan.freed w /\
  Scan.open_fds w' = Scan.open_fds w /\
  Fstree.name root' = Fstree.name root /\
  Fstree.mode root' = Fstree.mode root /\
  (forall c, In c (Fstree.children root') -> In c (Fstree.children root)) /\
  (~ In (Fstree.addr n) (map Fstree.addr (Fstree.children root)) ->
   Fstree.children root' = Fstree.children root) /\
  (In (Fstree.addr n) (map Fstree.addr (Fstree.children root)) ->
   Datatypes.S (List.length (Fstree.children root'))
   = List.length (Fstree.children root)) /\
  (NoDup (map Fstree.addr (Fstree.children root)) ->
   Fstree.children root'
   = filter (fun c => negb (Fstree.addr c =? Fstree.addr n))
            (Fstree.children root)).
Proof.
  rewrite discard_node_children.
  cbn [Fstree.set_children Fstree.children Fstree.name Fstree.mode
       Scan.free_node Scan.freed Scan.open_fds].
  repeat split.
  - intros c. apply remove_addr_subset.
  - apply remove_addr_absent.
  - apply remove_addr_present.
  - apply remove_addr_filter.
Qed.

(** Two nodes of one name: the one at the address given goes. *)
Example discard_node_by_address :
  let a1 := Sample.file_node 1 "a" in
  let a2 := Sample.file_node 2 "a" in
  let b := Sample.file_node 3 "b" in
  Fstree.children
    (fst (Posix.discard_node (Sample.dir_node 0 "" [a1; a2; b]) a2
                             (Sample.process 4)))
  = [a1; b] /\
  Fstree.children
    (fst (Posix.discard_node (Sample.dir_node 0 "" [a1; b]) a2
                             (Sample.process 4)))
  = [a1; b].
Proof. split; reflexivity. Qed.

(** ** The portable walker *)

Section PortableBalance.
Import Fstree Scan PortableSpec.
Context {U : Type}.
Variable M : dir_scan_masks.
Variable fs : fstree.
Variable cb : option (scan_node_callback U).
Variable flags : Z.
Variable os : string -> option Portable.listing.









End PortableBalance.



Section PortableFlags.
Import Fstree Scan.
Context {U : Type}.
Variable M : dir_scan_masks.
Variable fs : fstree.
Variable cb : option (scan_node_callback U).
Variable os : string -> option Portable.listing.
Variables flags1 flags2 : Z.
Hypothesis Hdir :
  has_flag flags1 (DIR_SCAN_NO_DIR M) = has_flag flags2 (DIR_SCAN_NO_DIR M).
Hypothesis Hfile :
  has_flag flags1 (DIR_SCAN_NO_FILE M) = has_flag flags2 (DIR_SCAN_NO_FILE M).
Hypothesis Htime :
  has_flag flags1 (DIR_SCAN_KEEP_TIME M)
  = has_flag flags2 (DIR_SCAN_KEEP_TIME M).
Hypothesis Hrec :
  has_flag flags1 (DIR_SCAN_NO_RECURSION M)
  = has_flag flags2 (DIR_SCAN_NO_RECURSION M).

Lemma add_node_flags (root : tree_node) (entry : Portable.dir_entry)
      (w : world U) :
  Portable.add_node M fs cb flags1 root entry w
  = Portable.add_node M fs cb flags2 root entry w.
Proof. unfold Portable.add_node. now rewrite Hdir, Hfile, Htime. Qed.

Lemma scan_loop_flags (path : string) (ents : list Portable.dir_entry)
      (it_fails : bool) :
  forall (root : tree_node) (w : world U),
    Portable.scan_loop M fs cb flags1 path ents it_fails root w
    = Portable.scan_loop M fs cb flags2 path ents it_fails root w.
Proof.
  induction ents as [|e ents IH]; intros root w; cbn [Portable.scan_loop];
    [reflexivity|].
  rewrite add_node_flags.
  destruct (Portable.add_node M fs cb flags2 root e w) as [[r root1] w1].
  destruct (negb (r =? 0)%Z); [reflexivity|apply IH].
Qed.

Lemma scan_children_ext
      (rec1 rec2 : tree_node -> world U -> option (Portable.result (U := U)))
      (l : list tree_node) :
  (forall n w, rec1 n w = rec2 n w) ->
  forall w, Portable.scan_children rec1 l w = Portable.scan_children rec2 l w.
Proof.
  intros Hr. induction l as [|n l IH]; intros w; cbn [Portable.scan_children];
    [reflexivity|].
  destruct (negb (S_ISDIR (mode n))); [now rewrite IH|].
  rewrite Hr. destruct (rec2 n w) as [[[r n'] w1]|]; [|reflexivity].
  destruct (negb (r =? 0)%Z); [reflexivity|now rewrite IH].
Qed.

Lemma fstree_from_subdir_flags (fuel : nat) :
  forall root path subdir (w : world U),
    Portable.fstree_from_subdir M fs cb flags1 os fuel root path subdir w
    = Portable.fstree_from_subdir M fs cb flags2 os fuel root path subdir w.
Proof.
  induction fuel as [|fuel IH]; intros root path subdir w; [reflexivity|].
  assert (Htree : forall root0 path0 (w0 : world U),
             Portable.scan_tree M fs cb flags1 os
               (Portable.fstree_from_subdir M fs cb flags1 os fuel)
               root0 path0 w0
             = Portable.scan_tree M fs cb flags2 os
                 (Portable.fstree_from_subdir M fs cb flags2 os fuel)
                 root0 path0 w0).
  { intros root0 path0 w0. unfold Portable.scan_tree, Portable.scan_dir.
    destruct (os path0) as [[ents it_fails]|].
    - rewrite scan_loop_flags.
      destruct (Portable.scan_loop _ _ _ _ _ _ _ _ _) as [[r root1] w1].
      cbv beta iota zeta.
      destruct (negb (r =? 0)%Z); [reflexivity|]. rewrite Hrec.
      destruct (has_flag flags2 (DIR_SCAN_NO_RECURSION M)); [reflexivity|].
      rewrite (@scan_children_ext _
                 (fun n w2 => Portable.fstree_from_subdir M fs cb flags2 os
                                fuel n path0 (Some (name n)) w2));
        [reflexivity|].
      intros n w2. apply IH.
    - reflexivity. }
  cbn [Portable.fstree_from_subdir].
  destruct (_ =? 0); [apply Htree|].
  destruct (alloc w) as [[a|] w1]; [|reflexivity].
  now rewrite Htree.
Qed.

End PortableFlags.

(** X19.  Of the scan flags the portable walker looks at
    [DIR_SCAN_NO_DIR], [DIR_SCAN_NO_FILE], [DIR_SCAN_KEEP_TIME] and
    [DIR_SCAN_NO_RECURSION] only: two flag words that agree on these four
    give the same scan, whatever they say about symlinks, sockets, fifos,
    devices or staying on one file system. *)
Theorem portable_flags_read (U : Type) (M : Fstree.dir_scan_masks)
        (fs : Fstree.fstree) (cb : option (Scan.scan_node_callback U))
        (os : string -> option Portable.listing) (flags1 flags2 : Z)
        (fuel : nat) (root : Fstree.tree_node) (path : string)
        (subdir : option string) (w : Scan.world U) :
  Fstree.has_flag flags1 (Fstree.DIR_SCAN_NO_DIR M)
  = Fstree.has_flag flags2 (Fstree.DIR_SCAN_NO_DIR M) ->
  Fstree.has_flag flags1 (Fstree.DIR_SCAN_NO_FILE M)
  = Fstree.has_flag flags2 (Fstree.DIR_SCAN_NO_FILE M) ->
  Fstree.has_flag flags1 (Fstree.DIR_SCAN_KEEP_TIME M)
  = Fstree.has_flag flags2 (Fstree.DIR_SCAN_KEEP_TIME M) ->
  Fstree.has_flag flags1 (Fstree.DIR_SCAN_NO_RECURSION M)
  = Fstree.has_flag flags2 (Fstree.DIR_SCAN_NO_RECURSION M) ->
  Portable.fstree_from_subdir M fs cb flags1 os fuel root path subdir w
  = Portable.fstree_from_subdir M fs cb flags2 os fuel root path subdir w.
Proof.
  intros H1 H2 H3 H4. now apply fstree_from_subdir_flags.
Qed.

(** No flag, and the flags for symlinks, sockets and one file system. *)
Lemma portable_flags_read_witness :
  let os := fun p : string =>
    if String.eqb p "root"
    then Some ([Portable.mk_entry "l" 0xA1FF 100;
                Portable.mk_entry "s" 0xC1ED 100], false)
    else None in
  Portable.fstree_from_subdir Fstree.example_masks (Fstree.mk_fstree 5)
    None 0 os 1 (Sample.dir_node 0 "" []) "root" None (Sample.process 1)
  = Portable.fstree_from_subdir Fstree.example_masks (Fstree.mk_fstree 5)
      None 0xE os 1 (Sample.dir_node 0 "" []) "root" None (Sample.process 1).
Proof.
  intros os.
  exact (@portable_flags_read unit Fstree.example_masks (Fstree.mk_fstree 5)
           None os 0 0xE 1 (Sample.dir_node 0 "" []) "root"%string None
           (Sample.process 1) eq_refl eq_refl eq_refl eq_refl).
Defined.

Section PortableLeftOut.
Import Fstree Scan PortableSpec.
Context {U : Type}.
Variable M : dir_scan_masks.
Variable fs : fstree.
Variable cb : option (scan_node_callback U).
Variable flags : Z.
Variable os : string -> option Portable.listing.

Lemma add_node_left_out (root : tree_node) (entry : Portable.dir_entry)
      (w : world U) :
  left_out M flags entry = true ->
  Portable.add_node M fs cb flags root entry w = (0%Z, root, w).
Proof.
  unfold left_out, Portable.add_node.
  destruct (String.eqb (Portable.ent_name entry) "."
            || String.eqb (Portable.ent_name entry) "..");
    [reflexivity|].
  cbn [orb]. now intros ->.
Qed.

Lemma scan_loop_left_out (path : string) (ents : list Portable.dir_entry)
      (it_fails : bool) :
  forall (root : tree_node) (w : world U),
    Portable.scan_loop M fs cb flags path ents it_fails root w
    = Portable.scan_loop M fs cb flags path
        (filter (fun e => negb (left_out M flags e)) ents) it_fails root w.
Proof.
  induction ents as [|e ents IH]; intros root w; [reflexivity|].
  cbn [Portable.scan_loop filter].
  destruct (left_out M flags e) eqn:Hl; cbn [negb].
  - rewrite add_node_left_out by exact Hl. cbn [Z.eqb negb]. apply IH.
  - cbn [Portable.scan_loop].
    destruct (Portable.add_node M fs cb flags root e w) as [[r root1] w1].
    destruct (negb (r =? 0)%Z); [reflexivity|apply IH].
Qed.

Lemma fstree_from_subdir_left_out (fuel : nat) :
  forall root path subdir (w : world U),
    Portable.fstree_from_subdir M fs cb flags os fuel root path subdir w
    = Portable.fstree_from_subdir M fs cb flags (without_left_out M flags os)
                                  fuel root path subdir w.
Proof.
  induction fuel as [|fuel IH]; intros root path subdir w; [reflexivity|].
  assert (Htree : forall root0 path0 (w0 : world U),
             Portable.scan_tree M fs cb flags os
               (Portable.fstree_from_subdir M fs cb flags os fuel)
               root0 path0 w0
             = Portable.scan_tree M fs cb flags (without_left_out M flags os)
                 (Portable.fstree_from_subdir M fs cb flags
                    (without_left_out M flags os) fuel)
                 root0 path0 w0).
  { intros root0 path0 w0.
    unfold Portable.scan_tree, Portable.scan_dir, without_left_out at 1.
    destruct (os path0) as [[ents it_fails]|]; [|reflexivity].
    rewrite scan_loop_left_out.
    destruct (Portable.scan_loop _ _ _ _ _ _ _ _ _) as [[r root1] w1].
    cbv beta iota zeta.
    destruct (negb (r =? 0)%Z); [reflexivity|].
    destruct (has_flag flags (DIR_SCAN_NO_RECURSION M)); [reflexivity|].
    rewrite (@scan_children_ext U _
               (fun n w2 => Portable.fstree_from_subdir M fs cb flags
                              (without_left_out M flags os)
                              fuel n path0 (Some (name n)) w2));
      [reflexivity|].
    intros n w2. apply IH. }
  cbn [Portable.fstree_from_subdir].
  destruct (_ =? 0); [apply Htree|].
  destruct (alloc w) as [[a|] w1]; [|reflexivity].
  now rewrite Htree.
Qed.

End PortableLeftOut.

(** X20.  The portable walker returns from [add_node] at once for the
    entries [.] and [..], for a directory under [DIR_SCAN_NO_DIR] and for
    anything that is not a directory under [DIR_SCAN_NO_FILE], regular
    file or not: a scan is the scan of the directories without these
    entries.  No node is allocated for them and the callback is not
    called. *)
Theorem portable_left_out_invisible (U : Type) (M : Fstree.dir_scan_masks)
        (fs : Fstree.fstree) (cb : option (Scan.scan_node_callback U))
        (flags : Z) (os : string -> option Portable.listing) (fuel : nat)
        (root : Fstree.tree_node) (path : string) (subdir : option string)
        (w : Scan.world U) :
  Portable.fstree_from_subdir M fs cb flags os fuel root path subdir w
  = Portable.fstree_from_subdir M fs cb flags
      (PortableSpec.without_left_out M flags os) fuel root path subdir w /\
  forall entry (root0 : Fstree.tree_node) (w0 : Scan.world U),
    PortableSpec.left_out M flags entry = true ->
    Portable.add_node M fs cb flags root0 entry w0 = (0%Z, root0, w0).
Proof.
  split; [apply fstree_from_subdir_left_out|].
  intros entry root0 w0. apply add_node_left_out.
Qed.

(** Under [DIR_SCAN_NO_FILE] a symlink is left out as a regular file
    is. *)
Example portable_no_file_symlink :
  let os := fun p : string =>
    if String.eqb p "root"
    then Some ([Portable.mk_entry "l" 0xA1FF 100;
                Portable.mk_entry "f" 0x81A4 100;
                Portable.mk_entry "d" 0x41ED 100], false)
    else if String.eqb p "root/d" then Some ([], false)
    else None in
  option_map (fun r => Sample.names (snd (fst r)))
    (Portable.fstree_from_subdir Fstree.example_masks (Fstree.mk_fstree 5)
       None 0x10 os 2 (Sample.dir_node 0 "" []) "root" None
       (Sample.process 1))
  = Some [""; "d"]%string.
Proof. reflexivity. Qed.

(** ** The lines [istream_get_line] returns *)

Section TrimmedLines.
Import GetLine.
Context {S : Type} {HS : IStream S}.
Variables LT RT SE : Z.
Variable SZ : nat.

Lemma rtrim_split (b : list byte) :
  In x00 b ->
  In x00 (rtrim b) /\
  (exists ws, c_str b = c_str (rtrim b) ++ ws) /\
  (forall p c, c_str (rtrim b) = p ++ [c] -> isspace c = false).
Proof.
  intros Hb. pose proof Hb as Hlt. apply strlen_lt_iff in Hlt.
  split; [now apply rtrim_ok|].
  unfold rtrim. set (j := rtrim_index b (strlen b)).
  pose proof (rtrim_index_le b (strlen b)) as Hle. fold j in Hle.
  destruct (@rtrim_index_split b (strlen b)) as (S1 & S2 & S3); [lia|].
  fold j in S1, S2, S3.
  destruct (@store_nul_c_str b j) as [_ Hc]; [lia|lia|].
  rewrite Hc. split.
  - exists (skipn j (firstn (strlen b) b)). now rewrite c_str_firstn.
  - intros p c Hp.
    assert (Hj : j = Datatypes.S (List.length p)).
    { apply (f_equal (@List.length byte)) in Hp.
      rewrite length_firstn, length_app in Hp. cbn in Hp. lia. }
    rewrite <- (S3 ltac:(lia)). f_equal.
    replace (j - 1) with (List.length p) by lia.
    rewrite <- (firstn_skipn j b), app_nth1
      by (rewrite length_firstn; lia).
    now rewrite Hp, nth_middle.
Qed.

(** What the flags say about the text [trim] leaves. *)
Lemma trim_text (b : list byte) (flags : Z) :
  In x00 b ->
  let t := snd (trim LT RT b flags) in
  In x00 t /\
  (has_flag flags LT = true ->
   forall c r, c_str t = c :: r -> isspace c = false) /\
  (has_flag flags RT = true ->
   forall p c, c_str t = p ++ [c] -> isspace c = false).
Proof.
  intros Hb. unfold trim. cbn [snd].
  destruct (ltrim_head b Hb) as [Hl0 Hhead].
  destruct (has_flag flags LT), (has_flag flags RT).
  - destruct (rtrim_split _ Hl0) as (R1 & [ws R2] & R3).
    split; [exact R1|]. split; [|intros _; exact R3].
    intros _ c r Hc. rewrite Hc in R2. cbn in R2. exact (Hhead _ _ R2).
  - split; [exact Hl0|]. split; [intros _; exact Hhead|discriminate].
  - destruct (@rtrim_split _ Hb) as (R1 & _ & R3).
    split; [exact R1|]. split; [discriminate|intros _; exact R3].
  - split; [exact Hb|]. split; discriminate.
Qed.

Lemma finish_c_str (e : env S) (t : list byte) (ln : nat) out ln' e' :
  In x00 t ->
  finish e t (strlen t) ln = (0%Z, Some out, ln', e') ->
  c_str out = c_str t.
Proof.
  intros Ht. unfold finish, realloc.
  destruct (match allocs e with [] => true | o :: _ => o end);
    intros E; injection E as <- _ _; [|reflexivity].
  now apply c_str_cut.
Qed.

Lemma get_line_loop_trimmed (flags : Z) (fuel : nat) :
  forall (e : env S) (line : list byte) (len ln : nat) out ln' e',
    line_inv line len ->
    get_line_loop LT RT SE SZ fuel flags e line len ln
    = Some (0%Z, Some out, ln', e') ->
    exists b,
      In x00 b /\ c_str out = c_str (snd (trim LT RT b flags)) /\
      (has_flag flags SE = true -> c_str out <> []).
Proof.
  induction fuel as [|fuel IH]; intros e line len ln out ln' e' Hinv;
    cbn [get_line_loop]; [discriminate|].
  assert (Hfin : forall (e0 : env S) b n t,
             In x00 b -> trim LT RT b flags = (n, t) ->
             (0 <? n) || negb (has_flag flags SE) = true ->
             finish e0 t n ln = (0%Z, Some out, ln', e') ->
             exists b0,
               In x00 b0 /\ c_str out = c_str (snd (trim LT RT b0 flags)) /\
               (has_flag flags SE = true -> c_str out <> [])).
  { intros e0 b n t Hb Htr Hkeep E. exists b.
    destruct (@trim_text b flags Hb) as (Ht & _).
    rewrite Htr in *. cbn [snd] in *.
    assert (Hn : n = strlen t) by (unfold trim in Htr; now injection Htr as <- <-).
    subst n.
    pose proof (@finish_c_str e0 _ ln out ln' e' Ht E) as Hc.
    split; [exact Hb|]. split; [exact Hc|].
    intros Hse. rewrite Hse in Hkeep. cbn [negb] in Hkeep.
    rewrite orb_false_r in Hkeep. apply Nat.ltb_lt in Hkeep.
    rewrite Hc. rewrite strlen_c_str in Hkeep.
    destruct (c_str t); [cbn in Hkeep; lia|discriminate]. }
  destruct (istream_get_buffered_data (strm e)) as [[| |ptr] s1].
  - discriminate.
  - destruct (Nat.eqb_spec len 0) as [Hz|Hnz]; [discriminate|].
    destruct Hinv as [[_ ?]|(Hl & Hnul & Hnl)]; [contradiction|].
    pose proof (line_inv_ok line Hl Hnul Hnl) as [Hin _].
    destruct (trim LT RT line flags) as [n t] eqn:Htr.
    destruct ((0 <? n) || negb (has_flag flags SE)) eqn:Hkeep; [|discriminate].
    intros E. injection E as E. exact (Hfin _ _ _ _ Hin Htr Hkeep E).
  - set (count := find_newline ptr).
    pose proof (find_newline_le ptr) as Hcl. fold count in Hcl.
    pose proof (find_newline_none ptr) as Hcn. fold count in Hcn.
    destruct (grow_inv ptr Hinv Hcl Hcn) as [Hginv Hgne].
    cbv zeta in Hginv, Hgne.
    unfold realloc. cbn [allocs alloc_log live io_errors strm with_strm diag].
    destruct (match allocs e with [] => true | o :: _ => o end);
      [|discriminate].
    set (b := store _ _ _) in *.
    match goal with |- context [istream_advance_buffer ?s ?i] =>
      destruct (istream_advance_buffer s i) as [[|] s2] end; [|discriminate].
    destruct (count <? List.length ptr).
    + destruct Hginv as [[Hb0 _]|(Hl & Hnul & Hnl)]; [contradiction|].
      pose proof (line_inv_ok b Hl Hnul Hnl) as Hok.
      pose proof (strip_cr_ok Hl Hok) as [Hin2 _].
      destruct (strip_cr (len + count) b) as [n2 b2]. cbn [snd] in Hin2.
      destruct (trim LT RT b2 flags) as [n t] eqn:Htr.
      destruct ((0 <? n) || negb (has_flag flags SE)) eqn:Hkeep.
      * intros E. injection E as E. exact (Hfin _ _ _ _ Hin2 Htr Hkeep E).
      * intros E. apply IH in E; [exact E|]. left. split; [reflexivity|].
        apply orb_false_elim in Hkeep. destruct Hkeep as [Hz _].
        apply Nat.ltb_ge in Hz. lia.
    + intros E. eapply IH; [exact Hginv|exact E].
Qed.

End TrimmedLines.

(** X22.  What [istream_get_line] promises of a line it returns, also
    when the line was read in pieces and when allocations fail: with
    [ISTREAM_LINE_SKIP_EMPTY] the line is not empty, with
    [ISTREAM_LINE_LTRIM] it does not begin with white space, and with
    [ISTREAM_LINE_RTRIM] it does not end with white space. *)
Theorem get_line_trimmed (S : Type) {HS : GetLine.IStream S}
        (LT RT SE flags : Z) (SZ : nat) (fuel : nat) (e : GetLine.env S)
        (ln : nat)
        (out : list byte) (ln' : nat) (e' : GetLine.env S) :
  GetLine.istream_get_line LT RT SE SZ fuel e ln flags
  = Some (0%Z, Some out, ln', e') ->
  (GetLine.has_flag flags SE = true -> GetLine.c_str out <> []) /\
  (GetLine.has_flag flags LT = true ->
   forall c r, GetLine.c_str out = c :: r -> GetLine.isspace c = false) /\
  (GetLine.has_flag flags RT = true ->
   forall p c, GetLine.c_str out = p ++ [c] -> GetLine.isspace c = false).
Proof.
  intros E. unfold GetLine.istream_get_line in E.
  apply (@get_line_loop_trimmed S HS LT RT SE SZ) in E; [|left; now split].
  destruct E as (b & Hb & Hc & Hse).
  destruct (@trim_text LT RT b flags Hb) as (_ & Hl & Hr).
  rewrite <- Hc in Hl, Hr. now repeat split.
Qed.

(** A line of blanks is passed over, and the line [a] between blanks is
    returned as [a]. *)
Lemma get_line_trimmed_witness :
  let e := GetLine.mk_env
             (GetLine.mk_sliced [x20; x0a; x20; x61; x09; x0d; x0a] 2)
             0 [] [] 0 [] in
  exists out e',
    GetLine.istream_get_line 1 2 4 GetLine.SIZE_MAX_16 9 e 0 7
    = Some (0%Z, Some out, 1, e') /\
    GetLine.c_str out = [x61] /\
    (GetLine.has_flag 7 4 = true -> GetLine.c_str out <> []).
Proof.
  intros e.
  assert (H : exists out e',
             GetLine.istream_get_line 1 2 4 GetLine.SIZE_MAX_16 9 e 0 7
             = Some (0%Z, Some out, 1, e') /\ GetLine.c_str out = [x61])
    by (eexists _, _; vm_compute; split; reflexivity).
  destruct H as (out & e' & H & Hc). exists out, e'.
  split; [exact H|]. split; [exact Hc|].
  exact (proj1 (@get_line_trimmed GetLine.sliced _ 1 2 4 7
                  GetLine.SIZE_MAX_16 9 e 0 out 1 e' H)).
Defined.

(** ** What a POSIX scan leaves in place *)

Section PosixSafe.
Import Fstree Scan Posix PosixSpec.
Context {U : Type}.

Variable M : dir_scan_masks.
Variables sizeof_off_t sizeof_size_t : Z.
Variable fs : fstree.
Variable cb : option (scan_node_callback U).
Variable flags : Z.

Lemma grows_refl (w : world U) : grows w w.
Proof. split; [lia|]. exists []. split; [reflexivity|constructor]. Qed.

Lemma grows_trans (w1 w2 w3 : world U) :
  grows w1 w2 -> grows w2 w3 -> grows w1 w3.
Proof.
  intros (H1 & l1 & F1 & A1) (H2 & l2 & F2 & A2). split; [lia|].
  exists (l2 ++ l1). split; [now rewrite F2, F1, app_assoc|].
  apply Forall_app. split; [|exact A1].
  eapply Forall_impl; [|exact A2]. cbn. intros a Ha. lia.
Qed.

Lemma grows_same (w w' : world U) :
  next_addr w' = next_addr w -> freed w' = freed w -> grows w w'.
Proof.
  intros H1 H2. split; [lia|]. exists []. split; [exact H2|constructor].
Qed.

Lemma safe_trans (root root1 : tree_node) (w w1 : world U) r res :
  safe root w (r, root1, w1) -> safe root1 w1 res -> safe root w res.
Proof.
  destruct res as [[r2 root2] w2].
  intros (A1 & G1 & K1) (A2 & G2 & K2).
  split; [congruence|]. split; [eapply grows_trans; eassumption|].
  intros Hb. destruct (K1 Hb) as [I1 B1]. destruct (K2 B1) as [I2 B2].
  split; [|exact B2]. intros a Ha. apply I2, I1, Ha.
Qed.

Lemma safe_refl (root : tree_node) (w w' : world U) (r : Z) :
  grows w w' -> safe root w (r, root, w').
Proof.
  intros Hg. split; [reflexivity|]. split; [exact Hg|].
  intros Hb. split; [apply incl_refl|].
  eapply below_mono; [exact Hb|apply Hg].
Qed.

Lemma alloc_grows (w : world U) : grows w (snd (alloc w)).
Proof.
  unfold alloc. destruct (allocs w) as [|[|] rest]; cbn [snd].
  - split; [cbn; lia|]. exists []. split; [reflexivity|constructor].
  - split; [cbn; lia|]. exists []. split; [reflexivity|constructor].
  - apply grows_same; reflexivity.
Qed.

Lemma call_cb_grows (n : tree_node) (w : world U) :
  grows w (snd (call_cb cb fs n w)).
Proof.
  unfold call_cb. destruct cb as [f|]; [|apply grows_refl].
  destruct (f (user w) fs n). apply grows_same; reflexivity.
Qed.

Lemma read_link_grows (sb : stat) (lnk : option (list byte)) (w : world U) :
  match read_link sizeof_off_t sizeof_size_t sb lnk w with
  | inl (_, w1) | inr (_, w1) => grows w w1
  end.
Proof.
  unfold read_link.
  destruct (S_ISLNK (st_mode sb)); [|apply grows_refl].
  destruct (_ && _); [apply grows_same; reflexivity|].
  destruct (SZ_ADD_OV _ _ _) as [[|] size]; [apply grows_same; reflexivity|].
  pose proof (alloc_grows w) as Ha.
  destruct (alloc w) as [[a|] w1]; cbn [snd] in Ha; [|exact Ha].
  destruct lnk; (eapply grows_trans; [exact Ha|apply grows_same; reflexivity]).
Qed.

Lemma update_child_addrs (l : list tree_node) (a : nat) (n' : tree_node) :
  addr n' = a -> map addr (update_child l a n') = map addr l.
Proof.
  intros Hn. induction l as [|c l IH]; cbn [update_child map]; [reflexivity|].
  destruct (Nat.eqb_spec (addr c) a) as [He|_]; cbn [map]; [congruence|].
  now rewrite IH.
Qed.

Lemma insert_sorted_addrs (l : list tree_node) (n : tree_node) :
  incl (map addr l) (map addr (insert_sorted l n)).
Proof.
  destruct (insert_sorted_split l n) as (l1 & l2 & -> & ->).
  rewrite !map_app. cbn [map]. intros a Ha. apply in_app_or in Ha.
  apply in_or_app. destruct Ha; [now left|right; now right].
Qed.


Lemma below_addrs (k : nat) (l l' : list tree_node) :
  map addr l' = map addr l -> below k l -> below k l'.
Proof.
  unfold below. rewrite !Forall_forall. intros Hm Hb c Hc.
  assert (Hin : In (addr c) (map addr l)) by (rewrite <- Hm; now apply in_map).
  apply in_map_iff in Hin. destruct Hin as (c0 & <- & Hc0). now apply Hb.
Qed.

Lemma safe_world (root root1 : tree_node) (w w1 w2 : world U) (r r2 : Z) :
  safe root w (r, root1, w1) ->
  next_addr w2 = next_addr w1 -> freed w2 = freed w1 ->
  safe root w (r2, root1, w2).
Proof.
  intros (A & (G1 & l & G2 & G3) & K) Hn Hf.
  split; [exact A|]. split.
  - split; [lia|]. exists l. split; [congruence|exact G3].
  - intros Hb. destruct (K Hb) as [I B]. split; [exact I|]. now rewrite Hn.
Qed.

Lemma safe_fail (root root1 : tree_node) (w w1 : world U) (r : Z)
      (extra : option (list byte)) :
  safe root w (r, root1, w1) -> safe root w (fail root1 w1 extra).
Proof.
  intros H. unfold fail. eapply safe_world; [exact H| |];
    destruct extra; reflexivity.
Qed.

Lemma alloc_fresh (w w1 : world U) (a : nat) :
  alloc w = (Some a, w1) ->
  a = next_addr w /\ next_addr w1 = Datatypes.S a /\ freed w1 = freed w.
Proof.
  unfold alloc. destruct (allocs w) as [|[|] rest]; intros E;
    try discriminate E; injection E as <- <-; now repeat split.
Qed.

Section Turn.
Variable devstart : Z.
Variable recurse : fsdir -> tree_node -> world U -> Z * tree_node * world U.
Variable continue : tree_node -> world U -> Z * tree_node * world U.
Variables (root : tree_node) (w : world U).
Hypothesis Hcont :
  forall root1 w1, safe root w (0%Z, root1, w1) ->
                   safe root1 w1 (continue root1 w1).

Lemma safe_go (root1 : tree_node) (w1 : world U) :
  safe root w (0%Z, root1, w1) -> safe root w (continue root1 w1).
Proof. intros H. exact (@safe_trans _ _ _ _ _ _ H (Hcont H)). Qed.

(** The recursive call on the node [n] of the child list, and what
    follows it. *)
Lemma descend_safe (d' : fsdir) (n root2 : tree_node) (w3 : world U) :
  safe root w (0%Z, root2, w3) ->
  safe n (fd_opened w3) (recurse d' n (fd_opened w3)) ->
  safe root w
       (let '(r, n', w5) := recurse d' n (fd_opened w3) in
        let root4 :=
          set_children root2 (update_child (children root2) (addr n) n') in
        if (r =? 0)%Z then continue root4 w5 else fail root4 w5 None).
Proof.
  intros Hstep Hrec.
  destruct (recurse d' n (fd_opened w3)) as [[r n'] w5].
  destruct Hrec as (Ha & Hg & _).
  assert (Hstep2 : safe root w (0%Z,
            set_children root2 (update_child (children root2) (addr n) n'),
            w5)).
  { eapply (@safe_trans _ _ _ _ _ _ Hstep).
    split; [reflexivity|]. split; [exact Hg|].
    cbn [set_children children]. intros Hb.
    rewrite (@update_child_addrs (children root2) _ _ Ha).
    split; [apply incl_refl|].
    eapply below_addrs; [apply (@update_child_addrs (children root2) _ _ Ha)|].
    eapply below_mono; [exact Hb|apply Hg]. }
  destruct (r =? 0)%Z; [now apply safe_go|now apply safe_fail with (r := 0%Z)].
Qed.


(** A new node came in at a fresh address. *)
Lemma inserted_safe (n : tree_node) (w1 w2 : world U) :
  grows w w1 -> addr n = next_addr w1 ->
  next_addr w2 = Datatypes.S (next_addr w1) -> freed w2 = freed w1 ->
  safe root w (0%Z, fstree_insert_sorted root n, w2).
Proof.
  intros (G1 & l & G2 & G3) Ha Hn Hf.
  split; [reflexivity|]. split.
  - split; [lia|]. exists l. split; [congruence|exact G3].
  - cbn [fstree_insert_sorted set_children children]. intros Hb.
    split; [apply insert_sorted_addrs|].
    apply forall_insert; [|lia].
    eapply below_mono; [exact Hb|lia].
Qed.

(** ... and went away again. *)
Lemma discarded_safe (n : tree_node) (w1 w2 : world U) :
  grows w w1 -> addr n = next_addr w1 ->
  next_addr w2 = Datatypes.S (next_addr w1) -> freed w2 = freed w1 ->
  safe root w
       (0%Z,
        set_children (fstree_insert_sorted root n)
          (remove_addr (children (fstree_insert_sorted root n)) (addr n)),
        free_node w2 n).
Proof.
  intros (G1 & l & G2 & G3) Ha Hn Hf.
  split; [reflexivity|]. split.
  - split; [cbn; lia|]. exists (addr n :: l). split.
    + cbn. now rewrite Hf, G2.
    + constructor; [lia|exact G3].
  - cbn [fstree_insert_sorted set_children children]. intros Hb.
    rewrite remove_inserted.
    + split; [apply incl_refl|]. eapply below_mono; [exact Hb|cbn; lia].
    + apply (below_fresh Hb). lia.
Qed.


(** The node of an entry is a child that was there, or a new one at a
    fresh address. *)
Lemma node_for_fresh nm sb extra (w1 : world U) :
  match node_for M fs cb flags nm sb extra root w1 with
  | NodeSkip => True
  | NodeFail w2 => next_addr w2 = next_addr w1 /\ freed w2 = freed w1
  | NodeOk n root2 ret w2 =>
      (ret = 0%Z /\ root2 = root /\ w2 = w1) \/
      (addr n = next_addr w1 /\ root2 = fstree_insert_sorted root n /\
       next_addr w2 = Datatypes.S (next_addr w1) /\ freed w2 = freed w1)
  end.
Proof.
  unfold node_for. destruct (_ && _).
  - destruct (get_node_by_name root nm); [left; now repeat split|exact I].
  - unfold alloc. destruct (allocs w1) as [|[|] rest].
    + unfold call_cb. destruct cb as [f|]; [destruct (f _ _ _)|];
        right; now repeat split.
    + unfold call_cb. destruct cb as [f|]; [destruct (f _ _ _)|];
        right; now repeat split.
    + now split.
Qed.

Lemma scan_entry_safe (e : fsent) :
  match sub e with
  | Some d' => forall n w1, safe n w1 (recurse d' n w1)
  | None => True
  end ->
  safe root w
       (scan_entry M sizeof_off_t sizeof_size_t fs cb flags devstart
                   recurse continue e root w).
Proof.
  destruct e as [nm st lnk subdir]. cbn [sub]. intros Hrec.
  assert (H0 : safe root w (0%Z, root, w)) by apply safe_refl, grows_refl.
  unfold scan_entry, fail_rdlink.
  destruct (_ || _); [now apply safe_go|].
  destruct st as [sb|];
    [|apply safe_fail with (r := 0%Z); eapply safe_world; [exact H0| |];
      reflexivity].
  destruct (skip_by_type M flags (st_mode sb)); [now apply safe_go|].
  destruct (_ && _); [now apply safe_go|].
  pose proof (read_link_grows sb lnk w) as Hg.
  destruct (read_link _ _ sb lnk w) as [[extra w1]|[extra w1]].
  2:{ apply safe_fail with (r := 0%Z).
      eapply safe_world; [apply (safe_refl root 0%Z Hg)| |]; reflexivity. }
  pose proof (node_for_fresh nm (default_time M fs flags sb) extra w1) as Hn.
  destruct (node_for _ _ _ _ _ _ _ _ _) as [|w2|n root2 ret w2].
  - apply safe_go, safe_refl, Hg.
  - destruct Hn as [Hn Hf]. apply safe_fail with (r := 0%Z).
    eapply safe_world; [apply (safe_refl root 0%Z Hg)| |];
      cbn; congruence.
  - assert (Hfe : forall w0 : world U,
               next_addr (free_extra w0 extra) = next_addr w0 /\
               freed (free_extra w0 extra) = freed w0)
      by (intros w0; destruct extra; now split).
    assert (Hok : safe root w (0%Z, root2, free_extra w2 extra)).
    { destruct Hn as [(-> & -> & ->)|(Ha & -> & Hn & Hf)].
      - eapply safe_world; [apply (safe_refl root 0%Z Hg)| |]; apply Hfe.
      - eapply safe_world; [exact (@inserted_safe n w1 w2 Hg Ha Hn Hf)| |];
          apply Hfe. }
    destruct (ret <? 0)%Z eqn:Hlt; [now apply safe_fail with (r := 0%Z)|].
    destruct (0 <? ret)%Z eqn:Hgt.
    { rewrite discard_node_children.
      destruct Hn as [(-> & _)|(Ha & -> & Hn & Hf)]; [discriminate Hgt|].
      apply safe_go.
      apply (@discarded_safe n w1 (free_extra w2 extra) Hg Ha).
      - rewrite (proj1 (Hfe w2)). exact Hn.
      - rewrite (proj2 (Hfe w2)). exact Hf. }
    destruct (_ && _); [|now apply safe_go].
    destruct subdir as [d'|].
    + apply descend_safe; [exact Hok|apply Hrec].
    + apply safe_fail with (r := 0%Z).
      eapply safe_world; [exact Hok| |]; reflexivity.
Qed.

End Turn.

Lemma scan_entries_safe (devstart : Z) recurse (rf : bool)
      (ents : list fsent) :
  Forall (fun e => match sub e with
                   | Some d' => forall n w1, safe n w1 (recurse d' n w1)
                   | None => True
                   end) ents ->
  forall root w,
    safe root w (scan_entries M sizeof_off_t sizeof_size_t fs cb flags
                              devstart recurse rf ents root w).
Proof.
  induction 1 as [|e rest He Hrest IH]; intros root w; cbn [scan_entries].
  - destruct rf.
    + apply safe_fail with (r := 0%Z).
      eapply safe_world; [apply (@safe_refl root w w 0%Z), grows_refl| |];
        reflexivity.
    + eapply safe_world; [apply (@safe_refl root w w 0%Z), grows_refl| |];
        reflexivity.
  - apply scan_entry_safe; [|exact He]. intros root1 w1 _. apply IH.
Qed.

Lemma populate_dir_safe (devstart : Z) (d : fsdir) :
  forall root w,
    safe root w (populate_dir M sizeof_off_t sizeof_size_t fs cb flags
                              d root devstart w).
Proof.
  induction d as [ff st ents rf IH] using fsdir_induction.
  intros root w. cbn [populate_dir]. destruct ff.
  - eapply safe_world; [apply (@safe_refl root w w 0%Z), grows_refl| |];
      reflexivity.
  - apply scan_entries_safe. eapply Forall_impl; [|exact IH].
    cbn beta. intros e He. destruct (sub e); [|exact I].
    intros n w1. apply He.
Qed.

Lemma fstree_from_subdir_safe os_open (root : tree_node) (path : string)
      (subdir : option string) (w : world U) :
  safe root w (fstree_from_subdir M sizeof_off_t sizeof_size_t fs cb flags
                                  os_open root path subdir w).
Proof.
  assert (Hw : forall w2 (r : Z),
             next_addr w2 = next_addr w -> freed w2 = freed w ->
             safe root w (r, root, w2)).
  { intros w2 r Hn Hf. apply safe_refl, grows_same; assumption. }
  unfold fstree_from_subdir.
  destruct (negb _); [now apply Hw|].
  destruct (os_open path) as [d|]; [|now apply Hw].
  assert (Hp : forall d0 dev w2,
             next_addr w2 = next_addr w -> freed w2 = freed w ->
             safe root w (populate_dir M sizeof_off_t sizeof_size_t fs cb
                                       flags d0 root dev w2)).
  { intros d0 dev w2 Hn Hf.
    eapply safe_trans; [apply (Hw w2 0%Z Hn Hf)|apply populate_dir_safe]. }
  destruct subdir as [sd|].
  - destruct (openat d sd) as [d'|]; [|now apply Hw].
    destruct (dir_stat d') as [sb|]; [now apply Hp|now apply Hw].
  - destruct (dir_stat d) as [sb|]; [now apply Hp|now apply Hw].
Qed.

End PosixSafe.

(** X23.  A scan of the POSIX [fstree_from_subdir] into a node that has
    children already leaves each of them linked: the node the call
    leaves is the same node, every child address of before is a child
    address after, whatever the flags are and whatever the callback
    answers; and every node the scan frees was allocated by the scan
    itself, so none of the children of before is freed.  The siblings of
    before were all allocated before the scan starts. *)
Theorem posix_scan_keeps_nodes (U : Type) (M : Fstree.dir_scan_masks)
        (sizeof_off_t sizeof_size_t : Z) (fs : Fstree.fstree)
        (cb : option (Scan.scan_node_callback U)) (flags : Z)
        (os_open : string -> option Posix.fsdir)
        (root : Fstree.tree_node) (path : string) (subdir : option string)
        (w : Scan.world U) :
  PosixSpec.below (Scan.next_addr w) (Fstree.children root) ->
  let '(_, root', w') :=
    Posix.fstree_from_subdir M sizeof_off_t sizeof_size_t fs cb flags
                             os_open root path subdir w in
  Fstree.addr root' = Fstree.addr root /\
  incl (map Fstree.addr (Fstree.children root))
       (map Fstree.addr (Fstree.children root')) /\
  exists l,
    Scan.freed w' = l ++ Scan.freed w /\
    Forall (fun a => Scan.next_addr w <= a /\
                     ~ In a (map Fstree.addr (Fstree.children root))) l.
Proof.
  intros Hb.
  pose proof (@fstree_from_subdir_safe U M sizeof_off_t sizeof_size_t fs cb
                flags os_open root path subdir w) as H.
  destruct (Posix.fstree_from_subdir _ _ _ _ _ _ _ _ _ _ _)
    as [[r root'] w'].
  destruct H as (Ha & (_ & l & Hf & Hl) & K).
  split; [exact Ha|]. split; [apply (K Hb)|].
  exists l. split; [exact Hf|].
  eapply Forall_impl; [|exact Hl]. cbn beta. intros a Hk.
  split; [exact Hk|]. now apply (below_fresh Hb).
Qed.

Lemma posix_scan_keeps_nodes_witness :
  let root := Sample.dir_node 0 "" [Sample.file_node 1 "a";
                                    Sample.file_node 2 "z"] in
  let d := Sample.top [Sample.file "b"; Sample.file "m"] in
  PosixSpec.below (Scan.next_addr (Sample.process 3)) (Fstree.children root) /\
  let '(_, root', w') :=
    Posix.fstree_from_subdir Fstree.example_masks 8 8 (Fstree.mk_fstree 5)
                             (Some (Sample.answer "m" 1)) 0
                             (Sample.only_root d) root "root" None
                             (Sample.process 3) in
  Fstree.addr root' = Fstree.addr root /\
  incl (map Fstree.addr (Fstree.children root))
       (map Fstree.addr (Fstree.children root')) /\
  exists l,
    Scan.freed w' = l ++ Scan.freed (Sample.process 3) /\
    Forall (fun a => Scan.next_addr (Sample.process 3) <= a /\
                     ~ In a (map Fstree.addr (Fstree.children root))) l.
Proof.
  intros root d.
  assert (H : PosixSpec.below (Scan.next_addr (Sample.process 3))
                              (Fstree.children root))
    by (repeat constructor).
  split; [exact H|].
  exact (@posix_scan_keeps_nodes unit Fstree.example_masks 8 8
           (Fstree.mk_fstree 5) (Some (Sample.answer "m" 1)) 0
           (Sample.only_root d) root "root" None (Sample.process 3) H).
Defined.

Example posix_rescan_discards_new_node :
  let root := Sample.dir_node 0 "" [Sample.file_node 1 "a";
                                    Sample.file_node 2 "z"] in
  let d := Sample.top [Sample.file "b"; Sample.file "m"] in
  let '(r, root', w') :=
    Posix.fstree_from_subdir Fstree.example_masks 8 8 (Fstree.mk_fstree 5)
                             (Some (Sample.answer "m" 1)) 0
                             (Sample.only_root d) root "root" None
                             (Sample.process 3) in
  r = 0%Z /\
  map Fstree.name (Fstree.children root') = ["a"; "b"; "z"]%string /\
  Scan.freed w' = [4].
Proof. vm_compute. repeat split. Qed.
